(** * Granite glTF exporter: a shallow embedding of scene_formats/gltf_export.cpp

    The development follows the source file top to bottom: the emitted
    records, [RemapState] with its content-addressed caches, the accessor
    format tables, the [emit_*] family, the image analysis
    ([AnalysisResult]), [compress_image] and finally
    [export_scene_to_glb] with the GLB framing.

    Modelling conventions.
    - [size_t] values are sizes and offsets of live vectors; they are kept as
      exact integers ([Z]).  Every narrowing to 32 bits that the source
      performs on a byte size is written out with [u32].
    - [unsigned] cache indices are vector lengths at the time of insertion
      and are kept as [nat]; [int] fields that use -1 as "absent" are [Z].
    - A [float] is represented by its IEEE-754 binary32 bit pattern; the only
      float operations of this file are copies and comparisons against the
      constants 0.0f and 1.0f, which are exact on bit patterns.
    - C++ exceptions and undefined behaviour are results of type [outcome].
    - Code that lives outside this file (the hasher, the image loader, the
      JSON text writer, enumerator values of other headers) is a field of
      the class [Collaborators]; the filesystem is passed explicitly. *)

From Stdlib Require Import ZArith Lia.
From stdpp Require Import base numbers list strings gmap pretty.

(** ** Results of fallible code *)

Inductive outcome (A : Type) : Type :=
  | Ok (a : A)
  | Throw (what : string)      (* an exception leaves the function *)
  | TaskThrow (what : string)  (* an exception leaves a worker task *)
  | Undefined.                 (* out-of-range index, division by zero *)
Arguments Ok {A} a.
Arguments Throw {A} what.
Arguments TaskThrow {A} what.
Arguments Undefined {A}.

#[global] Instance outcome_ret : MRet outcome := λ A a, Ok a.
#[global] Instance outcome_bind : MBind outcome := λ A B k m,
  match m with
  | Ok a => k a
  | Throw w => Throw w
  | TaskThrow w => TaskThrow w
  | Undefined => Undefined
  end.

(** [v[i]] on a vector: undefined behaviour when out of range. *)
Definition at_index {A} (v : list A) (i : nat) : outcome A :=
  match v !! i with
  | Some a => Ok a
  | None => Undefined
  end.

Definition returns {A} (m : outcome A) : Prop := ∃ a, m = Ok a.

(** ** Scalars *)

Abbreviation byte := Z (only parsing).
Abbreviation f32 := Z (only parsing).

Definition u32 (v : Z) : Z := (v mod 2 ^ 32)%Z.

Definition f32_1_0 : f32 := 0x3F800000%Z.
Definition f32_0_0 : f32 := 0%Z.
Definition f32_neg_0_0 : f32 := 0x80000000%Z.

(** [x != 1.0f]: 1.0f has a single encoding and a NaN differs from it. *)
Definition ne_1_0f (x : f32) : bool := negb (x =? f32_1_0)%Z.
(** [x != 0.0f]: both signed zeros compare equal to 0.0f. *)
Definition ne_0_0f (x : f32) : bool := negb ((x =? f32_0_0)%Z || (x =? f32_neg_0_0)%Z).

Definition vec3 : Type := f32 * f32 * f32.
Definition vec4 : Type := f32 * f32 * f32 * f32.
Definition vec3_list (v : vec3) : list f32 := let '(x, y, z) := v in [x; y; z].
Definition vec4_list (v : vec4) : list f32 := let '(x, y, z, w) := v in [x; y; z; w].
Definition vec3_splat (x : f32) : vec3 := (x, x, x).
Definition vec4_splat (x : f32) : vec4 := (x, x, x, x).
Definition vec4_of_vec3 (v : vec3) (w : f32) : vec4 := let '(x, y, z) := v in (x, y, z, w).

Module AABB.
Record t := { minimum : vec3; maximum : vec3 }.
Definition zero : t := {| minimum := vec3_splat f32_0_0; maximum := vec3_splat f32_0_0 |}.
End AABB.

(** ** Enumerations *)

Inductive VkFormat :=
  | VK_FORMAT_UNDEFINED
  | VK_FORMAT_R32_SFLOAT | VK_FORMAT_R32G32_SFLOAT
  | VK_FORMAT_R32G32B32_SFLOAT | VK_FORMAT_R32G32B32A32_SFLOAT
  | VK_FORMAT_R8_UNORM | VK_FORMAT_R8G8_UNORM
  | VK_FORMAT_R8G8B8_UNORM | VK_FORMAT_R8G8B8A8_UNORM
  | VK_FORMAT_R8_UINT | VK_FORMAT_R8G8_UINT
  | VK_FORMAT_R8G8B8_UINT | VK_FORMAT_R8G8B8A8_UINT
  | VK_FORMAT_R8_SNORM | VK_FORMAT_R8G8_SNORM
  | VK_FORMAT_R8G8B8_SNORM | VK_FORMAT_R8G8B8A8_SNORM
  | VK_FORMAT_R8_SINT | VK_FORMAT_R8G8_SINT
  | VK_FORMAT_R8G8B8_SINT | VK_FORMAT_R8G8B8A8_SINT
  | VK_FORMAT_R16_UNORM | VK_FORMAT_R16G16_UNORM
  | VK_FORMAT_R16G16B16_UNORM | VK_FORMAT_R16G16B16A16_UNORM
  | VK_FORMAT_R16_UINT | VK_FORMAT_R16G16_UINT
  | VK_FORMAT_R16G16B16_UINT | VK_FORMAT_R16G16B16A16_UINT
  | VK_FORMAT_R16_SNORM | VK_FORMAT_R16G16_SNORM
  | VK_FORMAT_R16G16B16_SNORM | VK_FORMAT_R16G16B16A16_SNORM
  | VK_FORMAT_R16_SINT | VK_FORMAT_R16G16_SINT
  | VK_FORMAT_R16G16B16_SINT | VK_FORMAT_R16G16B16A16_SINT
  | VK_FORMAT_R32_UINT | VK_FORMAT_R32G32_UINT
  | VK_FORMAT_R32G32B32_UINT | VK_FORMAT_R32G32B32A32_UINT
  | VK_FORMAT_R32_SINT | VK_FORMAT_R32G32_SINT
  | VK_FORMAT_R32G32B32_SINT | VK_FORMAT_R32G32B32A32_SINT
  | VK_FORMAT_other (code : Z).   (* any enumerator this file does not name *)

Inductive VkIndexType := VK_INDEX_TYPE_UINT16 | VK_INDEX_TYPE_UINT32.

Inductive VkComponentSwizzle :=
  | VK_COMPONENT_SWIZZLE_IDENTITY
  | VK_COMPONENT_SWIZZLE_ZERO
  | VK_COMPONENT_SWIZZLE_ONE
  | VK_COMPONENT_SWIZZLE_R
  | VK_COMPONENT_SWIZZLE_G
  | VK_COMPONENT_SWIZZLE_B
  | VK_COMPONENT_SWIZZLE_A.

Module VkComponentMapping.
Record t := { r : VkComponentSwizzle; g : VkComponentSwizzle;
                b : VkComponentSwizzle; a : VkComponentSwizzle }.
Definition rgba : t :=
    {| r := VK_COMPONENT_SWIZZLE_R; g := VK_COMPONENT_SWIZZLE_G;
       b := VK_COMPONENT_SWIZZLE_B; a := VK_COMPONENT_SWIZZLE_A |}.
  (** Value-initialised mapping: every member is enumerator 0. *)
Definition zero : t :=
    {| r := VK_COMPONENT_SWIZZLE_IDENTITY; g := VK_COMPONENT_SWIZZLE_IDENTITY;
       b := VK_COMPONENT_SWIZZLE_IDENTITY; a := VK_COMPONENT_SWIZZLE_IDENTITY |}.
End VkComponentMapping.

Inductive MeshAttribute :=
  | Position | UV | Normal | Tangent | BoneIndex | BoneWeights | VertexColor.

Module Textures.   (* Material::Textures *)
Inductive t := BaseColor | Normal | MetallicRoughness | Occlusion | Emissive
               | other (v : Z).
End Textures.

Module TextureCompressionFamily.
Inductive t := ASTC | BC | Uncompressed.
End TextureCompressionFamily.

Module TextureCompression.
Inductive t := Uncompressed | BC1 | BC3 | BC4 | BC5 | BC7 | BC6H
               | ASTC4x4 | ASTC5x5 | ASTC6x6 | ASTC8x8
               | other (v : Z).
End TextureCompression.

Module TextureMode.
Inductive t := sRGB | sRGBA | RGB | RGBA | HDR.
End TextureMode.

Module StockSampler.   (* Vulkan::StockSampler *)
Inductive t := TrilinearWrap | TrilinearClamp | LinearWrap | LinearClamp
               | NearestClamp | NearestWrap
               | other (v : Z).
End StockSampler.

Module DrawPipeline.
Inductive t := Opaque | AlphaTest | AlphaBlend.
End DrawPipeline.

Inductive ColorSpace := ColorSpace_sRGB | ColorSpace_Linear.

Module gli.
Inductive format :=
    | FORMAT_UNDEFINED
    | FORMAT_RGBA8_SRGB_PACK8 | FORMAT_RGBA8_UNORM_PACK8
    | FORMAT_RGBA_DXT1_SRGB_BLOCK8 | FORMAT_RGBA_DXT1_UNORM_BLOCK8
    | FORMAT_RGB_DXT1_SRGB_BLOCK8 | FORMAT_RGB_DXT1_UNORM_BLOCK8
    | FORMAT_RGBA_DXT5_SRGB_BLOCK16 | FORMAT_RGBA_DXT5_UNORM_BLOCK16
    | FORMAT_R_ATI1N_UNORM_BLOCK8
    | FORMAT_RG_ATI2N_UNORM_BLOCK16
    | FORMAT_RGBA_BP_SRGB_BLOCK16 | FORMAT_RGBA_BP_UNORM_BLOCK16
    | FORMAT_RGB_BP_UFLOAT_BLOCK16
    | FORMAT_RGBA_ASTC_4X4_SRGB_BLOCK16 | FORMAT_RGBA_ASTC_4X4_UNORM_BLOCK16
    | FORMAT_RGBA_ASTC_5X5_SRGB_BLOCK16 | FORMAT_RGBA_ASTC_5X5_UNORM_BLOCK16
    | FORMAT_RGBA_ASTC_6X6_SRGB_BLOCK16 | FORMAT_RGBA_ASTC_6X6_UNORM_BLOCK16
    | FORMAT_RGBA_ASTC_8X8_SRGB_BLOCK16 | FORMAT_RGBA_ASTC_8X8_UNORM_BLOCK16
    | FORMAT_other (v : Z).

Inductive swizzle := SWIZZLE_RED | SWIZZLE_GREEN | SWIZZLE_BLUE | SWIZZLE_ALPHA.

Record u8vec4 := { r : byte; g : byte; b : byte; a : byte }.

  (** A [gli::texture] as far as this file looks into it: the format, the
      layer, face and level counts, the extent of level 0, and the texels
      of [data(0, 0, 0)]. *)
Record texture := {
    empty : bool;
    format_ : format;
    layers : Z;
    faces : Z;
    levels : Z;
    extent_x : Z;
    extent_y : Z;
    data_0_0_0 : list u8vec4;
  }.
End gli.

#[global] Instance VkFormat_eq_dec : EqDecision VkFormat.
Proof. solve_decision. Defined.
#[global] Instance VkIndexType_eq_dec : EqDecision VkIndexType.
Proof. solve_decision. Defined.
#[global] Instance VkComponentSwizzle_eq_dec : EqDecision VkComponentSwizzle.
Proof. solve_decision. Defined.
#[global] Instance VkComponentMapping_eq_dec : EqDecision VkComponentMapping.t.
Proof. solve_decision. Defined.
#[global] Instance MeshAttribute_eq_dec : EqDecision MeshAttribute.
Proof. solve_decision. Defined.
#[global] Instance Textures_eq_dec : EqDecision Textures.t.
Proof. solve_decision. Defined.
#[global] Instance TextureCompressionFamily_eq_dec : EqDecision TextureCompressionFamily.t.
Proof. solve_decision. Defined.
#[global] Instance TextureCompression_eq_dec : EqDecision TextureCompression.t.
Proof. solve_decision. Defined.
#[global] Instance TextureMode_eq_dec : EqDecision TextureMode.t.
Proof. solve_decision. Defined.
#[global] Instance StockSampler_eq_dec : EqDecision StockSampler.t.
Proof. solve_decision. Defined.
#[global] Instance DrawPipeline_eq_dec : EqDecision DrawPipeline.t.
Proof. solve_decision. Defined.
#[global] Instance gli_format_eq_dec : EqDecision gli.format.
Proof. solve_decision. Defined.

(** ** The scene handed to the exporter

    The records below are declared in headers of the repository that are
    not part of this file; they carry the members this file reads. *)

Module MeshAttributeLayout.
Record t := { format : VkFormat; offset : Z }.
End MeshAttributeLayout.

Module Mesh.
Record t := {
  topology : Z;
  index_type : VkIndexType;
  attribute_stride : Z;
  position_stride : Z;
  has_material : bool;
  material_index : nat;
  (* [attribute_layout[ecast(MeshAttribute::Count)]], indexed by the enumerator *)
  attribute_layout : MeshAttribute → MeshAttributeLayout.t;
  static_aabb : AABB.t;
  positions : list byte;
  indices : list byte;
  attributes : list byte;
  count : Z;
}.
End Mesh.

Module Texture.   (* MaterialInfo::Texture *)
Record t := { path : string; swizzle : VkComponentMapping.t }.
End Texture.

Module MaterialInfo.
Record t := {
  base_color : Texture.t;
  normal : Texture.t;
  occlusion : Texture.t;
  metallic_roughness : Texture.t;
  emissive : Texture.t;
  sampler : StockSampler.t;
  normal_scale : f32;
  uniform_metallic : f32;
  uniform_roughness : f32;
  uniform_base_color : vec4;
  lod_bias : f32;
  uniform_emissive_color : vec3;
  two_sided : bool;
  pipeline : DrawPipeline.t;
}.
End MaterialInfo.

Module Transform.
Record t := { rotation : vec4 (* x, y, z, w *); scale : vec3; translation : vec3 }.
End Transform.

Module Node.
Record t := { children : list Z; meshes : list nat; transform : Transform.t }.
End Node.

Module CameraInfo.
Inductive Type_ := Perspective | Orthographic | other (v : Z).
Record t := {
  attached_to_node : bool;
  node_index : Z;
  type : Type_;
  aspect_ratio : f32; yfov : f32; znear : f32; zfar : f32;
  xmag : f32; ymag : f32;
}.
End CameraInfo.

Module LightInfo.
Inductive Type_ := Spot | Point | Directional | Ambient | other (v : Z).
Record t := {
  attached_to_node : bool;
  node_index : Z;
  type : Type_;
  color : vec3;
  constant_falloff : f32; linear_falloff : f32; quadratic_falloff : f32;
  inner_cone : f32; outer_cone : f32;
}.
End LightInfo.

Module SceneInformation.
Record t := {
  materials : list MaterialInfo.t;
  meshes : list Mesh.t;
  nodes : list Node.t;
  cameras : list CameraInfo.t;
  lights : list LightInfo.t;
}.
End SceneInformation.

Module Environment.   (* ExportOptions::environment *)
Record t := {
  cube : string;
  reflection : string;
  irradiance : string;
  intensity : f32;
  fog_color : vec3;
  fog_falloff : f32;
  compression : TextureCompressionFamily.t;
  texcomp_quality : Z;
}.
End Environment.

Module ExportOptions.
Record t := {
  threads : Z;
  compression : TextureCompressionFamily.t;
  texcomp_quality : Z;
  environment : Environment.t;
}.
End ExportOptions.

(** ** Records of the exporter *)

Module Remap.
Record t (T : Type) := {
  to_index : list nat;
  hashmap : gmap N nat;
  info : list T;        (* [const T *] into the scene: the pointee *)
}.
Arguments to_index {T} _.
Arguments hashmap {T} _.
Arguments info {T} _.
Definition empty {T} : t T := {| to_index := []; hashmap := ∅; info := [] |}.
End Remap.

Module BufferView.
Record t := { offset : Z; length : Z; stride : Z }.
End BufferView.

Module EmittedMesh.
Record t := {
  index_accessor : Z;
  material : Z;
  attribute_mask : Z;
  attribute_accessor : MeshAttribute → Z;
}.
Definition default : t :=
  {| index_accessor := -1; material := -1; attribute_mask := 0;
     attribute_accessor := λ _, 0%Z |}.
End EmittedMesh.

Module EmittedEnvironment.
Record t := {
  cube : Z;
  reflection : Z;
  irradiance : Z;
  intensity : f32;
  fog_color : vec3;
  fog_falloff : f32;
}.
End EmittedEnvironment.

Module EmittedAccessor.
Record t := {
  view : nat;
  count : Z;
  type : string;      (* assigned by set_accessor_type before the record is stored *)
  component : Z;
  offset : Z;
  aabb : AABB.t;
  normalized : bool;
  use_aabb : bool;
}.
End EmittedAccessor.

Module EmittedMaterial.
Record t := {
  base_color : Z;
  normal : Z;
  metallic_roughness : Z;
  occlusion : Z;
  emissive : Z;
  uniform_base_color : vec4;
  uniform_emissive_color : vec3;
  uniform_metallic : f32;
  uniform_roughness : f32;
  lod_bias : f32;
  normal_scale : f32;
  pipeline : DrawPipeline.t;
  two_sided : bool;
}.
Definition default : t :=
  {| base_color := -1; normal := -1; metallic_roughness := -1;
     occlusion := -1; emissive := -1;
     uniform_base_color := vec4_splat f32_1_0;
     uniform_emissive_color := vec3_splat f32_0_0;
     uniform_metallic := f32_1_0;
     uniform_roughness := f32_1_0;
     lod_bias := f32_0_0;
     normal_scale := f32_1_0;
     pipeline := DrawPipeline.Opaque;
     two_sided := false |}.
End EmittedMaterial.

Module EmittedTexture.
Record t := { image : nat; sampler : nat }.
End EmittedTexture.

Module AnalysisResult.
Inductive MetallicRoughnessMode :=
  | RoughnessMetal | RoughnessDielectric | MetallicSmooth | MetallicRough | Default.
Record t := {
  src_path : string;
  image : option gli.texture;     (* shared_ptr, null until load_image *)
  compression : TextureCompression.t;
  mode : TextureMode.t;
  type : Textures.t;
  swizzle : VkComponentMapping.t;
}.
End AnalysisResult.

Module EmittedImage.
Record t := {
  source_path : string;
  target_relpath : string;
  target_mime : string;
  compression : TextureCompressionFamily.t;
  compression_quality : Z;
  mode : TextureMode.t;
  type : Textures.t;
  swizzle : VkComponentMapping.t;
  loaded_image : option AnalysisResult.t;
}.
End EmittedImage.

Module EmittedSampler.
Record t := { mag_filter : Z; min_filter : Z; wrap_s : Z; wrap_t : Z }.
End EmittedSampler.

(** The state of the pixel scan of [deduce_metallic_roughness_mode]. *)
Module MRScan.
(** The four flags of the scan, and the positions [i] at which [src[i]]
    has been read, in order. *)
Record t := {
  metallic_zero_only : bool;
  metallic_one_only : bool;
  roughness_zero_only : bool;
  roughness_one_only : bool;
  visited : list nat;
}.
Definition start : t :=
  {| metallic_zero_only := true; metallic_one_only := true;
     roughness_zero_only := true; roughness_one_only := true;
     visited := [] |}.
End MRScan.

(** ** The filesystem and the worker pool, as this file uses them *)

Module FileStat.
Record t := { last_modified : Z }.
End FileStat.

Module Filesystem.
Record t := {
  (* [stat(path, out)]: the file's status, or failure *)
  stat : string → option FileStat.t;
  (* [open(path, FileMode::WriteOnly)] gave a file *)
  open_write_only : string → bool;
  (* [file->map_write(size)]: the mapping as it is handed out, or null *)
  map_write : string → Z → option (list byte);
  map_write_length : ∀ path size mapped,
    map_write path size = Some mapped → Z.of_nat (length mapped) = size;
}.
End Filesystem.

Module CompressorArguments.
Record t := { output : string; format : gli.format; quality : Z }.
End CompressorArguments.

Module ThreadGroup.
(** Work handed to the pool.  A dependency is the position of the task
    that has to finish first. *)
Inductive Task :=
  | generate_mipmaps (src_path : string)
  | compress_texture (args : CompressorArguments.t) (dependency : nat)
  | save_texture_to_file (target_path : string) (dependency : nat).
Record t := { threads : Z; tasks : list Task }.
Definition create_task (task : Task) (workers : t) : nat * t :=
  (length (tasks workers), {| threads := threads workers; tasks := tasks workers ++ [task] |}).
End ThreadGroup.

(** ** The JSON document (rapidjson [Value]) *)

#[local] Set Warnings "-register-all".
Inductive Value :=
  | JObject (members : list (string * Value))
  | JArray (elements : list Value)
  | JString (s : string)
  | JNumber (n : Z)
  | JFloat (x : f32)
  | JBool (b : bool).

(** [obj.AddMember(name, v, allocator)]: members are appended. *)
Definition AddMember (name : string) (v : Value) (members : list (string * Value)) :
    list (string * Value) :=
  members ++ [(name, v)].

Definition has_member (name : string) (members : list (string * Value)) : bool :=
  bool_decide (name ∈ members.*1).

Definition find_member (name : string) (members : list (string * Value)) : option Value :=
  (λ hit : nat * (string * Value), hit.2.2) <$> list_find (λ m, m.1 = name) members.

(** ** Code outside this file *)

(** What is fed to a [Util::Hasher], in order. *)
Inductive HashField :=
  | h_u32 (v : Z)
  | h_s32 (v : Z)
  | h_f32 (v : f32)
  | h_string (s : string)
  | h_data (d : list byte)
  | h_layout (l : list MeshAttributeLayout.t).

Class Collaborators := {
  (** [Hasher h; ...; h.get()]: the 64-bit digest of the fields fed. *)
  digest : list HashField → N;
  (** enumerator values, as cast by [ecast] and by the implicit conversions
      of [h.u32(...)] *)
  ecast_VkFormat : VkFormat → Z;
  ecast_VkIndexType : VkIndexType → Z;
  ecast_Textures : Textures.t → Z;
  ecast_TextureCompressionFamily : TextureCompressionFamily.t → Z;
  ecast_TextureMode : TextureMode.t → Z;
  ecast_StockSampler : StockSampler.t → Z;
  ecast_DrawPipeline : DrawPipeline.t → Z;
  (** the enumerators of [MeshAttribute] before [Count], in declaration
      order: slot [i] of the per-attribute arrays belongs to the [i]-th *)
  MeshAttribute_order : list MeshAttribute;
  MeshAttribute_order_perm :
    MeshAttribute_order ≡ₚ [Position; UV; Normal; Tangent; BoneIndex; BoneWeights; VertexColor];
  (** the enumerator of [TextureCompression] whose value is 0 *)
  TextureCompression_zero : TextureCompression.t;
  (** texture_files.hpp *)
  load_texture_from_file : string → ColorSpace → gli.texture;
  (** [Path::relpath] *)
  relpath : string → string → string;
  (** rapidjson [PrettyWriter]: the text of a document *)
  pretty_writer : Value → list byte;
  (** [glm::sqrt(std::max(1.0f - c * c, 0.0f))] on binary32 *)
  cone_to_angle : f32 → f32;
  (** [std::thread::hardware_concurrency()] *)
  hardware_concurrency : Z;
}.

(** ** RemapState *)

Module RemapState.
Record t := {
  options : ExportOptions.t;
  mesh : Remap.t Mesh.t;
  material : Remap.t MaterialInfo.t;
  glb_buffer_data : list byte;
  buffer_hash : gmap N nat;
  buffer_views : list BufferView.t;
  accessor_hash : gmap N nat;
  accessor_cache : list EmittedAccessor.t;
  mesh_hash : gset nat;
  mesh_cache : list EmittedMesh.t;
  environment_cache : list EmittedEnvironment.t;
  material_hash : gset nat;
  material_cache : list EmittedMaterial.t;
  texture_hash : gmap N nat;
  texture_cache : list EmittedTexture.t;
  image_hash : gmap N nat;
  image_cache : list EmittedImage.t;
  sampler_hash : gmap N nat;
  sampler_cache : list EmittedSampler.t;
  mesh_group_hash : gmap N nat;
  mesh_group_cache : list (list nat);
}.

(** [RemapState state; state.options = &options;] *)
Definition init (opts : ExportOptions.t) : t :=
  {| options := opts;
     mesh := Remap.empty;
     material := Remap.empty;
     glb_buffer_data := [];
     buffer_hash := ∅;
     buffer_views := [];
     accessor_hash := ∅;
     accessor_cache := [];
     mesh_hash := ∅;
     mesh_cache := [];
     environment_cache := [];
     material_hash := ∅;
     material_cache := [];
     texture_hash := ∅;
     texture_cache := [];
     image_hash := ∅;
     image_cache := [];
     sampler_hash := ∅;
     sampler_cache := [];
     mesh_group_hash := ∅;
     mesh_group_cache := [] |}.

(** Assignments to members, one function per member that is written. *)
Definition set_mesh (v : Remap.t Mesh.t) (s : t) : t :=
  {| options := options s;
     mesh := v;
     material := material s;
     glb_buffer_data := glb_buffer_data s;
     buffer_hash := buffer_hash s;
     buffer_views := buffer_views s;
     accessor_hash := accessor_hash s;
     accessor_cache := accessor_cache s;
     mesh_hash := mesh_hash s;
     mesh_cache := mesh_cache s;
     environment_cache := environment_cache s;
     material_hash := material_hash s;
     material_cache := material_cache s;
     texture_hash := texture_hash s;
     texture_cache := texture_cache s;
     image_hash := image_hash s;
     image_cache := image_cache s;
     sampler_hash := sampler_hash s;
     sampler_cache := sampler_cache s;
     mesh_group_hash := mesh_group_hash s;
     mesh_group_cache := mesh_group_cache s |}.
Definition set_material (v : Remap.t MaterialInfo.t) (s : t) : t :=
  {| options := options s;
     mesh := mesh s;
     material := v;
     glb_buffer_data := glb_buffer_data s;
     buffer_hash := buffer_hash s;
     buffer_views := buffer_views s;
     accessor_hash := accessor_hash s;
     accessor_cache := accessor_cache s;
     mesh_hash := mesh_hash s;
     mesh_cache := mesh_cache s;
     environment_cache := environment_cache s;
     material_hash := material_hash s;
     material_cache := material_cache s;
     texture_hash := texture_hash s;
     texture_cache := texture_cache s;
     image_hash := image_hash s;
     image_cache := image_cache s;
     sampler_hash := sampler_hash s;
     sampler_cache := sampler_cache s;
     mesh_group_hash := mesh_group_hash s;
     mesh_group_cache := mesh_group_cache s |}.
Definition set_glb_buffer_data (v : list byte) (s : t) : t :=
  {| options := options s;
     mesh := mesh s;
     material := material s;
     glb_buffer_data := v;
     buffer_hash := buffer_hash s;
     buffer_views := buffer_views s;
     accessor_hash := accessor_hash s;
     accessor_cache := accessor_cache s;
     mesh_hash := mesh_hash s;
     mesh_cache := mesh_cache s;
     environment_cache := environment_cache s;
     material_hash := material_hash s;
     material_cache := material_cache s;
     texture_hash := texture_hash s;
     texture_cache := texture_cache s;
     image_hash := image_hash s;
     image_cache := image_cache s;
     sampler_hash := sampler_hash s;
     sampler_cache := sampler_cache s;
     mesh_group_hash := mesh_group_hash s;
     mesh_group_cache := mesh_group_cache s |}.
Definition set_buffer_hash (v : gmap N nat) (s : t) : t :=
  {| options := options s;
     mesh := mesh s;
     material := material s;
     glb_buffer_data := glb_buffer_data s;
     buffer_hash := v;
     buffer_views := buffer_views s;
     accessor_hash := accessor_hash s;
     accessor_cache := accessor_cache s;
     mesh_hash := mesh_hash s;
     mesh_cache := mesh_cache s;
     environment_cache := environment_cache s;
     material_hash := material_hash s;
     material_cache := material_cache s;
     texture_hash := texture_hash s;
     texture_cache := texture_cache s;
     image_hash := image_hash s;
     image_cache := image_cache s;
     sampler_hash := sampler_hash s;
     sampler_cache := sampler_cache s;
     mesh_group_hash := mesh_group_hash s;
     mesh_group_cache := mesh_group_cache s |}.
Definition set_buffer_views (v : list BufferView.t) (s : t) : t :=
  {| options := options s;
     mesh := mesh s;
     material := material s;
     glb_buffer_data := glb_buffer_data s;
     buffer_hash := buffer_hash s;
     buffer_views := v;
     accessor_hash := accessor_hash s;
     accessor_cache := accessor_cache s;
     mesh_hash := mesh_hash s;
     mesh_cache := mesh_cache s;
     environment_cache := environment_cache s;
     material_hash := material_hash s;
     material_cache := material_cache s;
     texture_hash := texture_hash s;
     texture_cache := texture_cache s;
     image_hash := image_hash s;
     image_cache := image_cache s;
     sampler_hash := sampler_hash s;
     sampler_cache := sampler_cache s;
     mesh_group_hash := mesh_group_hash s;
     mesh_group_cache := mesh_group_cache s |}.
Definition set_accessor_hash (v : gmap N nat) (s : t) : t :=
  {| options := options s;
     mesh := mesh s;
     material := material s;
     glb_buffer_data := glb_buffer_data s;
     buffer_hash := buffer_hash s;
     buffer_views := buffer_views s;
     accessor_hash := v;
     accessor_cache := accessor_cache s;
     mesh_hash := mesh_hash s;
     mesh_cache := mesh_cache s;
     environment_cache := environment_cache s;
     material_hash := material_hash s;
     material_cache := material_cache s;
     texture_hash := texture_hash s;
     texture_cache := texture_cache s;
     image_hash := image_hash s;
     image_cache := image_cache s;
     sampler_hash := sampler_hash s;
     sampler_cache := sampler_cache s;
     mesh_group_hash := mesh_group_hash s;
     mesh_group_cache := mesh_group_cache s |}.
Definition set_accessor_cache (v : list EmittedAccessor.t) (s : t) : t :=
  {| options := options s;
     mesh := mesh s;
     material := material s;
     glb_buffer_data := glb_buffer_data s;
     buffer_hash := buffer_hash s;
     buffer_views := buffer_views s;
     accessor_hash := accessor_hash s;
     accessor_cache := v;
     mesh_hash := mesh_hash s;
     mesh_cache := mesh_cache s;
     environment_cache := environment_cache s;
     material_hash := material_hash s;
     material_cache := material_cache s;
     texture_hash := texture_hash s;
     texture_cache := texture_cache s;
     image_hash := image_hash s;
     image_cache := image_cache s;
     sampler_hash := sampler_hash s;
     sampler_cache := sampler_cache s;
     mesh_group_hash := mesh_group_hash s;
     mesh_group_cache := mesh_group_cache s |}.
Definition set_mesh_hash (v : gset nat) (s : t) : t :=
  {| options := options s;
     mesh := mesh s;
     material := material s;
     glb_buffer_data := glb_buffer_data s;
     buffer_hash := buffer_hash s;
     buffer_views := buffer_views s;
     accessor_hash := accessor_hash s;
     accessor_cache := accessor_cache s;
     mesh_hash := v;
     mesh_cache := mesh_cache s;
     environment_cache := environment_cache s;
     material_hash := material_hash s;
     material_cache := material_cache s;
     texture_hash := texture_hash s;
     texture_cache := texture_cache s;
     image_hash := image_hash s;
     image_cache := image_cache s;
     sampler_hash := sampler_hash s;
     sampler_cache := sampler_cache s;
     mesh_group_hash := mesh_group_hash s;
     mesh_group_cache := mesh_group_cache s |}.
Definition set_mesh_cache (v : list EmittedMesh.t) (s : t) : t :=
  {| options := options s;
     mesh := mesh s;
     material := material s;
     glb_buffer_data := glb_buffer_data s;
     buffer_hash := buffer_hash s;
     buffer_views := buffer_views s;
     accessor_hash := accessor_hash s;
     accessor_cache := accessor_cache s;
     mesh_hash := mesh_hash s;
     mesh_cache := v;
     environment_cache := environment_cache s;
     material_hash := material_hash s;
     material_cache := material_cache s;
     texture_hash := texture_hash s;
     texture_cache := texture_cache s;
     image_hash := image_hash s;
     image_cache := image_cache s;
     sampler_hash := sampler_hash s;
     sampler_cache := sampler_cache s;
     mesh_group_hash := mesh_group_hash s;
     mesh_group_cache := mesh_group_cache s |}.
Definition set_environment_cache (v : list EmittedEnvironment.t) (s : t) : t :=
  {| options := options s;
     mesh := mesh s;
     material := material s;
     glb_buffer_data := glb_buffer_data s;
     buffer_hash := buffer_hash s;
     buffer_views := buffer_views s;
     accessor_hash := accessor_hash s;
     accessor_cache := accessor_cache s;
     mesh_hash := mesh_hash s;
     mesh_cache := mesh_cache s;
     environment_cache := v;
     material_hash := material_hash s;
     material_cache := material_cache s;
     texture_hash := texture_hash s;
     texture_cache := texture_cache s;
     image_hash := image_hash s;
     image_cache := image_cache s;
     sampler_hash := sampler_hash s;
     sampler_cache := sampler_cache s;
     mesh_group_hash := mesh_group_hash s;
     mesh_group_cache := mesh_group_cache s |}.
Definition set_material_hash (v : gset nat) (s : t) : t :=
  {| options := options s;
     mesh := mesh s;
     material := material s;
     glb_buffer_data := glb_buffer_data s;
     buffer_hash := buffer_hash s;
     buffer_views := buffer_views s;
     accessor_hash := accessor_hash s;
     accessor_cache := accessor_cache s;
     mesh_hash := mesh_hash s;
     mesh_cache := mesh_cache s;
     environment_cache := environment_cache s;
     material_hash := v;
     material_cache := material_cache s;
     texture_hash := texture_hash s;
     texture_cache := texture_cache s;
     image_hash := image_hash s;
     image_cache := image_cache s;
     sampler_hash := sampler_hash s;
     sampler_cache := sampler_cache s;
     mesh_group_hash := mesh_group_hash s;
     mesh_group_cache := mesh_group_cache s |}.
Definition set_material_cache (v : list EmittedMaterial.t) (s : t) : t :=
  {| options := options s;
     mesh := mesh s;
     material := material s;
     glb_buffer_data := glb_buffer_data s;
     buffer_hash := buffer_hash s;
     buffer_views := buffer_views s;
     accessor_hash := accessor_hash s;
     accessor_cache := accessor_cache s;
     mesh_hash := mesh_hash s;
     mesh_cache := mesh_cache s;
     environment_cache := environment_cache s;
     material_hash := material_hash s;
     material_cache := v;
     texture_hash := texture_hash s;
     texture_cache := texture_cache s;
     image_hash := image_hash s;
     image_cache := image_cache s;
     sampler_hash := sampler_hash s;
     sampler_cache := sampler_cache s;
     mesh_group_hash := mesh_group_hash s;
     mesh_group_cache := mesh_group_cache s |}.
Definition set_texture_hash (v : gmap N nat) (s : t) : t :=
  {| options := options s;
     mesh := mesh s;
     material := material s;
     glb_buffer_data := glb_buffer_data s;
     buffer_hash := buffer_hash s;
     buffer_views := buffer_views s;
     accessor_hash := accessor_hash s;
     accessor_cache := accessor_cache s;
     mesh_hash := mesh_hash s;
     mesh_cache := mesh_cache s;
     environment_cache := environment_cache s;
     material_hash := material_hash s;
     material_cache := material_cache s;
     texture_hash := v;
     texture_cache := texture_cache s;
     image_hash := image_hash s;
     image_cache := image_cache s;
     sampler_hash := sampler_hash s;
     sampler_cache := sampler_cache s;
     mesh_group_hash := mesh_group_hash s;
     mesh_group_cache := mesh_group_cache s |}.
Definition set_texture_cache (v : list EmittedTexture.t) (s : t) : t :=
  {| options := options s;
     mesh := mesh s;
     material := material s;
     glb_buffer_data := glb_buffer_data s;
     buffer_hash := buffer_hash s;
     buffer_views := buffer_views s;
     accessor_hash := accessor_hash s;
     accessor_cache := accessor_cache s;
     mesh_hash := mesh_hash s;
     mesh_cache := mesh_cache s;
     environment_cache := environment_cache s;
     material_hash := material_hash s;
     material_cache := material_cache s;
     texture_hash := texture_hash s;
     texture_cache := v;
     image_hash := image_hash s;
     image_cache := image_cache s;
     sampler_hash := sampler_hash s;
     sampler_cache := sampler_cache s;
     mesh_group_hash := mesh_group_hash s;
     mesh_group_cache := mesh_group_cache s |}.
Definition set_image_hash (v : gmap N nat) (s : t) : t :=
  {| options := options s;
     mesh := mesh s;
     material := material s;
     glb_buffer_data := glb_buffer_data s;
     buffer_hash := buffer_hash s;
     buffer_views := buffer_views s;
     accessor_hash := accessor_hash s;
     accessor_cache := accessor_cache s;
     mesh_hash := mesh_hash s;
     mesh_cache := mesh_cache s;
     environment_cache := environment_cache s;
     material_hash := material_hash s;
     material_cache := material_cache s;
     texture_hash := texture_hash s;
     texture_cache := texture_cache s;
     image_hash := v;
     image_cache := image_cache s;
     sampler_hash := sampler_hash s;
     sampler_cache := sampler_cache s;
     mesh_group_hash := mesh_group_hash s;
     mesh_group_cache := mesh_group_cache s |}.
Definition set_image_cache (v : list EmittedImage.t) (s : t) : t :=
  {| options := options s;
     mesh := mesh s;
     material := material s;
     glb_buffer_data := glb_buffer_data s;
     buffer_hash := buffer_hash s;
     buffer_views := buffer_views s;
     accessor_hash := accessor_hash s;
     accessor_cache := accessor_cache s;
     mesh_hash := mesh_hash s;
     mesh_cache := mesh_cache s;
     environment_cache := environment_cache s;
     material_hash := material_hash s;
     material_cache := material_cache s;
     texture_hash := texture_hash s;
     texture_cache := texture_cache s;
     image_hash := image_hash s;
     image_cache := v;
     sampler_hash := sampler_hash s;
     sampler_cache := sampler_cache s;
     mesh_group_hash := mesh_group_hash s;
     mesh_group_cache := mesh_group_cache s |}.
Definition set_sampler_hash (v : gmap N nat) (s : t) : t :=
  {| options := options s;
     mesh := mesh s;
     material := material s;
     glb_buffer_data := glb_buffer_data s;
     buffer_hash := buffer_hash s;
     buffer_views := buffer_views s;
     accessor_hash := accessor_hash s;
     accessor_cache := accessor_cache s;
     mesh_hash := mesh_hash s;
     mesh_cache := mesh_cache s;
     environment_cache := environment_cache s;
     material_hash := material_hash s;
     material_cache := material_cache s;
     texture_hash := texture_hash s;
     texture_cache := texture_cache s;
     image_hash := image_hash s;
     image_cache := image_cache s;
     sampler_hash := v;
     sampler_cache := sampler_cache s;
     mesh_group_hash := mesh_group_hash s;
     mesh_group_cache := mesh_group_cache s |}.
Definition set_sampler_cache (v : list EmittedSampler.t) (s : t) : t :=
  {| options := options s;
     mesh := mesh s;
     material := material s;
     glb_buffer_data := glb_buffer_data s;
     buffer_hash := buffer_hash s;
     buffer_views := buffer_views s;
     accessor_hash := accessor_hash s;
     accessor_cache := accessor_cache s;
     mesh_hash := mesh_hash s;
     mesh_cache := mesh_cache s;
     environment_cache := environment_cache s;
     material_hash := material_hash s;
     material_cache := material_cache s;
     texture_hash := texture_hash s;
     texture_cache := texture_cache s;
     image_hash := image_hash s;
     image_cache := image_cache s;
     sampler_hash := sampler_hash s;
     sampler_cache := v;
     mesh_group_hash := mesh_group_hash s;
     mesh_group_cache := mesh_group_cache s |}.
Definition set_mesh_group_hash (v : gmap N nat) (s : t) : t :=
  {| options := options s;
     mesh := mesh s;
     material := material s;
     glb_buffer_data := glb_buffer_data s;
     buffer_hash := buffer_hash s;
     buffer_views := buffer_views s;
     accessor_hash := accessor_hash s;
     accessor_cache := accessor_cache s;
     mesh_hash := mesh_hash s;
     mesh_cache := mesh_cache s;
     environment_cache := environment_cache s;
     material_hash := material_hash s;
     material_cache := material_cache s;
     texture_hash := texture_hash s;
     texture_cache := texture_cache s;
     image_hash := image_hash s;
     image_cache := image_cache s;
     sampler_hash := sampler_hash s;
     sampler_cache := sampler_cache s;
     mesh_group_hash := v;
     mesh_group_cache := mesh_group_cache s |}.
Definition set_mesh_group_cache (v : list (list nat)) (s : t) : t :=
  {| options := options s;
     mesh := mesh s;
     material := material s;
     glb_buffer_data := glb_buffer_data s;
     buffer_hash := buffer_hash s;
     buffer_views := buffer_views s;
     accessor_hash := accessor_hash s;
     accessor_cache := accessor_cache s;
     mesh_hash := mesh_hash s;
     mesh_cache := mesh_cache s;
     environment_cache := environment_cache s;
     material_hash := material_hash s;
     material_cache := material_cache s;
     texture_hash := texture_hash s;
     texture_cache := texture_cache s;
     image_hash := image_hash s;
     image_cache := image_cache s;
     sampler_hash := sampler_hash s;
     sampler_cache := sampler_cache s;
     mesh_group_hash := mesh_group_hash s;
     mesh_group_cache := v |}.
End RemapState.

(** ** What one call of the exporter leaves behind *)

Module Exported.
Record t := {
  result : bool;                  (* the value returned *)
  document : Value;               (* [doc] as handed to the writer *)
  workers : ThreadGroup.t;        (* the pool with everything scheduled *)
  file : option (list byte);      (* the mapped output file, once written *)
  state : RemapState.t;           (* the caches at the end *)
}.
End Exported.

(** ** Memory helpers *)

(** [memcpy(dst + off, src, |src|)] within a buffer [dst] that is large
    enough; every caller sizes the buffer first. *)
Definition memcpy (dst : list byte) (off : nat) (src : list byte) : list byte :=
  take off dst ++ src ++ drop (off + length src) dst.

(** [memset(dst + off, c, n)] *)
Definition memset (dst : list byte) (off : nat) (c : byte) (n : nat) : list byte :=
  memcpy dst off (replicate n c).


Section exporter.
Context `{Collaborators}.

(** ** Fingerprints *)

Definition hash_Mesh (material : Remap.t MaterialInfo.t) (mesh : Mesh.t) : outcome N :=
  remapped ←
    (if Mesh.has_material mesh
     then i ← at_index (Remap.to_index material) (Mesh.material_index mesh);
          mret [h_u32 (Z.of_nat i)]
     else mret []);
  let lo := AABB.minimum (Mesh.static_aabb mesh) in
  let hi := AABB.maximum (Mesh.static_aabb mesh) in
  mret (digest (
    [ h_u32 (Mesh.topology mesh);
      h_u32 (ecast_VkIndexType (Mesh.index_type mesh));
      h_u32 (Mesh.attribute_stride mesh);
      h_u32 (Mesh.position_stride mesh);
      h_u32 (Z.b2z (Mesh.has_material mesh)) ]
    ++ remapped
    ++ [ h_layout (Mesh.attribute_layout mesh <$> MeshAttribute_order) ]
    ++ (h_f32 <$> vec3_list lo)
    ++ (h_f32 <$> vec3_list hi)
    ++ [ h_u32 0xff ]
    ++ (match Mesh.positions mesh with [] => [] | d => [h_data d] end)
    ++ [ h_u32 0xff ]
    ++ (match Mesh.indices mesh with [] => [] | d => [h_data d] end)
    ++ [ h_u32 0xff ]
    ++ (match Mesh.attributes mesh with [] => [] | d => [h_data d] end)
    ++ [ h_u32 (Mesh.count mesh) ])).

Definition hash_MaterialInfo (mat : MaterialInfo.t) : N :=
  digest (
    [ h_string (Texture.path (MaterialInfo.base_color mat));
      h_string (Texture.path (MaterialInfo.normal mat));
      h_string (Texture.path (MaterialInfo.occlusion mat));
      h_string (Texture.path (MaterialInfo.metallic_roughness mat));
      h_string (Texture.path (MaterialInfo.emissive mat));
      h_f32 (MaterialInfo.normal_scale mat);
      h_f32 (MaterialInfo.uniform_metallic mat);
      h_f32 (MaterialInfo.uniform_roughness mat) ]
    ++ (h_f32 <$> vec4_list (MaterialInfo.uniform_base_color mat))
    ++ [ h_f32 (MaterialInfo.lod_bias mat) ]
    ++ (h_f32 <$> vec3_list (MaterialInfo.uniform_emissive_color mat))
    ++ [ h_u32 (Z.b2z (MaterialInfo.two_sided mat));
         h_u32 (ecast_DrawPipeline (MaterialInfo.pipeline mat)) ]).

(** ** filter_input *)

Definition filter_one {T} (h : N) (i : T) (output : Remap.t T) : Remap.t T :=
  match Remap.hashmap output !! h with
  | Some found =>
      {| Remap.to_index := Remap.to_index output ++ [found];
         Remap.hashmap := Remap.hashmap output;
         Remap.info := Remap.info output |}
  | None =>
      let index := length (Remap.info output) in
      {| Remap.to_index := Remap.to_index output ++ [length (Remap.info output)];
         Remap.hashmap := <[h := index]> (Remap.hashmap output);
         Remap.info := Remap.info output ++ [i] |}
  end.

Fixpoint filter_input {T} (hash : T → outcome N) (output : Remap.t T) (input : list T) :
    outcome (Remap.t T) :=
  match input with
  | [] => mret output
  | i :: rest =>
      h ← hash i;
      filter_input hash (filter_one h i output) rest
  end.

(** ** emit_buffer *)

Definition emit_buffer (view : list byte) (stride : Z) (s : RemapState.t) : nat * RemapState.t :=
  let h := digest [h_data view; h_u32 stride] in
  match RemapState.buffer_hash s !! h with
  | None =>
      let index := length (RemapState.buffer_views s) in
      let offset := Z.of_nat (length (RemapState.glb_buffer_data s)) in
      let offset := Z.land (offset + 15) (Z.lnot 15) in
      let data := resize (Z.to_nat (offset + Z.of_nat (length view))) 0%Z
                         (RemapState.glb_buffer_data s) in
      let data := memcpy data (Z.to_nat offset) view in
      let view_record :=
        {| BufferView.offset := offset;
           BufferView.length := Z.of_nat (length view);
           BufferView.stride := stride |} in
      (index,
       RemapState.set_buffer_hash (<[h := index]> (RemapState.buffer_hash s))
         (RemapState.set_buffer_views (RemapState.buffer_views s ++ [view_record])
            (RemapState.set_glb_buffer_data data s)))
  | Some found => (found, s)
  end.

(** ** The accessor format tables *)

Definition GL_BYTE : Z := 0x1400.
Definition GL_UNSIGNED_BYTE : Z := 0x1401.
Definition GL_SHORT : Z := 0x1402.
Definition GL_UNSIGNED_SHORT : Z := 0x1403.
Definition GL_INT : Z := 0x1404.
Definition GL_UNSIGNED_INT : Z := 0x1405.
Definition GL_FLOAT : Z := 0x1406.

Definition GL_REPEAT : Z := 0x2901.
Definition GL_CLAMP_TO_EDGE : Z := 0x812F.
Definition GL_NEAREST : Z := 0x2600.
Definition GL_LINEAR : Z := 0x2601.
Definition GL_NEAREST_MIPMAP_NEAREST : Z := 0x2700.
Definition GL_LINEAR_MIPMAP_NEAREST : Z := 0x2701.
Definition GL_NEAREST_MIPMAP_LINEAR : Z := 0x2702.
Definition GL_LINEAR_MIPMAP_LINEAR : Z := 0x2703.

Definition get_accessor_type (format : VkFormat) : outcome string :=
  match format with
  | VK_FORMAT_R32_SFLOAT
  | VK_FORMAT_R8_UNORM
  | VK_FORMAT_R8_UINT
  | VK_FORMAT_R8_SNORM
  | VK_FORMAT_R8_SINT
  | VK_FORMAT_R16_UNORM
  | VK_FORMAT_R16_UINT
  | VK_FORMAT_R16_SNORM
  | VK_FORMAT_R16_SINT
  | VK_FORMAT_R32_UINT
  | VK_FORMAT_R32_SINT =>
      Ok "SCALAR"

  | VK_FORMAT_R32G32_SFLOAT
  | VK_FORMAT_R8G8_UNORM
  | VK_FORMAT_R8G8_UINT
  | VK_FORMAT_R8G8_SNORM
  | VK_FORMAT_R8G8_SINT
  | VK_FORMAT_R16G16_UINT
  | VK_FORMAT_R16G16_SINT
  | VK_FORMAT_R16G16_SNORM
  | VK_FORMAT_R16G16_UNORM
  | VK_FORMAT_R32G32_UINT
  | VK_FORMAT_R32G32_SINT =>
      Ok "VEC2"

  | VK_FORMAT_R32G32B32_SFLOAT
  | VK_FORMAT_R8G8B8_UNORM
  | VK_FORMAT_R8G8B8_UINT
  | VK_FORMAT_R8G8B8_SNORM
  | VK_FORMAT_R8G8B8_SINT
  | VK_FORMAT_R16G16B16_UNORM
  | VK_FORMAT_R16G16B16_UINT
  | VK_FORMAT_R16G16B16_SNORM
  | VK_FORMAT_R16G16B16_SINT =>
      Ok "VEC3"

  | VK_FORMAT_R32G32B32A32_SFLOAT
  | VK_FORMAT_R8G8B8A8_UNORM
  | VK_FORMAT_R8G8B8A8_UINT
  | VK_FORMAT_R8G8B8A8_SNORM
  | VK_FORMAT_R8G8B8A8_SINT
  | VK_FORMAT_R16G16B16A16_UNORM
  | VK_FORMAT_R16G16B16A16_UINT
  | VK_FORMAT_R16G16B16A16_SNORM
  | VK_FORMAT_R16G16B16A16_SINT
  | VK_FORMAT_R32G32B32_UINT
  | VK_FORMAT_R32G32B32A32_UINT
  | VK_FORMAT_R32G32B32_SINT
  | VK_FORMAT_R32G32B32A32_SINT =>
      Ok "VEC4"

  | _ => Throw "Unsupported format."
  end.

Definition get_accessor_normalized (format : VkFormat) : bool :=
  match format with
  | VK_FORMAT_R8_UNORM
  | VK_FORMAT_R8G8_UNORM
  | VK_FORMAT_R8G8B8_UNORM
  | VK_FORMAT_R8G8B8A8_UNORM
  | VK_FORMAT_R8_SNORM
  | VK_FORMAT_R8G8_SNORM
  | VK_FORMAT_R8G8B8_SNORM
  | VK_FORMAT_R8G8B8A8_SNORM
  | VK_FORMAT_R16_UNORM
  | VK_FORMAT_R16G16_UNORM
  | VK_FORMAT_R16G16B16_UNORM
  | VK_FORMAT_R16G16B16A16_UNORM
  | VK_FORMAT_R16_SNORM
  | VK_FORMAT_R16G16_SNORM
  | VK_FORMAT_R16G16B16_SNORM
  | VK_FORMAT_R16G16B16A16_SNORM =>
      true
  | _ => false
  end.

Definition get_accessor_component (format : VkFormat) : outcome Z :=
  match format with
  | VK_FORMAT_R32_SFLOAT
  | VK_FORMAT_R32G32_SFLOAT
  | VK_FORMAT_R32G32B32_SFLOAT
  | VK_FORMAT_R32G32B32A32_SFLOAT =>
      Ok GL_FLOAT

  | VK_FORMAT_R8_UNORM
  | VK_FORMAT_R8G8_UNORM
  | VK_FORMAT_R8G8B8_UNORM
  | VK_FORMAT_R8G8B8A8_UNORM
  | VK_FORMAT_R8_UINT
  | VK_FORMAT_R8G8_UINT
  | VK_FORMAT_R8G8B8_UINT
  | VK_FORMAT_R8G8B8A8_UINT =>
      Ok GL_UNSIGNED_BYTE

  | VK_FORMAT_R8_SNORM
  | VK_FORMAT_R8G8_SNORM
  | VK_FORMAT_R8G8B8_SNORM
  | VK_FORMAT_R8G8B8A8_SNORM
  | VK_FORMAT_R8_SINT
  | VK_FORMAT_R8G8_SINT
  | VK_FORMAT_R8G8B8_SINT
  | VK_FORMAT_R8G8B8A8_SINT =>
      (* [return GL_UNSIGNED_BYTE;] is the first statement of this case;
         the [return GL_BYTE;] on the next source line is never reached *)
      Ok GL_UNSIGNED_BYTE

  | VK_FORMAT_R16_UNORM
  | VK_FORMAT_R16G16_UNORM
  | VK_FORMAT_R16G16B16_UNORM
  | VK_FORMAT_R16G16B16A16_UNORM
  | VK_FORMAT_R16_UINT
  | VK_FORMAT_R16G16_UINT
  | VK_FORMAT_R16G16B16_UINT
  | VK_FORMAT_R16G16B16A16_UINT =>
      Ok GL_UNSIGNED_SHORT

  | VK_FORMAT_R16_SNORM
  | VK_FORMAT_R16G16_SNORM
  | VK_FORMAT_R16G16B16_SNORM
  | VK_FORMAT_R16G16B16A16_SNORM
  | VK_FORMAT_R16_SINT
  | VK_FORMAT_R16G16_SINT
  | VK_FORMAT_R16G16B16_SINT
  | VK_FORMAT_R16G16B16A16_SINT =>
      Ok GL_SHORT

  | VK_FORMAT_R32_UINT
  | VK_FORMAT_R32G32_UINT
  | VK_FORMAT_R32G32B32_UINT
  | VK_FORMAT_R32G32B32A32_UINT =>
      Ok GL_UNSIGNED_INT

  | VK_FORMAT_R32_SINT
  | VK_FORMAT_R32G32_SINT
  | VK_FORMAT_R32G32B32_SINT
  | VK_FORMAT_R32G32B32A32_SINT =>
      Ok GL_INT

  | _ => Throw "Unsupported format."
  end.

(** The three members are assigned in this order; the first throw wins. *)
Definition set_accessor_type (accessor : EmittedAccessor.t) (format : VkFormat) :
    outcome EmittedAccessor.t :=
  component ← get_accessor_component format;
  type ← get_accessor_type format;
  mret {| EmittedAccessor.view := EmittedAccessor.view accessor;
          EmittedAccessor.count := EmittedAccessor.count accessor;
          EmittedAccessor.type := type;
          EmittedAccessor.component := component;
          EmittedAccessor.offset := EmittedAccessor.offset accessor;
          EmittedAccessor.aabb := EmittedAccessor.aabb accessor;
          EmittedAccessor.normalized := get_accessor_normalized format;
          EmittedAccessor.use_aabb := EmittedAccessor.use_aabb accessor |}.

(** ** emit_accessor *)

Definition accessor_key (view_index : nat) (format : VkFormat) (offset stride count : Z) :
    list HashField :=
  [ h_u32 (Z.of_nat view_index); h_u32 (ecast_VkFormat format);
    h_u32 offset; h_u32 stride; h_u32 count ].

Definition emit_accessor (view_index : nat) (format : VkFormat) (offset stride count : Z)
    (s : RemapState.t) : outcome (nat * RemapState.t) :=
  let h := digest (accessor_key view_index format offset stride count) in
  match RemapState.accessor_hash s !! h with
  | None =>
      let index := length (RemapState.accessor_cache s) in
      let acc :=
        {| EmittedAccessor.view := view_index;
           EmittedAccessor.count := count;
           EmittedAccessor.type := "";
           EmittedAccessor.component := 0;
           EmittedAccessor.offset := offset;
           EmittedAccessor.aabb := AABB.zero;
           EmittedAccessor.normalized := false;
           EmittedAccessor.use_aabb := false |} in
      acc ← set_accessor_type acc format;
      mret (index,
            RemapState.set_accessor_hash (<[h := index]> (RemapState.accessor_hash s))
              (RemapState.set_accessor_cache (RemapState.accessor_cache s ++ [acc]) s))
  | Some found => mret (found, s)
  end.

(** ** emit_sampler *)

Definition sampler_table (sampler : StockSampler.t) : EmittedSampler.t :=
  match sampler with
  | StockSampler.TrilinearWrap =>
      {| EmittedSampler.mag_filter := GL_LINEAR;
         EmittedSampler.min_filter := GL_LINEAR_MIPMAP_LINEAR;
         EmittedSampler.wrap_s := GL_REPEAT;
         EmittedSampler.wrap_t := GL_REPEAT |}
  | StockSampler.TrilinearClamp =>
      {| EmittedSampler.mag_filter := GL_LINEAR;
         EmittedSampler.min_filter := GL_LINEAR_MIPMAP_LINEAR;
         EmittedSampler.wrap_s := GL_CLAMP_TO_EDGE;
         EmittedSampler.wrap_t := GL_CLAMP_TO_EDGE |}
  | StockSampler.LinearWrap =>
      {| EmittedSampler.mag_filter := GL_LINEAR;
         EmittedSampler.min_filter := GL_LINEAR_MIPMAP_NEAREST;
         EmittedSampler.wrap_s := GL_REPEAT;
         EmittedSampler.wrap_t := GL_REPEAT |}
  | StockSampler.LinearClamp =>
      {| EmittedSampler.mag_filter := GL_LINEAR;
         EmittedSampler.min_filter := GL_LINEAR_MIPMAP_NEAREST;
         EmittedSampler.wrap_s := GL_CLAMP_TO_EDGE;
         EmittedSampler.wrap_t := GL_CLAMP_TO_EDGE |}
  | StockSampler.NearestClamp =>
      {| EmittedSampler.mag_filter := GL_NEAREST;
         EmittedSampler.min_filter := GL_NEAREST_MIPMAP_NEAREST;
         EmittedSampler.wrap_s := GL_CLAMP_TO_EDGE;
         EmittedSampler.wrap_t := GL_CLAMP_TO_EDGE |}
  | StockSampler.NearestWrap =>
      {| EmittedSampler.mag_filter := GL_NEAREST;
         EmittedSampler.min_filter := GL_NEAREST_MIPMAP_NEAREST;
         EmittedSampler.wrap_s := GL_REPEAT;
         EmittedSampler.wrap_t := GL_REPEAT |}
  | StockSampler.other _ =>
      {| EmittedSampler.mag_filter := 0; EmittedSampler.min_filter := 0;
         EmittedSampler.wrap_s := 0; EmittedSampler.wrap_t := 0 |}
  end.

Definition emit_sampler (sampler : StockSampler.t) (s : RemapState.t) : nat * RemapState.t :=
  let h := digest [h_u32 (ecast_StockSampler sampler)] in
  match RemapState.sampler_hash s !! h with
  | None =>
      let index := length (RemapState.sampler_cache s) in
      (index,
       RemapState.set_sampler_cache (RemapState.sampler_cache s ++ [sampler_table sampler])
         (RemapState.set_sampler_hash (<[h := index]> (RemapState.sampler_hash s)) s))
  | Some found => (found, s)
  end.

(** ** emit_image *)

Definition image_key (texture : Texture.t) (type : Textures.t)
    (compression : TextureCompressionFamily.t) (quality : Z) (mode : TextureMode.t) :
    list HashField :=
  [ h_string (Texture.path texture);
    h_u32 (ecast_Textures type);
    h_u32 (ecast_TextureCompressionFamily compression);
    h_u32 quality;
    h_s32 (ecast_TextureMode mode) ].

(** [std::to_string] of an unsigned 64-bit value: its decimal digits. *)
Definition to_string (h : N) : string := pretty h.

Definition emit_image (texture : Texture.t) (type : Textures.t)
    (compression : TextureCompressionFamily.t) (quality : Z) (mode : TextureMode.t)
    (s : RemapState.t) : nat * RemapState.t :=
  let h := digest (image_key texture type compression quality mode) in
  match RemapState.image_hash s !! h with
  | None =>
      let index := length (RemapState.image_cache s) in
      let image :=
        {| EmittedImage.source_path := Texture.path texture;
           EmittedImage.target_relpath := to_string h +:+ ".ktx";
           EmittedImage.target_mime := "image/ktx";
           EmittedImage.compression := compression;
           EmittedImage.compression_quality := quality;
           EmittedImage.mode := mode;
           EmittedImage.type := type;
           EmittedImage.swizzle := Texture.swizzle texture;
           EmittedImage.loaded_image := None |} in
      (index,
       RemapState.set_image_cache (RemapState.image_cache s ++ [image])
         (RemapState.set_image_hash (<[h := index]> (RemapState.image_hash s)) s))
  | Some found => (found, s)
  end.

(** ** emit_texture *)

Definition emit_texture (texture : Texture.t) (sampler : StockSampler.t) (type : Textures.t)
    (compression : TextureCompressionFamily.t) (quality : Z) (mode : TextureMode.t)
    (s : RemapState.t) : nat * RemapState.t :=
  let '(image_index, s) := emit_image texture type compression quality mode s in
  let '(sampler_index, s) := emit_sampler sampler s in
  let h := digest [h_u32 (Z.of_nat image_index); h_u32 (Z.of_nat sampler_index)] in
  match RemapState.texture_hash s !! h with
  | None =>
      let index := length (RemapState.texture_cache s) in
      (index,
       RemapState.set_texture_cache
         (RemapState.texture_cache s
            ++ [{| EmittedTexture.image := image_index;
                   EmittedTexture.sampler := sampler_index |}])
         (RemapState.set_texture_hash (<[h := index]> (RemapState.texture_hash s)) s))
  | Some found => (found, s)
  end.

(** ** emit_environment *)

(** [if (!path.empty()) slot = emit_texture(...)], for a slot that keeps
    its previous value otherwise. *)
Definition emit_texture_if (previous : Z) (texture : Texture.t) (sampler : StockSampler.t)
    (type : Textures.t) (compression : TextureCompressionFamily.t) (quality : Z)
    (mode : TextureMode.t) (s : RemapState.t) : Z * RemapState.t :=
  if decide (Texture.path texture = "")
  then (previous, s)
  else let '(index, s) := emit_texture texture sampler type compression quality mode s in
       (Z.of_nat index, s).

Definition emit_environment (cube reflection irradiance : string) (intensity : f32)
    (fog_color : vec3) (fog_falloff : f32)
    (compression : TextureCompressionFamily.t) (quality : Z) (s : RemapState.t) :
    RemapState.t :=
  let swizzle := VkComponentMapping.rgba in
  let '(env_cube, s) :=
    emit_texture_if (-1) {| Texture.path := cube; Texture.swizzle := swizzle |}
      StockSampler.LinearClamp Textures.Emissive compression quality TextureMode.HDR s in
  let '(env_reflection, s) :=
    emit_texture_if (-1) {| Texture.path := reflection; Texture.swizzle := swizzle |}
      StockSampler.LinearClamp Textures.Emissive compression quality TextureMode.HDR s in
  let '(env_irradiance, s) :=
    emit_texture_if (-1) {| Texture.path := irradiance; Texture.swizzle := swizzle |}
      StockSampler.LinearClamp Textures.Emissive compression quality TextureMode.HDR s in
  let env :=
    {| EmittedEnvironment.cube := env_cube;
       EmittedEnvironment.reflection := env_reflection;
       EmittedEnvironment.irradiance := env_irradiance;
       EmittedEnvironment.intensity := intensity;
       EmittedEnvironment.fog_color := fog_color;
       EmittedEnvironment.fog_falloff := fog_falloff |} in
  RemapState.set_environment_cache (RemapState.environment_cache s ++ [env]) s.

(** ** emit_material *)

Definition emit_material (remapped_material : nat) (s : RemapState.t) : outcome RemapState.t :=
  material ← at_index (Remap.info (RemapState.material s)) remapped_material;
  let s :=
    RemapState.set_material_cache
      (resize (max (length (RemapState.material_cache s)) (remapped_material + 1))
              EmittedMaterial.default (RemapState.material_cache s)) s in
  output ← at_index (RemapState.material_cache s) remapped_material;
  let options := RemapState.options s in
  let compression := ExportOptions.compression options in
  let quality := ExportOptions.texcomp_quality options in
  let sampler := MaterialInfo.sampler material in
  let '(normal, s) :=
    emit_texture_if (EmittedMaterial.normal output) (MaterialInfo.normal material)
      sampler Textures.Normal compression quality TextureMode.RGB s in
  let '(occlusion, s) :=
    emit_texture_if (EmittedMaterial.occlusion output) (MaterialInfo.occlusion material)
      sampler Textures.Occlusion compression quality TextureMode.RGB s in
  let '(base_color, s) :=
    emit_texture_if (EmittedMaterial.base_color output) (MaterialInfo.base_color material)
      sampler Textures.BaseColor compression quality
      (if decide (MaterialInfo.pipeline material = DrawPipeline.Opaque)
       then TextureMode.sRGB else TextureMode.sRGBA) s in
  let '(metallic_roughness, s) :=
    emit_texture_if (EmittedMaterial.metallic_roughness output)
      (MaterialInfo.metallic_roughness material)
      sampler Textures.MetallicRoughness compression quality TextureMode.RGB s in
  let '(emissive, s) :=
    emit_texture_if (EmittedMaterial.emissive output) (MaterialInfo.emissive material)
      sampler Textures.Emissive compression quality TextureMode.sRGB s in
  let output :=
    {| EmittedMaterial.base_color := base_color;
       EmittedMaterial.normal := normal;
       EmittedMaterial.metallic_roughness := metallic_roughness;
       EmittedMaterial.occlusion := occlusion;
       EmittedMaterial.emissive := emissive;
       EmittedMaterial.uniform_base_color := MaterialInfo.uniform_base_color material;
       EmittedMaterial.uniform_emissive_color := MaterialInfo.uniform_emissive_color material;
       EmittedMaterial.uniform_metallic := MaterialInfo.uniform_metallic material;
       EmittedMaterial.uniform_roughness := MaterialInfo.uniform_roughness material;
       EmittedMaterial.lod_bias := MaterialInfo.lod_bias material;
       EmittedMaterial.normal_scale := MaterialInfo.normal_scale material;
       EmittedMaterial.pipeline := MaterialInfo.pipeline material;
       EmittedMaterial.two_sided := MaterialInfo.two_sided material |} in
  mret (RemapState.set_material_cache
          (<[remapped_material := output]> (RemapState.material_cache s)) s).

(** ** emit_mesh *)

(** Unsigned division; dividing by zero is undefined behaviour. *)
Definition divide (a b : Z) : outcome Z :=
  if decide (b = 0%Z) then Undefined else Ok (a / b)%Z.

(** [accessor.aabb = aabb; accessor.use_aabb = true;] *)
Definition set_aabb (aabb : AABB.t) (accessor : EmittedAccessor.t) : EmittedAccessor.t :=
  {| EmittedAccessor.view := EmittedAccessor.view accessor;
     EmittedAccessor.count := EmittedAccessor.count accessor;
     EmittedAccessor.type := EmittedAccessor.type accessor;
     EmittedAccessor.component := EmittedAccessor.component accessor;
     EmittedAccessor.offset := EmittedAccessor.offset accessor;
     EmittedAccessor.aabb := aabb;
     EmittedAccessor.normalized := EmittedAccessor.normalized accessor;
     EmittedAccessor.use_aabb := true |}.

(** [emit.attribute_mask |= 1u << i; emit.attribute_accessor[i] = accessor;] *)
Definition set_attribute (i : nat) (attr : MeshAttribute) (accessor : nat)
    (emit : EmittedMesh.t) : EmittedMesh.t :=
  {| EmittedMesh.index_accessor := EmittedMesh.index_accessor emit;
     EmittedMesh.material := EmittedMesh.material emit;
     EmittedMesh.attribute_mask :=
       Z.lor (EmittedMesh.attribute_mask emit) (Z.shiftl 1 (Z.of_nat i));
     EmittedMesh.attribute_accessor :=
       λ a, if decide (a = attr) then Z.of_nat accessor
            else EmittedMesh.attribute_accessor emit a |}.

(** The loop over [i < ecast(MeshAttribute::Count)], from slot [i] on. *)
Fixpoint emit_attributes (mesh : Mesh.t) (position_buffer attribute_buffer : nat)
    (i : nat) (attrs : list MeshAttribute) (emit : EmittedMesh.t) (s : RemapState.t) :
    outcome (EmittedMesh.t * RemapState.t) :=
  match attrs with
  | [] => mret (emit, s)
  | attr :: rest =>
      let layout := Mesh.attribute_layout mesh attr in
      if decide (MeshAttributeLayout.format layout = VK_FORMAT_UNDEFINED)
      then emit_attributes mesh position_buffer attribute_buffer (S i) rest emit s
      else if decide (attr = Position)
      then
        count ← divide (Z.of_nat (length (Mesh.positions mesh))) (Mesh.position_stride mesh);
        '(accessor, s) ←
          emit_accessor position_buffer (MeshAttributeLayout.format layout)
            (MeshAttributeLayout.offset layout) (Mesh.position_stride mesh) (u32 count) s;
        _ ← at_index (RemapState.accessor_cache s) accessor;
        let s :=
          RemapState.set_accessor_cache
            (alter (set_aabb (Mesh.static_aabb mesh)) accessor (RemapState.accessor_cache s))
            s in
        emit_attributes mesh position_buffer attribute_buffer (S i) rest
          (set_attribute i attr accessor emit) s
      else
        count ← divide (Z.of_nat (length (Mesh.attributes mesh))) (Mesh.attribute_stride mesh);
        '(accessor, s) ←
          emit_accessor attribute_buffer (MeshAttributeLayout.format layout)
            (MeshAttributeLayout.offset layout) (Mesh.attribute_stride mesh) (u32 count) s;
        emit_attributes mesh position_buffer attribute_buffer (S i) rest
          (set_attribute i attr accessor emit) s
  end.

Definition emit_mesh (remapped_index : nat) (s : RemapState.t) : outcome RemapState.t :=
  mesh ← at_index (Remap.info (RemapState.mesh s)) remapped_index;
  let s :=
    RemapState.set_mesh_cache
      (resize (max (length (RemapState.mesh_cache s)) (remapped_index + 1))
              EmittedMesh.default (RemapState.mesh_cache s)) s in
  emit ← at_index (RemapState.mesh_cache s) remapped_index;
  let material :=
    if Mesh.has_material mesh then Z.of_nat (Mesh.material_index mesh) else (-1)%Z in
  let uint16 := bool_decide (Mesh.index_type mesh = VK_INDEX_TYPE_UINT16) in
  '(index_accessor, s) ←
    match Mesh.indices mesh with
    | [] => mret ((-1)%Z, s)
    | indices =>
        let '(index, s) := emit_buffer indices (if uint16 then 2 else 4)%Z s in
        '(accessor, s) ←
          emit_accessor index (if uint16 then VK_FORMAT_R16_UINT else VK_FORMAT_R32_UINT)
            0%Z (if uint16 then 2 else 4)%Z (Mesh.count mesh) s;
        mret (Z.of_nat accessor, s)
    end;
  s ←
    (if Mesh.has_material mesh
     then
       remapped_material ←
         at_index (Remap.to_index (RemapState.material s)) (Mesh.material_index mesh);
       if decide (remapped_material ∈ RemapState.material_hash s)
       then mret s
       else
         s ← emit_material remapped_material s;
         mret (RemapState.set_material_hash
                 ({[remapped_material]} ∪ RemapState.material_hash s) s)
     else mret s);
  let '(position_buffer, s) :=
    match Mesh.positions mesh with
    | [] => (0, s)
    | positions => emit_buffer positions (Mesh.position_stride mesh) s
    end in
  let '(attribute_buffer, s) :=
    match Mesh.attributes mesh with
    | [] => (0, s)
    | attributes => emit_buffer attributes (Mesh.attribute_stride mesh) s
    end in
  let emit :=
    {| EmittedMesh.index_accessor := index_accessor;
       EmittedMesh.material := material;
       EmittedMesh.attribute_mask := 0%Z;
       EmittedMesh.attribute_accessor := EmittedMesh.attribute_accessor emit |} in
  '(emit, s) ← emit_attributes mesh position_buffer attribute_buffer 0 MeshAttribute_order emit s;
  mret (RemapState.set_mesh_cache (<[remapped_index := emit]> (RemapState.mesh_cache s)) s).

(** ** emit_meshes *)

Fixpoint emit_meshes_loop (meshes : list nat) (emit_hash : list HashField)
    (mesh_group : list nat) (s : RemapState.t) :
    outcome (list HashField * list nat * RemapState.t) :=
  match meshes with
  | [] => mret (emit_hash, mesh_group, s)
  | mesh :: rest =>
      remapped_index ← at_index (Remap.to_index (RemapState.mesh s)) mesh;
      let emit_hash := emit_hash ++ [h_u32 (Z.of_nat remapped_index)] in
      let mesh_group := mesh_group ++ [remapped_index] in
      s ←
        (if decide (remapped_index ∈ RemapState.mesh_hash s)
         then mret s
         else
           s ← emit_mesh remapped_index s;
           mret (RemapState.set_mesh_hash ({[remapped_index]} ∪ RemapState.mesh_hash s) s));
      emit_meshes_loop rest emit_hash mesh_group s
  end.

Definition emit_meshes (meshes : list nat) (s : RemapState.t) : outcome (nat * RemapState.t) :=
  '(emit_hash, mesh_group, s) ← emit_meshes_loop meshes [] [] s;
  let h := digest emit_hash in
  match RemapState.mesh_group_hash s !! h with
  | None =>
      let index := length (RemapState.mesh_group_cache s) in
      mret (index,
            RemapState.set_mesh_group_hash (<[h := index]> (RemapState.mesh_group_hash s))
              (RemapState.set_mesh_group_cache (RemapState.mesh_group_cache s ++ [mesh_group]) s))
  | Some found => mret (found, s)
  end.

(** ** get_compression_format *)

Definition get_compression_format (compression : TextureCompression.t) (mode : TextureMode.t) :
    gli.format :=
  let srgb := bool_decide (mode = TextureMode.sRGB) || bool_decide (mode = TextureMode.sRGBA) in
  match compression with
  | TextureCompression.Uncompressed =>
      if srgb then gli.FORMAT_RGBA8_SRGB_PACK8 else gli.FORMAT_RGBA8_UNORM_PACK8
  | TextureCompression.BC1 =>
      if bool_decide (mode = TextureMode.sRGBA) || bool_decide (mode = TextureMode.RGBA)
      then (if srgb then gli.FORMAT_RGBA_DXT1_SRGB_BLOCK8 else gli.FORMAT_RGBA_DXT1_UNORM_BLOCK8)
      else (if srgb then gli.FORMAT_RGB_DXT1_SRGB_BLOCK8 else gli.FORMAT_RGB_DXT1_UNORM_BLOCK8)
  | TextureCompression.BC3 =>
      if srgb then gli.FORMAT_RGBA_DXT5_SRGB_BLOCK16 else gli.FORMAT_RGBA_DXT5_UNORM_BLOCK16
  | TextureCompression.BC4 => gli.FORMAT_R_ATI1N_UNORM_BLOCK8
  | TextureCompression.BC5 => gli.FORMAT_RG_ATI2N_UNORM_BLOCK16
  | TextureCompression.BC7 =>
      if srgb then gli.FORMAT_RGBA_BP_SRGB_BLOCK16 else gli.FORMAT_RGBA_BP_UNORM_BLOCK16
  | TextureCompression.BC6H => gli.FORMAT_RGB_BP_UFLOAT_BLOCK16
  | TextureCompression.ASTC4x4 =>
      if srgb then gli.FORMAT_RGBA_ASTC_4X4_SRGB_BLOCK16 else gli.FORMAT_RGBA_ASTC_4X4_UNORM_BLOCK16
  | TextureCompression.ASTC5x5 =>
      if srgb then gli.FORMAT_RGBA_ASTC_5X5_SRGB_BLOCK16 else gli.FORMAT_RGBA_ASTC_5X5_UNORM_BLOCK16
  | TextureCompression.ASTC6x6 =>
      if srgb then gli.FORMAT_RGBA_ASTC_6X6_SRGB_BLOCK16 else gli.FORMAT_RGBA_ASTC_6X6_UNORM_BLOCK16
  | TextureCompression.ASTC8x8 =>
      if srgb then gli.FORMAT_RGBA_ASTC_8X8_SRGB_BLOCK16 else gli.FORMAT_RGBA_ASTC_8X8_UNORM_BLOCK16
  | TextureCompression.other _ => gli.FORMAT_UNDEFINED
  end.

(** ** AnalysisResult::swizzle_image *)

Definition conv_swizzle (swiz : VkComponentSwizzle) : outcome gli.swizzle :=
  match swiz with
  | VK_COMPONENT_SWIZZLE_R => Ok gli.SWIZZLE_RED
  | VK_COMPONENT_SWIZZLE_G => Ok gli.SWIZZLE_GREEN
  | VK_COMPONENT_SWIZZLE_B => Ok gli.SWIZZLE_BLUE
  | VK_COMPONENT_SWIZZLE_A => Ok gli.SWIZZLE_ALPHA
  | _ => Throw "Unrecognized swizzle parameter."
  end.

Definition channel (c : gli.swizzle) (texel : gli.u8vec4) : byte :=
  match c with
  | gli.SWIZZLE_RED => gli.r texel
  | gli.SWIZZLE_GREEN => gli.g texel
  | gli.SWIZZLE_BLUE => gli.b texel
  | gli.SWIZZLE_ALPHA => gli.a texel
  end.

(** [image->swizzle<u8vec4>(swizzles)]: each texel is rebuilt from the
    channels the four selectors name. *)
Definition texture_swizzle (r g b a : gli.swizzle) (image : gli.texture) : gli.texture :=
  {| gli.empty := gli.empty image;
     gli.format_ := gli.format_ image;
     gli.layers := gli.layers image;
     gli.faces := gli.faces image;
     gli.levels := gli.levels image;
     gli.extent_x := gli.extent_x image;
     gli.extent_y := gli.extent_y image;
     gli.data_0_0_0 :=
       (λ texel, {| gli.r := channel r texel; gli.g := channel g texel;
                    gli.b := channel b texel; gli.a := channel a texel |})
         <$> gli.data_0_0_0 image |}.

Definition swizzle_image (swizzle : VkComponentMapping.t) (image : gli.texture) :
    outcome gli.texture :=
  if bool_decide (VkComponentMapping.r swizzle ≠ VK_COMPONENT_SWIZZLE_R)
     || bool_decide (VkComponentMapping.g swizzle ≠ VK_COMPONENT_SWIZZLE_G)
     || bool_decide (VkComponentMapping.b swizzle ≠ VK_COMPONENT_SWIZZLE_B)
     || bool_decide (VkComponentMapping.a swizzle ≠ VK_COMPONENT_SWIZZLE_A)
  then
    if bool_decide (gli.format_ image ≠ gli.FORMAT_RGBA8_SRGB_PACK8)
       && bool_decide (gli.format_ image ≠ gli.FORMAT_RGBA8_UNORM_PACK8)
    then Throw "Can only swizzle RGBA textures."
    else
      r ← conv_swizzle (VkComponentMapping.r swizzle);
      g ← conv_swizzle (VkComponentMapping.g swizzle);
      b ← conv_swizzle (VkComponentMapping.b swizzle);
      a ← conv_swizzle (VkComponentMapping.a swizzle);
      mret (texture_swizzle r g b a image)
  else mret image.

(** ** AnalysisResult::deduce_metallic_roughness_mode *)


(** One iteration of the loop body at position [i]. *)
Definition mr_scan_step (i : nat) (texel : gli.u8vec4) (st : MRScan.t) : MRScan.t :=
  {| MRScan.metallic_zero_only :=
       if bool_decide (gli.g texel ≠ 0%Z) then false else MRScan.metallic_zero_only st;
     MRScan.metallic_one_only :=
       if bool_decide (gli.g texel ≠ 0xff%Z) then false else MRScan.metallic_one_only st;
     MRScan.roughness_zero_only :=
       if bool_decide (gli.b texel ≠ 0%Z) then false else MRScan.roughness_zero_only st;
     MRScan.roughness_one_only :=
       if bool_decide (gli.b texel ≠ 0xff%Z) then false else MRScan.roughness_one_only st;
     MRScan.visited := MRScan.visited st ++ [i] |}.

(** [for (; i < count; i++)] with [remaining = count - i] iterations left. *)
Fixpoint mr_scan_loop (src : list gli.u8vec4) (i remaining : nat) (st : MRScan.t) :
    outcome MRScan.t :=
  match remaining with
  | O => mret st
  | S remaining =>
      texel ← at_index src i;
      mr_scan_loop src (S i) remaining (mr_scan_step i texel st)
  end.

Definition INT_MIN : Z := (- 2 ^ 31)%Z.
Definition INT_MAX : Z := (2 ^ 31 - 1)%Z.

(** [int * int]; signed overflow is undefined behaviour. *)
Definition int_mul (a b : Z) : outcome Z :=
  if bool_decide (INT_MIN ≤ a * b ≤ INT_MAX)%Z then Ok (a * b)%Z else Undefined.

Definition mr_mode_of_scan (st : MRScan.t) : AnalysisResult.MetallicRoughnessMode :=
  if negb (MRScan.metallic_zero_only st) && negb (MRScan.metallic_one_only st)
     && (MRScan.roughness_one_only st || MRScan.roughness_zero_only st)
  then
    if MRScan.roughness_one_only st
    then AnalysisResult.MetallicRough
    else AnalysisResult.MetallicSmooth
  else if negb (MRScan.roughness_zero_only st) && negb (MRScan.roughness_one_only st)
          && (MRScan.metallic_one_only st || MRScan.metallic_zero_only st)
  then
    if MRScan.metallic_one_only st
    then AnalysisResult.RoughnessMetal
    else AnalysisResult.RoughnessDielectric
  else AnalysisResult.Default.

(** The function together with the scan it performed (none on the early
    return). *)
Definition deduce_metallic_roughness_mode_scan (image : gli.texture) :
    outcome (AnalysisResult.MetallicRoughnessMode * MRScan.t) :=
  if bool_decide (gli.layers image > 1)%Z || bool_decide (gli.faces image > 1)%Z
  then mret (AnalysisResult.Default, MRScan.start)
  else
    let src := gli.data_0_0_0 image in
    let width := gli.extent_x image in
    let height := gli.extent_y image in
    count ← int_mul width height;
    st ← mr_scan_loop src 0 (Z.to_nat count) MRScan.start;
    mret (mr_mode_of_scan st, st).

Definition deduce_metallic_roughness_mode (image : gli.texture) :
    outcome AnalysisResult.MetallicRoughnessMode :=
  '(mode, _) ← deduce_metallic_roughness_mode_scan image;
  mret mode.

(** ** AnalysisResult::load_image and deduce_compression *)

Definition set_image (image : gli.texture) (this : AnalysisResult.t) : AnalysisResult.t :=
  {| AnalysisResult.src_path := AnalysisResult.src_path this;
     AnalysisResult.image := Some image;
     AnalysisResult.compression := AnalysisResult.compression this;
     AnalysisResult.mode := AnalysisResult.mode this;
     AnalysisResult.type := AnalysisResult.type this;
     AnalysisResult.swizzle := AnalysisResult.swizzle this |}.

Definition set_compression (compression : TextureCompression.t) (this : AnalysisResult.t) :
    AnalysisResult.t :=
  {| AnalysisResult.src_path := AnalysisResult.src_path this;
     AnalysisResult.image := AnalysisResult.image this;
     AnalysisResult.compression := compression;
     AnalysisResult.mode := AnalysisResult.mode this;
     AnalysisResult.type := AnalysisResult.type this;
     AnalysisResult.swizzle := AnalysisResult.swizzle this |}.

Definition set_swizzle (r g b a : VkComponentSwizzle) (this : AnalysisResult.t) :
    AnalysisResult.t :=
  {| AnalysisResult.src_path := AnalysisResult.src_path this;
     AnalysisResult.image := AnalysisResult.image this;
     AnalysisResult.compression := AnalysisResult.compression this;
     AnalysisResult.mode := AnalysisResult.mode this;
     AnalysisResult.type := AnalysisResult.type this;
     AnalysisResult.swizzle :=
       {| VkComponentMapping.r := r; VkComponentMapping.g := g;
          VkComponentMapping.b := b; VkComponentMapping.a := a |} |}.

(** [*image]: a null [shared_ptr] must not be dereferenced. *)
Definition deref {A} (p : option A) : outcome A :=
  match p with Some a => Ok a | None => Undefined end.

(** The member function [swizzle_image], acting on [this->image]. *)
Definition swizzle_this (r g b a : VkComponentSwizzle) (this : AnalysisResult.t) :
    outcome AnalysisResult.t :=
  image ← deref (AnalysisResult.image this);
  image ←
    swizzle_image {| VkComponentMapping.r := r; VkComponentMapping.g := g;
                     VkComponentMapping.b := b; VkComponentMapping.a := a |} image;
  mret (set_image image this).

Definition load_image (src : string) (swizzle : VkComponentMapping.t)
    (this : AnalysisResult.t) : outcome (bool * AnalysisResult.t) :=
  let mode := AnalysisResult.mode this in
  let image :=
    load_texture_from_file src
      (if bool_decide (mode = TextureMode.sRGBA) || bool_decide (mode = TextureMode.sRGB)
       then ColorSpace_sRGB else ColorSpace_Linear) in
  let this :=
    {| AnalysisResult.src_path := src;
       AnalysisResult.image := Some image;
       AnalysisResult.compression := AnalysisResult.compression this;
       AnalysisResult.mode := AnalysisResult.mode this;
       AnalysisResult.type := AnalysisResult.type this;
       AnalysisResult.swizzle := AnalysisResult.swizzle this |} in
  if gli.empty image
  then mret (false, this)
  else
    image ← swizzle_image swizzle image;
    mret (true,
          set_swizzle VK_COMPONENT_SWIZZLE_R VK_COMPONENT_SWIZZLE_G
                      VK_COMPONENT_SWIZZLE_B VK_COMPONENT_SWIZZLE_A
                      (set_image image this)).

Definition deduce_compression (family : TextureCompressionFamily.t) (this : AnalysisResult.t) :
    outcome AnalysisResult.t :=
  match family with
  | TextureCompressionFamily.ASTC =>
      match AnalysisResult.type this with
      | Textures.BaseColor
      | Textures.Emissive =>
          mret (set_compression TextureCompression.ASTC6x6 this)

      | Textures.Occlusion =>
          let this := set_compression TextureCompression.ASTC6x6 this in
          swizzle_this VK_COMPONENT_SWIZZLE_R VK_COMPONENT_SWIZZLE_R
                       VK_COMPONENT_SWIZZLE_R VK_COMPONENT_SWIZZLE_R this

      | Textures.Normal =>
          let this := set_compression TextureCompression.ASTC6x6 this in
          this ← swizzle_this VK_COMPONENT_SWIZZLE_R VK_COMPONENT_SWIZZLE_R
                              VK_COMPONENT_SWIZZLE_R VK_COMPONENT_SWIZZLE_G this;
          mret (set_swizzle VK_COMPONENT_SWIZZLE_R VK_COMPONENT_SWIZZLE_A
                            VK_COMPONENT_SWIZZLE_ONE VK_COMPONENT_SWIZZLE_ONE this)

      | Textures.MetallicRoughness =>
          let this := set_compression TextureCompression.ASTC6x6 this in
          image ← deref (AnalysisResult.image this);
          mr_mode ← deduce_metallic_roughness_mode image;
          match mr_mode with
          | AnalysisResult.Default =>
              this ← swizzle_this VK_COMPONENT_SWIZZLE_G VK_COMPONENT_SWIZZLE_G
                                  VK_COMPONENT_SWIZZLE_G VK_COMPONENT_SWIZZLE_B this;
              mret (set_swizzle VK_COMPONENT_SWIZZLE_ZERO VK_COMPONENT_SWIZZLE_R
                                VK_COMPONENT_SWIZZLE_A VK_COMPONENT_SWIZZLE_ZERO this)
          | AnalysisResult.MetallicRough
          | AnalysisResult.MetallicSmooth =>
              this ← swizzle_this VK_COMPONENT_SWIZZLE_B VK_COMPONENT_SWIZZLE_B
                                  VK_COMPONENT_SWIZZLE_B VK_COMPONENT_SWIZZLE_B this;
              mret (set_swizzle VK_COMPONENT_SWIZZLE_ZERO
                                (match mr_mode with
                                 | AnalysisResult.MetallicRough => VK_COMPONENT_SWIZZLE_ONE
                                 | _ => VK_COMPONENT_SWIZZLE_ZERO
                                 end)
                                VK_COMPONENT_SWIZZLE_R VK_COMPONENT_SWIZZLE_ZERO this)
          | AnalysisResult.RoughnessDielectric
          | AnalysisResult.RoughnessMetal =>
              this ← swizzle_this VK_COMPONENT_SWIZZLE_G VK_COMPONENT_SWIZZLE_G
                                  VK_COMPONENT_SWIZZLE_G VK_COMPONENT_SWIZZLE_G this;
              mret (set_swizzle VK_COMPONENT_SWIZZLE_ZERO VK_COMPONENT_SWIZZLE_R
                                (match mr_mode with
                                 | AnalysisResult.RoughnessMetal => VK_COMPONENT_SWIZZLE_ONE
                                 | _ => VK_COMPONENT_SWIZZLE_ZERO
                                 end)
                                VK_COMPONENT_SWIZZLE_ZERO this)
          end

      | Textures.other _ => Throw "Invalid material type."
      end

  | TextureCompressionFamily.BC =>
      this ←
        match AnalysisResult.type this with
        | Textures.BaseColor
        | Textures.Emissive =>
            mret (set_compression TextureCompression.BC7 this)

        | Textures.Occlusion =>
            mret (set_compression TextureCompression.BC4 this)

        | Textures.MetallicRoughness =>
            image ← deref (AnalysisResult.image this);
            mr_mode ← deduce_metallic_roughness_mode image;
            match mr_mode with
            | AnalysisResult.Default =>
                let this := set_compression TextureCompression.BC5 this in
                this ← swizzle_this VK_COMPONENT_SWIZZLE_G VK_COMPONENT_SWIZZLE_B
                                    VK_COMPONENT_SWIZZLE_B VK_COMPONENT_SWIZZLE_A this;
                mret (set_swizzle VK_COMPONENT_SWIZZLE_ZERO VK_COMPONENT_SWIZZLE_R
                                  VK_COMPONENT_SWIZZLE_G VK_COMPONENT_SWIZZLE_ZERO this)
            | AnalysisResult.RoughnessDielectric
            | AnalysisResult.RoughnessMetal =>
                let this := set_compression TextureCompression.BC4 this in
                this ← swizzle_this VK_COMPONENT_SWIZZLE_G VK_COMPONENT_SWIZZLE_G
                                    VK_COMPONENT_SWIZZLE_G VK_COMPONENT_SWIZZLE_G this;
                mret (set_swizzle VK_COMPONENT_SWIZZLE_ZERO VK_COMPONENT_SWIZZLE_R
                                  (match mr_mode with
                                   | AnalysisResult.RoughnessMetal => VK_COMPONENT_SWIZZLE_ONE
                                   | _ => VK_COMPONENT_SWIZZLE_ZERO
                                   end)
                                  VK_COMPONENT_SWIZZLE_ZERO this)
            | AnalysisResult.MetallicRough
            | AnalysisResult.MetallicSmooth =>
                let this := set_compression TextureCompression.BC4 this in
                this ← swizzle_this VK_COMPONENT_SWIZZLE_B VK_COMPONENT_SWIZZLE_B
                                    VK_COMPONENT_SWIZZLE_B VK_COMPONENT_SWIZZLE_B this;
                mret (set_swizzle VK_COMPONENT_SWIZZLE_ZERO
                                  (match mr_mode with
                                   | AnalysisResult.MetallicRough => VK_COMPONENT_SWIZZLE_ONE
                                   | _ => VK_COMPONENT_SWIZZLE_ZERO
                                   end)
                                  VK_COMPONENT_SWIZZLE_R VK_COMPONENT_SWIZZLE_ZERO this)
            end

        | Textures.Normal =>
            mret (set_compression TextureCompression.BC5 this)

        | Textures.other _ => Throw "Invalid material type."
        end;
      if bool_decide (AnalysisResult.mode this = TextureMode.HDR)
      then mret (set_compression TextureCompression.BC6H this)
      else mret this

  | TextureCompressionFamily.Uncompressed =>
      mret (set_compression TextureCompression.Uncompressed this)
  end.

(** ** analyze_image *)

(** The body of the task that [analyze_image] enqueues. *)
Definition analyze_image_task (src : string) (swizzle : VkComponentMapping.t)
    (family : TextureCompressionFamily.t) (result : AnalysisResult.t) :
    outcome AnalysisResult.t :=
  '(loaded, result) ← load_image src swizzle result;
  match loaded with
  | true => deduce_compression family result
  | false => mret result   (* LOGE("Failed to load image.") *)
  end.

(** [make_shared<AnalysisResult>()] value-initialises the record, [mode] and
    [type] are assigned, and the task runs on the pool: an exception of the
    task body leaves a worker thread, not the caller. *)
Definition analyze_image (src : string) (swizzle : VkComponentMapping.t)
    (type : Textures.t) (family : TextureCompressionFamily.t) (mode : TextureMode.t) :
    outcome AnalysisResult.t :=
  let result :=
    {| AnalysisResult.src_path := "";
       AnalysisResult.image := None;
       AnalysisResult.compression := TextureCompression_zero;
       AnalysisResult.mode := mode;
       AnalysisResult.type := type;
       AnalysisResult.swizzle := VkComponentMapping.zero |} in
  match analyze_image_task src swizzle family result with
  | Throw what => TaskThrow what
  | finished => finished
  end.

(** ** compress_image *)

Definition compress_image (fs : Filesystem.t) (workers : ThreadGroup.t) (target_path : string)
    (result : AnalysisResult.t) (quality : Z) : ThreadGroup.t :=
  let up_to_date :=
    match Filesystem.stat fs (AnalysisResult.src_path result) with
    | Some src_stat =>
        match Filesystem.stat fs target_path with
        | Some dst_stat =>
            bool_decide (FileStat.last_modified src_stat < FileStat.last_modified dst_stat)%Z
        | None => false
        end
    | None => false
    end in
  if up_to_date
  then workers   (* LOGI("... is already compressed, skipping.") *)
  else
    let args :=
      {| CompressorArguments.output := target_path;
         CompressorArguments.format :=
           get_compression_format (AnalysisResult.compression result)
                                  (AnalysisResult.mode result);
         CompressorArguments.quality := quality |} in
    let '(mipgen_task, workers) :=
      ThreadGroup.create_task
        (ThreadGroup.generate_mipmaps (AnalysisResult.src_path result)) workers in
    if bool_decide (AnalysisResult.compression result ≠ TextureCompression.Uncompressed)
    then (ThreadGroup.create_task (ThreadGroup.compress_texture args mipgen_task) workers).2
    else (ThreadGroup.create_task (ThreadGroup.save_texture_to_file target_path mipgen_task)
                                  workers).2.

(** ** export_scene_to_glb: the node loop *)

Definition JUint (n : nat) : Value := JNumber (Z.of_nat n).

(** The scans of [scene.cameras] and [scene.lights]: the position of the
    first entry attached to node [index]. *)
Definition attached_camera (cameras : list CameraInfo.t) (index : nat) : option nat :=
  fst <$> list_find (λ camera,
    CameraInfo.attached_to_node camera = true
    ∧ CameraInfo.node_index camera = u32 (Z.of_nat index)) cameras.

Definition attached_light (lights : list LightInfo.t) (index : nat) : option nat :=
  fst <$> list_find (λ light,
    LightInfo.attached_to_node light = true
    ∧ LightInfo.node_index light = u32 (Z.of_nat index)) lights.

Definition node_transform (transform : Transform.t) (n : list (string * Value)) :
    list (string * Value) :=
  let '(x, y, z, w) := Transform.rotation transform in
  let n :=
    if ne_1_0f w || ne_0_0f x || ne_0_0f y || ne_0_0f z
    then AddMember "rotation" (JArray (JFloat <$> [x; y; z; w])) n
    else n in
  let n :=
    if existsb ne_1_0f (vec3_list (Transform.scale transform))
    then AddMember "scale" (JArray (JFloat <$> vec3_list (Transform.scale transform))) n
    else n in
  if existsb ne_0_0f (vec3_list (Transform.translation transform))
  then AddMember "translation"
         (JArray (JFloat <$> vec3_list (Transform.translation transform))) n
  else n.

Definition emit_node (scene : SceneInformation.t) (index : nat) (node : Node.t)
    (s : RemapState.t) : outcome (Value * RemapState.t) :=
  let n := [] in
  let n :=
    match Node.children node with
    | [] => n
    | children => AddMember "children" (JArray (JNumber <$> children)) n
    end in
  '(n, s) ←
    match Node.meshes node with
    | [] => mret (n, s)
    | meshes =>
        '(group, s) ← emit_meshes meshes s;
        mret (AddMember "mesh" (JUint group) n, s)
    end;
  let n :=
    match attached_camera (SceneInformation.cameras scene) index with
    | Some camera => AddMember "camera" (JUint camera) n
    | None => n
    end in
  let n :=
    match attached_light (SceneInformation.lights scene) index with
    | Some light =>
        AddMember "extensions"
          (JObject [("KHR_lights_cmn", JObject [("light", JUint light)])]) n
    | None => n
    end in
  mret (JObject (node_transform (Node.transform node) n), s).

Fixpoint emit_nodes (scene : SceneInformation.t) (index : nat) (nodes : list Node.t)
    (s : RemapState.t) : outcome (list Value * RemapState.t) :=
  match nodes with
  | [] => mret ([], s)
  | node :: rest =>
      '(n, s) ← emit_node scene index node s;
      '(ns, s) ← emit_nodes scene (S index) rest s;
      mret (n :: ns, s)
  end.

(** [RemapState state; ... filter_input ...; emit_environment] *)
Definition prepare_state (scene : SceneInformation.t) (options : ExportOptions.t) :
    outcome RemapState.t :=
  let state := RemapState.init options in
  material ←
    filter_input (λ mat, Ok (hash_MaterialInfo mat)) (RemapState.material state)
                 (SceneInformation.materials scene);
  let state := RemapState.set_material material state in
  mesh ←
    filter_input (hash_Mesh (RemapState.material state)) (RemapState.mesh state)
                 (SceneInformation.meshes scene);
  let state := RemapState.set_mesh mesh state in
  let environment := ExportOptions.environment options in
  if decide (Environment.cube environment = "")
  then mret state
  else
    mret (emit_environment (Environment.cube environment)
            (Environment.reflection environment) (Environment.irradiance environment)
            (Environment.intensity environment)
            (Environment.fog_color environment) (Environment.fog_falloff environment)
            (Environment.compression environment) (Environment.texcomp_quality environment)
            state).

(** The part of [export_scene_to_glb] that fills the caches: everything up
    to and including the loop over [scene.nodes]. *)
Definition walk_scene (scene : SceneInformation.t) (options : ExportOptions.t) :
    outcome (list Value * RemapState.t) :=
  state ← prepare_state scene options;
  emit_nodes scene 0 (SceneInformation.nodes scene) state.

(** ** export_scene_to_glb: the document sections *)

Definition buffer_view_json (view : BufferView.t) : Value :=
  JObject [ ("buffer", JNumber 0);
            ("byteLength", JNumber (BufferView.length view));
            ("byteOffset", JNumber (BufferView.offset view));
            ("byteStride", JNumber (BufferView.stride view)) ].

Definition accessor_components (type : string) : nat :=
  if decide (type = "SCALAR") then 1
  else if decide (type = "VEC2") then 2
  else if decide (type = "VEC3") then 3
  else if decide (type = "VEC4") then 4
  else 0.

Definition accessor_json (accessor : EmittedAccessor.t) : Value :=
  let acc :=
    [ ("bufferView", JUint (EmittedAccessor.view accessor));
      ("componentType", JNumber (EmittedAccessor.component accessor));
      ("type", JString (EmittedAccessor.type accessor));
      ("count", JNumber (EmittedAccessor.count accessor));
      ("byteOffset", JNumber (EmittedAccessor.offset accessor)) ] in
  if EmittedAccessor.use_aabb accessor
  then
    let lo := vec4_of_vec3 (AABB.minimum (EmittedAccessor.aabb accessor)) f32_1_0 in
    let hi := vec4_of_vec3 (AABB.maximum (EmittedAccessor.aabb accessor)) f32_1_0 in
    let components := accessor_components (EmittedAccessor.type accessor) in
    match components with
    | O => JObject acc
    | _ =>
        JObject
          (AddMember "max" (JArray (JFloat <$> take components (vec4_list hi)))
             (AddMember "min" (JArray (JFloat <$> take components (vec4_list lo))) acc))
    end
  else JObject acc.

Definition sampler_json (sampler : EmittedSampler.t) : Value :=
  let s := [] in
  let s := if decide (EmittedSampler.mag_filter sampler = 0%Z) then s
           else AddMember "magFilter" (JNumber (EmittedSampler.mag_filter sampler)) s in
  let s := if decide (EmittedSampler.min_filter sampler = 0%Z) then s
           else AddMember "minFilter" (JNumber (EmittedSampler.min_filter sampler)) s in
  let s := if decide (EmittedSampler.wrap_s sampler = 0%Z) then s
           else AddMember "wrapS" (JNumber (EmittedSampler.wrap_s sampler)) s in
  let s := if decide (EmittedSampler.wrap_t sampler = 0%Z) then s
           else AddMember "wrapT" (JNumber (EmittedSampler.wrap_t sampler)) s in
  JObject s.

(** The analysis of every image; [group->wait()] joins the tasks. *)
Fixpoint analyze_images (images : list EmittedImage.t) : outcome (list EmittedImage.t) :=
  match images with
  | [] => mret []
  | image :: rest =>
      loaded ←
        analyze_image (EmittedImage.source_path image) (EmittedImage.swizzle image)
                      (EmittedImage.type image) (EmittedImage.compression image)
                      (EmittedImage.mode image);
      rest ← analyze_images rest;
      mret ({| EmittedImage.source_path := EmittedImage.source_path image;
               EmittedImage.target_relpath := EmittedImage.target_relpath image;
               EmittedImage.target_mime := EmittedImage.target_mime image;
               EmittedImage.compression := EmittedImage.compression image;
               EmittedImage.compression_quality := EmittedImage.compression_quality image;
               EmittedImage.mode := EmittedImage.mode image;
               EmittedImage.type := EmittedImage.type image;
               EmittedImage.swizzle := EmittedImage.swizzle image;
               EmittedImage.loaded_image := Some loaded |} :: rest)
  end.

Definition swiz_to_index (s : VkComponentSwizzle) (identity : Z) : Z :=
  match s with
  | VK_COMPONENT_SWIZZLE_R => 0
  | VK_COMPONENT_SWIZZLE_G => 1
  | VK_COMPONENT_SWIZZLE_B => 2
  | VK_COMPONENT_SWIZZLE_A => 3
  | VK_COMPONENT_SWIZZLE_ONE => 4
  | VK_COMPONENT_SWIZZLE_ZERO => 5
  | _ => identity
  end.

Definition image_json (image : EmittedImage.t) (swiz : VkComponentMapping.t) : Value :=
  let i := [ ("uri", JString (EmittedImage.target_relpath image));
             ("mimeType", JString (EmittedImage.target_mime image)) ] in
  if bool_decide (VkComponentMapping.r swiz ≠ VK_COMPONENT_SWIZZLE_R)
     || bool_decide (VkComponentMapping.g swiz ≠ VK_COMPONENT_SWIZZLE_G)
     || bool_decide (VkComponentMapping.b swiz ≠ VK_COMPONENT_SWIZZLE_B)
     || bool_decide (VkComponentMapping.a swiz ≠ VK_COMPONENT_SWIZZLE_A)
  then
    JObject (AddMember "extras"
      (JObject [("swizzle",
         JArray [ JNumber (swiz_to_index (VkComponentMapping.r swiz) 0);
                  JNumber (swiz_to_index (VkComponentMapping.g swiz) 1);
                  JNumber (swiz_to_index (VkComponentMapping.b swiz) 2);
                  JNumber (swiz_to_index (VkComponentMapping.a swiz) 3) ])]) i)
  else JObject i.

(** The second loop over [state.image_cache]: the image entries, and the
    encode work of each image. *)
Fixpoint emit_images (fs : Filesystem.t) (path : string) (images : list EmittedImage.t)
    (workers : ThreadGroup.t) : outcome (list Value * ThreadGroup.t) :=
  match images with
  | [] => mret ([], workers)
  | image :: rest =>
      loaded ← deref (EmittedImage.loaded_image image);
      let i := image_json image (AnalysisResult.swizzle loaded) in
      let workers :=
        compress_image fs workers (relpath path (EmittedImage.target_relpath image))
                       loaded (EmittedImage.compression_quality image) in
      '(others, workers) ← emit_images fs path rest workers;
      mret (i :: others, workers)
  end.

Definition texture_json (texture : EmittedTexture.t) : Value :=
  JObject [ ("sampler", JUint (EmittedTexture.sampler texture));
            ("source", JUint (EmittedTexture.image texture)) ].

Definition material_json (material : EmittedMaterial.t) : Value :=
  let m := [] in
  let m :=
    if decide (EmittedMaterial.pipeline material = DrawPipeline.AlphaBlend)
    then AddMember "alphaMode" (JString "BLEND") m
    else if decide (EmittedMaterial.pipeline material = DrawPipeline.AlphaTest)
    then AddMember "alphaMode" (JString "MASK") m
    else m in
  let m :=
    if EmittedMaterial.two_sided material
    then AddMember "doubleSided" (JBool true) m else m in
  let m :=
    if existsb ne_0_0f (vec3_list (EmittedMaterial.uniform_emissive_color material))
    then AddMember "emissiveFactor"
           (JArray (JFloat <$> vec3_list (EmittedMaterial.uniform_emissive_color material))) m
    else m in
  let pbr := [] in
  let pbr :=
    if ne_1_0f (EmittedMaterial.uniform_roughness material)
    then AddMember "roughnessFactor" (JFloat (EmittedMaterial.uniform_roughness material)) pbr
    else pbr in
  let pbr :=
    if ne_1_0f (EmittedMaterial.uniform_metallic material)
    then AddMember "metallicFactor" (JFloat (EmittedMaterial.uniform_metallic material)) pbr
    else pbr in
  let pbr :=
    if existsb ne_1_0f (vec4_list (EmittedMaterial.uniform_base_color material))
    then AddMember "baseColorFactor"
           (JArray (JFloat <$> vec4_list (EmittedMaterial.uniform_base_color material))) pbr
    else pbr in
  let pbr :=
    if bool_decide (EmittedMaterial.base_color material >= 0)%Z
    then AddMember "baseColorTexture"
           (JObject [("index", JNumber (EmittedMaterial.base_color material))]) pbr
    else pbr in
  let pbr :=
    if bool_decide (EmittedMaterial.metallic_roughness material >= 0)%Z
    then AddMember "metallicRoughnessTexture"
           (JObject [("index", JNumber (EmittedMaterial.metallic_roughness material))]) pbr
    else pbr in
  let m := AddMember "pbrMetallicRoughness" (JObject pbr) m in
  let m :=
    if bool_decide (EmittedMaterial.normal material >= 0)%Z
    then AddMember "normalTexture"
           (JObject [ ("extras", JObject [("twoComponent", JBool true)]);
                      ("index", JNumber (EmittedMaterial.normal material));
                      ("scale", JFloat (EmittedMaterial.normal_scale material)) ]) m
    else m in
  let m :=
    if bool_decide (EmittedMaterial.emissive material >= 0)%Z
    then AddMember "emissiveTexture"
           (JObject [("index", JNumber (EmittedMaterial.emissive material))]) m
    else m in
  let m :=
    if bool_decide (EmittedMaterial.occlusion material >= 0)%Z
    then AddMember "occlusionTexture"
           (JObject [("index", JNumber (EmittedMaterial.occlusion material))]) m
    else m in
  JObject m.

Definition semantic (attr : MeshAttribute) : string :=
  match attr with
  | Position => "POSITION"
  | Normal => "NORMAL"
  | BoneWeights => "WEIGHTS_0"
  | BoneIndex => "JOINTS_0"
  | VertexColor => "COLOR_0"
  | Tangent => "TANGENT"
  | UV => "TEXCOORD_0"
  end.

(** [for_each_bit(mask, ...)] over the 32 bits of the mask, lowest first;
    a bit at or beyond [MeshAttribute::Count] adds nothing. *)
Definition attributes_json (m : EmittedMesh.t) : Value :=
  JObject (foldl (λ attribs bit,
    if Z.testbit (EmittedMesh.attribute_mask m) (Z.of_nat bit)
    then match MeshAttribute_order !! bit with
         | Some attr =>
             AddMember (semantic attr) (JNumber (EmittedMesh.attribute_accessor m attr)) attribs
         | None => attribs
         end
    else attribs) [] (seq 0 32)).

Definition primitive_json (state : RemapState.t) (submesh : nat) : outcome Value :=
  m ← at_index (RemapState.mesh_cache state) submesh;
  let attribs := attributes_json m in
  let prim := [] in
  let prim :=
    if bool_decide (EmittedMesh.index_accessor m >= 0)%Z
    then AddMember "indices" (JNumber (EmittedMesh.index_accessor m)) prim
    else prim in
  prim ←
    (if bool_decide (EmittedMesh.material m >= 0)%Z
     then
       remapped ← at_index (Remap.to_index (RemapState.material state))
                           (Z.to_nat (EmittedMesh.material m));
       mret (AddMember "material" (JUint remapped) prim)
     else mret prim);
  mret (JObject (AddMember "attributes" attribs prim)).

Definition mesh_json (state : RemapState.t) (mesh : list nat) : outcome Value :=
  primitives ← mapM (primitive_json state) mesh;
  mret (JObject [("primitives", JArray primitives)]).

Definition camera_json (camera : CameraInfo.t) : Value :=
  match CameraInfo.type camera with
  | CameraInfo.Perspective =>
      JObject [ ("type", JString "perspective");
                ("perspective",
                 JObject [ ("aspectRatio", JFloat (CameraInfo.aspect_ratio camera));
                           ("yfov", JFloat (CameraInfo.yfov camera));
                           ("znear", JFloat (CameraInfo.znear camera));
                           ("zfar", JFloat (CameraInfo.zfar camera)) ]) ]
  | CameraInfo.Orthographic =>
      JObject [ ("type", JString "orthographic");
                ("orthographic",
                 JObject [ ("xmag", JFloat (CameraInfo.xmag camera));
                           ("ymag", JFloat (CameraInfo.ymag camera));
                           ("znear", JFloat (CameraInfo.znear camera));
                           ("zfar", JFloat (CameraInfo.zfar camera)) ]) ]
  | CameraInfo.other _ => JObject []
  end.

Definition attenuation (light : LightInfo.t) : list (string * Value) :=
  let positional := [] in
  let positional :=
    if ne_0_0f (LightInfo.constant_falloff light)
    then AddMember "constantAttenuation" (JFloat (LightInfo.constant_falloff light)) positional
    else positional in
  let positional :=
    if ne_0_0f (LightInfo.linear_falloff light)
    then AddMember "linearAttenuation" (JFloat (LightInfo.linear_falloff light)) positional
    else positional in
  if ne_0_0f (LightInfo.quadratic_falloff light)
  then AddMember "quadraticAttenuation" (JFloat (LightInfo.quadratic_falloff light)) positional
  else positional.

Definition light_json (light : LightInfo.t) : Value :=
  let l := [("color", JArray (JFloat <$> vec3_list (LightInfo.color light)))] in
  match LightInfo.type light with
  | LightInfo.Spot =>
      let spot := [ ("innerAngle", JFloat (cone_to_angle (LightInfo.inner_cone light)));
                    ("outerAngle", JFloat (cone_to_angle (LightInfo.outer_cone light))) ] in
      JObject (l ++ [ ("type", JString "spot"); ("profile", JString "CMN");
                      ("positional",
                       JObject (AddMember "spot" (JObject spot) (attenuation light))) ])
  | LightInfo.Point =>
      JObject (l ++ [ ("type", JString "point"); ("profile", JString "CMN");
                      ("positional", JObject (attenuation light)) ])
  | LightInfo.Directional =>
      JObject (l ++ [ ("type", JString "directional"); ("profile", JString "CMN") ])
  | LightInfo.Ambient =>
      JObject (l ++ [ ("type", JString "ambient") ])
  | LightInfo.other _ => JObject l
  end.

Definition environment_json (env : EmittedEnvironment.t) : Value :=
  let environment := [] in
  let environment :=
    if bool_decide (EmittedEnvironment.cube env >= 0)%Z
    then AddMember "cubeTexture" (JNumber (EmittedEnvironment.cube env)) environment
    else environment in
  let environment :=
    if bool_decide (EmittedEnvironment.reflection env >= 0)%Z
    then AddMember "reflectionTexture" (JNumber (EmittedEnvironment.reflection env)) environment
    else environment in
  let environment :=
    if bool_decide (EmittedEnvironment.irradiance env >= 0)%Z
    then AddMember "irradianceTexture" (JNumber (EmittedEnvironment.irradiance env)) environment
    else environment in
  let environment :=
    AddMember "intensity" (JFloat (EmittedEnvironment.intensity env)) environment in
  let fog :=
    [ ("color", JArray (JFloat <$> vec3_list (EmittedEnvironment.fog_color env)));
      ("falloff", JFloat (EmittedEnvironment.fog_falloff env)) ] in
  JObject (AddMember "fog" (JObject fog) environment).

(** ** export_scene_to_glb: the GLB container *)

Definition aligned_size (size : Z) : Z := Z.land (size + 3) (Z.lnot 3).

(** The object representation of a [uint32_t], least significant byte
    first (the hosts this code runs on are little-endian). *)
Definition u32_bytes (v : Z) : list byte :=
  [ Z.land v 0xff; Z.land (Z.shiftr v 8) 0xff;
    Z.land (Z.shiftr v 16) 0xff; Z.land (Z.shiftr v 24) 0xff ].

(** [write_u32(data, v)]: the argument converts to [uint32_t]. *)
Definition write_u32 (file : list byte) (data : nat) (v : Z) : list byte :=
  memcpy file data (u32_bytes (u32 v)).

Definition string_bytes (s : string) : list byte :=
  (λ c, Z.of_N (Ascii.N_of_ascii c)) <$> String.list_ascii_of_string s.

Definition glb_size_of (json_length bin_length : Z) : Z :=
  (12 + 8 + aligned_size json_length + 8 + aligned_size bin_length)%Z.

(** The writes through [mapped], in source order; [mapped] is the position
    of the moving pointer inside the mapping [file]. *)
Definition write_glb (file : list byte) (glb_size : Z) (buffer glb_buffer_data : list byte) :
    list byte :=
  let buffer_length := Z.of_nat (length buffer) in
  let data_size := Z.of_nat (length glb_buffer_data) in
  let mapped := 0%nat in
  let file := memcpy file mapped (string_bytes "glTF") in
  let mapped := (mapped + 4)%nat in
  let file := write_u32 file mapped 2 in
  let mapped := (mapped + 4)%nat in
  let file := write_u32 file mapped glb_size in
  let mapped := (mapped + 4)%nat in

  let file := write_u32 file mapped (aligned_size buffer_length) in
  let mapped := (mapped + 4)%nat in
  let file := memcpy file mapped (string_bytes "JSON") in
  let mapped := (mapped + 4)%nat in

  let file := memcpy file mapped buffer in
  let pad_length := (aligned_size buffer_length - buffer_length)%Z in
  let file := memset file (mapped + length buffer) 0x20%Z (Z.to_nat pad_length) in
  let mapped := (mapped + Z.to_nat (aligned_size buffer_length))%nat in

  let file := write_u32 file mapped (aligned_size data_size) in
  let mapped := (mapped + 4)%nat in
  let file := memcpy file mapped (string_bytes "BIN" ++ [0%Z]) in
  let mapped := (mapped + 4)%nat in
  let file := memcpy file mapped glb_buffer_data in
  let pad_length := (aligned_size data_size - data_size)%Z in
  memset file (mapped + length glb_buffer_data) 0%Z (Z.to_nat pad_length).

(** ** export_scene_to_glb *)

(** The members added to [doc], in the order of the [AddMember] calls; the
    arrays computed along the way are [nodes], [images] and [meshes]. *)
Definition document (scene : SceneInformation.t) (state : RemapState.t)
    (nodes images meshes : list Value) : list (string * Value) :=
  let doc := [] in

  let asset := [ ("generator", JString "Granite glTF 2.0 exporter");
                 ("version", JString "2.0") ] in
  let doc := AddMember "asset" (JObject asset) doc in

  let doc :=
    match SceneInformation.lights scene with
    | [] => doc
    | _ =>
        AddMember "extensionsUsed" (JArray [JString "KHR_lights_cmn"])
          (AddMember "extensionsRequired" (JArray [JString "KHR_lights_cmn"]) doc)
    end in

  let doc := AddMember "nodes" (JArray nodes) doc in

  (* The baked GLB buffer. *)
  let doc :=
    AddMember "buffers"
      (JArray [JObject [("byteLength",
                         JNumber (Z.of_nat (length (RemapState.glb_buffer_data state))))]])
      doc in

  (* Buffer Views *)
  let doc :=
    AddMember "bufferViews" (JArray (buffer_view_json <$> RemapState.buffer_views state)) doc in

  (* Accessors *)
  let doc :=
    AddMember "accessors" (JArray (accessor_json <$> RemapState.accessor_cache state)) doc in

  (* Samplers *)
  let doc :=
    AddMember "samplers" (JArray (sampler_json <$> RemapState.sampler_cache state)) doc in

  (* Images *)
  let doc := AddMember "images" (JArray images) doc in

  (* Sources *)
  let doc :=
    AddMember "textures" (JArray (texture_json <$> RemapState.texture_cache state)) doc in

  (* Materials *)
  let doc :=
    AddMember "materials" (JArray (material_json <$> RemapState.material_cache state)) doc in

  (* Meshes *)
  let doc := AddMember "meshes" (JArray meshes) doc in

  (* Cameras *)
  let doc :=
    AddMember "cameras" (JArray (camera_json <$> SceneInformation.cameras scene)) doc in

  (* Lights *)
  let doc :=
    match SceneInformation.lights scene with
    | [] => doc
    | lights =>
        AddMember "extensions"
          (JObject [("KHR_lights_cmn", JObject [("lights", JArray (light_json <$> lights))])])
          doc
    end in

  match RemapState.environment_cache state with
  | [] => doc
  | environments =>
      AddMember "extras"
        (JObject [("environments", JArray (environment_json <$> environments))]) doc
  end.

Definition export_scene_to_glb (fs : Filesystem.t) (scene : SceneInformation.t)
    (path : string) (options : ExportOptions.t) : outcome Exported.t :=
  let workers :=
    {| ThreadGroup.threads :=
         if decide (ExportOptions.threads options = 0%Z)
         then hardware_concurrency else ExportOptions.threads options;
       ThreadGroup.tasks := [] |} in

  (* RemapState, filter_input, emit_environment, the loop over the nodes *)
  '(nodes, state) ← walk_scene scene options;

  (* Images: analysis joined by group->wait(), then entries and encode work *)
  image_cache ← analyze_images (RemapState.image_cache state);
  let state := RemapState.set_image_cache image_cache state in
  '(images, workers) ← emit_images fs path (RemapState.image_cache state) workers;

  (* Meshes *)
  meshes ← mapM (mesh_json state) (RemapState.mesh_group_cache state);

  let doc := document scene state nodes images meshes in

  let buffer := pretty_writer (JObject doc) in
  let glb_size :=
    glb_size_of (Z.of_nat (length buffer))
                (Z.of_nat (length (RemapState.glb_buffer_data state))) in

  let failed :=
    {| Exported.result := false; Exported.document := JObject doc;
       Exported.workers := workers; Exported.file := None; Exported.state := state |} in
  if Filesystem.open_write_only fs path
  then
    match Filesystem.map_write fs path glb_size with
    | None => mret failed      (* LOGE("Failed to map file") *)
    | Some mapped =>
        mret {| Exported.result := true; Exported.document := JObject doc;
                Exported.workers := workers;
                Exported.file :=
                  Some (write_glb mapped glb_size buffer (RemapState.glb_buffer_data state));
                Exported.state := state |}
    end
  else mret failed.            (* LOGE("Failed to open file") *)

End exporter.

(** ** A concrete set of collaborators, used to run the model on examples *)

Module Demo.

Definition format_code (format : VkFormat) : Z :=
  match format with
  | VK_FORMAT_UNDEFINED => 0
  | VK_FORMAT_R8_UNORM => 9 | VK_FORMAT_R8_SNORM => 10
  | VK_FORMAT_R8_UINT => 13 | VK_FORMAT_R8_SINT => 14
  | VK_FORMAT_R8G8_UNORM => 16 | VK_FORMAT_R8G8_SNORM => 17
  | VK_FORMAT_R8G8_UINT => 20 | VK_FORMAT_R8G8_SINT => 21
  | VK_FORMAT_R8G8B8_UNORM => 23 | VK_FORMAT_R8G8B8_SNORM => 24
  | VK_FORMAT_R8G8B8_UINT => 27 | VK_FORMAT_R8G8B8_SINT => 28
  | VK_FORMAT_R8G8B8A8_UNORM => 37 | VK_FORMAT_R8G8B8A8_SNORM => 38
  | VK_FORMAT_R8G8B8A8_UINT => 41 | VK_FORMAT_R8G8B8A8_SINT => 42
  | VK_FORMAT_R16_UNORM => 70 | VK_FORMAT_R16_SNORM => 71
  | VK_FORMAT_R16_UINT => 74 | VK_FORMAT_R16_SINT => 75
  | VK_FORMAT_R16G16_UNORM => 77 | VK_FORMAT_R16G16_SNORM => 78
  | VK_FORMAT_R16G16_UINT => 81 | VK_FORMAT_R16G16_SINT => 82
  | VK_FORMAT_R16G16B16_UNORM => 84 | VK_FORMAT_R16G16B16_SNORM => 85
  | VK_FORMAT_R16G16B16_UINT => 88 | VK_FORMAT_R16G16B16_SINT => 89
  | VK_FORMAT_R16G16B16A16_UNORM => 91 | VK_FORMAT_R16G16B16A16_SNORM => 92
  | VK_FORMAT_R16G16B16A16_UINT => 95 | VK_FORMAT_R16G16B16A16_SINT => 96
  | VK_FORMAT_R32_UINT => 98 | VK_FORMAT_R32_SINT => 99 | VK_FORMAT_R32_SFLOAT => 100
  | VK_FORMAT_R32G32_UINT => 101 | VK_FORMAT_R32G32_SINT => 102
  | VK_FORMAT_R32G32_SFLOAT => 103
  | VK_FORMAT_R32G32B32_UINT => 104 | VK_FORMAT_R32G32B32_SINT => 105
  | VK_FORMAT_R32G32B32_SFLOAT => 106
  | VK_FORMAT_R32G32B32A32_UINT => 107 | VK_FORMAT_R32G32B32A32_SINT => 108
  | VK_FORMAT_R32G32B32A32_SFLOAT => 109
  | VK_FORMAT_other code => code
  end%Z.

Definition index_type_code (t : VkIndexType) : Z :=
  match t with VK_INDEX_TYPE_UINT16 => 0 | VK_INDEX_TYPE_UINT32 => 1 end%Z.

Definition textures_code (t : Textures.t) : Z :=
  match t with
  | Textures.BaseColor => 0 | Textures.Normal => 1 | Textures.MetallicRoughness => 2
  | Textures.Occlusion => 3 | Textures.Emissive => 4 | Textures.other v => v
  end%Z.

Definition family_code (t : TextureCompressionFamily.t) : Z :=
  match t with
  | TextureCompressionFamily.Uncompressed => 0
  | TextureCompressionFamily.BC => 1
  | TextureCompressionFamily.ASTC => 2
  end%Z.

Definition mode_code (t : TextureMode.t) : Z :=
  match t with
  | TextureMode.RGB => 0 | TextureMode.RGBA => 1 | TextureMode.sRGB => 2
  | TextureMode.sRGBA => 3 | TextureMode.HDR => 4
  end%Z.

Definition sampler_code (t : StockSampler.t) : Z :=
  match t with
  | StockSampler.NearestClamp => 0 | StockSampler.LinearClamp => 1
  | StockSampler.TrilinearClamp => 2 | StockSampler.NearestWrap => 3
  | StockSampler.LinearWrap => 4 | StockSampler.TrilinearWrap => 5
  | StockSampler.other v => v
  end%Z.

Definition pipeline_code (t : DrawPipeline.t) : Z :=
  match t with
  | DrawPipeline.Opaque => 0 | DrawPipeline.AlphaTest => 1 | DrawPipeline.AlphaBlend => 2
  end%Z.

(** A digest without collisions between different field sequences (up to
    the enumerator codes above): the position of the sequence in an
    enumeration of all sequences. *)
Definition field_code (field : HashField) :
    Z + (Z + (Z + (string + (list Z + list (Z * Z))))) :=
  match field with
  | h_u32 v => inl v
  | h_s32 v => inr (inl v)
  | h_f32 v => inr (inr (inl v))
  | h_string s => inr (inr (inr (inl s)))
  | h_data d => inr (inr (inr (inr (inl d))))
  | h_layout l =>
      inr (inr (inr (inr (inr
        ((λ a, (format_code (MeshAttributeLayout.format a), MeshAttributeLayout.offset a))
           <$> l)))))
  end.

Definition fingerprint (fields : list HashField) : N :=
  Npos (encode (field_code <$> fields)).

(** A 2x2 RGBA8 image whose green channel varies and whose blue channel is
    255 everywhere; the empty path loads nothing. *)
Definition texel (g : Z) : gli.u8vec4 :=
  {| gli.r := 7; gli.g := g; gli.b := 255; gli.a := 255 |}%Z.

Definition load (path : string) (space : ColorSpace) : gli.texture :=
  {| gli.empty := bool_decide (path = "");
     gli.format_ := match space with
                    | ColorSpace_sRGB => gli.FORMAT_RGBA8_SRGB_PACK8
                    | ColorSpace_Linear => gli.FORMAT_RGBA8_UNORM_PACK8
                    end;
     gli.layers := 1; gli.faces := 1; gli.levels := 1;
     gli.extent_x := 2; gli.extent_y := 2;
     gli.data_0_0_0 := [texel 0; texel 10; texel 20; texel 255] |}%Z.

#[export] Instance collaborators : Collaborators := {|
  digest := fingerprint;
  ecast_VkFormat := format_code;
  ecast_VkIndexType := index_type_code;
  ecast_Textures := textures_code;
  ecast_TextureCompressionFamily := family_code;
  ecast_TextureMode := mode_code;
  ecast_StockSampler := sampler_code;
  ecast_DrawPipeline := pipeline_code;
  MeshAttribute_order := [Position; UV; Normal; Tangent; BoneIndex; BoneWeights; VertexColor];
  MeshAttribute_order_perm := reflexivity _;
  TextureCompression_zero := TextureCompression.Uncompressed;
  load_texture_from_file := load;
  relpath := λ base rel, rel;
  pretty_writer := λ doc, [123; 125]%Z;
  cone_to_angle := λ x, x;
  hardware_concurrency := 4%Z;
|}.

End Demo.

(** * Properties: the predicates and runs the theorems speak about *)

(** A buffer view that starts on a 16-byte boundary and lies inside [blob]. *)
Definition view_in_blob (blob : list byte) (view : BufferView.t) : Prop :=
  (16 | BufferView.offset view)%Z
  ∧ (0 ≤ BufferView.offset view)%Z
  ∧ (0 ≤ BufferView.length view)%Z
  ∧ (BufferView.offset view + BufferView.length view ≤ Z.of_nat (length blob))%Z.

(** A sequence of [emit_buffer] calls, each given by its bytes and stride. *)
Definition emit_buffers `{Collaborators} (calls : list (list byte * Z)) (s : RemapState.t) :
    RemapState.t :=
  foldl (λ s call, (emit_buffer call.1 call.2 s).2) s calls.

(** The 8-bit signed formats of the accessor table. *)
Definition signed_8bit_formats : list VkFormat :=
  [ VK_FORMAT_R8_SNORM; VK_FORMAT_R8G8_SNORM; VK_FORMAT_R8G8B8_SNORM; VK_FORMAT_R8G8B8A8_SNORM;
    VK_FORMAT_R8_SINT; VK_FORMAT_R8G8_SINT; VK_FORMAT_R8G8B8_SINT; VK_FORMAT_R8G8B8A8_SINT ].

(** One request to [emit_image]. *)
Module ImageRequest.
Record t := {
  texture : Texture.t;
  type : Textures.t;
  compression : TextureCompressionFamily.t;
  quality : Z;
  mode : TextureMode.t;
}.
End ImageRequest.

Definition emit_image_request `{Collaborators} (request : ImageRequest.t) (s : RemapState.t) :
    nat * RemapState.t :=
  emit_image (ImageRequest.texture request) (ImageRequest.type request)
             (ImageRequest.compression request) (ImageRequest.quality request)
             (ImageRequest.mode request) s.

Definition emit_image_requests `{Collaborators} (requests : list ImageRequest.t)
    (s : RemapState.t) : RemapState.t :=
  foldl (λ s request, (emit_image_request request s).2) s requests.

(** "<hash>.ktx" *)
Definition ktx_name (h : N) : string := to_string h +:+ ".ktx".

(** The pending image jobs whose target is [name]. *)
Definition jobs_named (name : string) (cache : list EmittedImage.t) : list EmittedImage.t :=
  filter (λ job, EmittedImage.target_relpath job = name) cache.

(** The image cache and its hash map describe each other. *)
Definition image_cache_consistent (s : RemapState.t) : Prop :=
  (∀ h i, RemapState.image_hash s !! h = Some i →
     ∃ job, RemapState.image_cache s !! i = Some job
            ∧ EmittedImage.target_relpath job = ktx_name h)
  ∧ (∀ j job, RemapState.image_cache s !! j = Some job →
       EmittedImage.target_mime job = "image/ktx"
       ∧ ∃ h, RemapState.image_hash s !! h = Some j
              ∧ EmittedImage.target_relpath job = ktx_name h).

(** The four booleans of the metallic-roughness heuristic, read off the
    texels: every G (or B) equal to 0 (or 255). *)
Definition g_all (v : Z) (texels : list gli.u8vec4) : bool :=
  forallb (λ texel, bool_decide (gli.g texel = v)) texels.
Definition b_all (v : Z) (texels : list gli.u8vec4) : bool :=
  forallb (λ texel, bool_decide (gli.b texel = v)) texels.

(** The mode as the specification words it, from the four booleans. *)
Definition specified_mr_mode (g_all_0 g_all_255 b_all_0 b_all_255 : bool) :
    AnalysisResult.MetallicRoughnessMode :=
  let g_constant := g_all_0 || g_all_255 in
  let b_constant := b_all_0 || b_all_255 in
  if negb g_constant && b_all_255 then AnalysisResult.MetallicRough
  else if negb g_constant && b_all_0 then AnalysisResult.MetallicSmooth
  else if negb b_constant && g_all_255 then AnalysisResult.RoughnessMetal
  else if negb b_constant && g_all_0 then AnalysisResult.RoughnessDielectric
  else AnalysisResult.Default.

(** Level 0 of a single-layer, single-face image holds extent.x * extent.y
    texels, and that count fits an [int]. *)
Definition single_image (image : gli.texture) : Prop :=
  (gli.layers image ≤ 1)%Z ∧ (gli.faces image ≤ 1)%Z
  ∧ (gli.extent_x image * gli.extent_y image = Z.of_nat (length (gli.data_0_0_0 image)))%Z
  ∧ (Z.of_nat (length (gli.data_0_0_0 image)) ≤ INT_MAX)%Z.

(** The 32-bit value stored least significant byte first at [off]. *)
Definition read_u32 (file : list byte) (off : nat) : Z :=
  match take 4 (drop off file) with
  | [b0; b1; b2; b3] => (b0 + 2 ^ 8 * b1 + 2 ^ 16 * b2 + 2 ^ 24 * b3)%Z
  | _ => 0%Z
  end.

(** The GLB container of a JSON text and a binary blob: header, JSON chunk
    padded with spaces, BIN chunk padded with zeros. *)
Definition glb_container (json bin : list byte) : list byte :=
  let json_length := Z.of_nat (length json) in
  let bin_length := Z.of_nat (length bin) in
  let total := (12 + (8 + aligned_size json_length) + (8 + aligned_size bin_length))%Z in
  (* header *)
  string_bytes "glTF" ++ u32_bytes (u32 2) ++ u32_bytes (u32 total)
  (* JSON chunk *)
  ++ u32_bytes (u32 (aligned_size json_length)) ++ string_bytes "JSON"
  ++ json ++ replicate (Z.to_nat (aligned_size json_length - json_length)) 0x20%Z
  (* BIN chunk *)
  ++ u32_bytes (u32 (aligned_size bin_length)) ++ (string_bytes "BIN" ++ [0%Z])
  ++ bin ++ replicate (Z.to_nat (aligned_size bin_length - bin_length)) 0%Z.

(** ** How the caches change

    [step]: what one of the leaf operations does to the state.  [update]
    adds the assignments that [emit_material], [emit_mesh] and
    [emit_meshes] make to their own caches. *)

Section changes.
Context `{Collaborators}.

Inductive step : RemapState.t → RemapState.t → Prop :=
  | step_buffer view stride s :
      step s (emit_buffer view stride s).2
  | step_accessor view_index format offset stride count s index s' :
      emit_accessor view_index format offset stride count s = Ok (index, s') →
      step s s'
  | step_aabb aabb index s :
      step s (RemapState.set_accessor_cache
                (alter (set_aabb aabb) index (RemapState.accessor_cache s)) s)
  | step_sampler sampler s :
      step s (emit_sampler sampler s).2
  | step_image texture type compression quality mode s :
      step s (emit_image texture type compression quality mode s).2
  | step_texture h texture s :
      RemapState.texture_hash s !! h = None →
      step s (RemapState.set_texture_cache (RemapState.texture_cache s ++ [texture])
               (RemapState.set_texture_hash
                  (<[h := length (RemapState.texture_cache s)]> (RemapState.texture_hash s)) s)).

Inductive update : RemapState.t → RemapState.t → Prop :=
  | update_step s s' : step s s' → update s s'
  | update_material_cache cache s : update s (RemapState.set_material_cache cache s)
  | update_material_hash hash s : update s (RemapState.set_material_hash hash s)
  | update_mesh_cache cache s : update s (RemapState.set_mesh_cache cache s)
  | update_mesh_hash hash s : update s (RemapState.set_mesh_hash hash s)
  | update_mesh_group_cache cache s : update s (RemapState.set_mesh_group_cache cache s)
  | update_mesh_group_hash hash s : update s (RemapState.set_mesh_group_hash hash s).

End changes.

(** The stages of [emit_mesh], named so that lemmas can speak about them. *)
Section stages.
Context `{Collaborators}.

(** [if (!mesh.indices.empty()) ... else emit.index_accessor = -1;] *)
Definition mesh_index_stage (mesh : Mesh.t) (s : RemapState.t) : outcome (Z * RemapState.t) :=
  let uint16 := bool_decide (Mesh.index_type mesh = VK_INDEX_TYPE_UINT16) in
  match Mesh.indices mesh with
  | [] => mret ((-1)%Z, s)
  | indices =>
      let '(index, s) := emit_buffer indices (if uint16 then 2 else 4)%Z s in
      '(accessor, s) ←
        emit_accessor index (if uint16 then VK_FORMAT_R16_UINT else VK_FORMAT_R32_UINT)
          0%Z (if uint16 then 2 else 4)%Z (Mesh.count mesh) s;
      mret (Z.of_nat accessor, s)
  end.

(** [if (mesh.has_material) { ... emit_material ... }] *)
Definition mesh_material_stage (mesh : Mesh.t) (s : RemapState.t) : outcome RemapState.t :=
  if Mesh.has_material mesh
  then
    remapped_material ←
      at_index (Remap.to_index (RemapState.material s)) (Mesh.material_index mesh);
    if decide (remapped_material ∈ RemapState.material_hash s)
    then mret s
    else
      s ← emit_material remapped_material s;
      mret (RemapState.set_material_hash
              ({[remapped_material]} ∪ RemapState.material_hash s) s)
  else mret s.

(** [position_buffer] and [attribute_buffer] *)
Definition mesh_position_stage (mesh : Mesh.t) (s : RemapState.t) : nat * RemapState.t :=
  match Mesh.positions mesh with
  | [] => (0, s)
  | positions => emit_buffer positions (Mesh.position_stride mesh) s
  end.

Definition mesh_attribute_stage (mesh : Mesh.t) (s : RemapState.t) : nat * RemapState.t :=
  match Mesh.attributes mesh with
  | [] => (0, s)
  | attributes => emit_buffer attributes (Mesh.attribute_stride mesh) s
  end.

(** The record the attribute loop starts from. *)
Definition mesh_record (mesh : Mesh.t) (index_accessor : Z) (emit : EmittedMesh.t) :
    EmittedMesh.t :=
  {| EmittedMesh.index_accessor := index_accessor;
     EmittedMesh.material :=
       if Mesh.has_material mesh then Z.of_nat (Mesh.material_index mesh) else (-1)%Z;
     EmittedMesh.attribute_mask := 0%Z;
     EmittedMesh.attribute_accessor := EmittedMesh.attribute_accessor emit |}.

End stages.

(** Two accessor records that differ at most in their bounds. *)
Definition same_accessor (a a' : EmittedAccessor.t) : Prop :=
  EmittedAccessor.view a' = EmittedAccessor.view a
  ∧ EmittedAccessor.count a' = EmittedAccessor.count a
  ∧ EmittedAccessor.type a' = EmittedAccessor.type a
  ∧ EmittedAccessor.component a' = EmittedAccessor.component a
  ∧ EmittedAccessor.offset a' = EmittedAccessor.offset a
  ∧ EmittedAccessor.normalized a' = EmittedAccessor.normalized a.

(** [s'] is [s] with more entries: nothing that an index or a hash of [s]
    refers to has gone or moved. *)
Record extends (s s' : RemapState.t) : Prop := {
  extends_options : RemapState.options s' = RemapState.options s;
  extends_mesh : RemapState.mesh s' = RemapState.mesh s;
  extends_material : RemapState.material s' = RemapState.material s;
  extends_environment_cache :
    RemapState.environment_cache s' = RemapState.environment_cache s;
  extends_glb_buffer_data :
    RemapState.glb_buffer_data s `prefix_of` RemapState.glb_buffer_data s';
  extends_buffer_hash : RemapState.buffer_hash s ⊆ RemapState.buffer_hash s';
  extends_buffer_views : RemapState.buffer_views s `prefix_of` RemapState.buffer_views s';
  extends_accessor_hash : RemapState.accessor_hash s ⊆ RemapState.accessor_hash s';
  extends_accessor_cache : ∀ i a,
    RemapState.accessor_cache s !! i = Some a →
    ∃ a', RemapState.accessor_cache s' !! i = Some a' ∧ same_accessor a a';
  extends_sampler_hash : RemapState.sampler_hash s ⊆ RemapState.sampler_hash s';
  extends_sampler_cache : RemapState.sampler_cache s `prefix_of` RemapState.sampler_cache s';
  extends_image_hash : RemapState.image_hash s ⊆ RemapState.image_hash s';
  extends_image_cache : RemapState.image_cache s `prefix_of` RemapState.image_cache s';
  extends_texture_hash : RemapState.texture_hash s ⊆ RemapState.texture_hash s';
  extends_texture_cache : RemapState.texture_cache s `prefix_of` RemapState.texture_cache s';
}.

(** What the leaf operations leave alone. *)
Record same_records (s s' : RemapState.t) : Prop := {
  same_mesh_hash : RemapState.mesh_hash s' = RemapState.mesh_hash s;
  same_mesh_cache : RemapState.mesh_cache s' = RemapState.mesh_cache s;
  same_material_hash : RemapState.material_hash s' = RemapState.material_hash s;
  same_material_cache : RemapState.material_cache s' = RemapState.material_cache s;
  same_mesh_group_hash : RemapState.mesh_group_hash s' = RemapState.mesh_group_hash s;
  same_mesh_group_cache : RemapState.mesh_group_cache s' = RemapState.mesh_group_cache s;
}.

(** The caches hold nothing but HDR images and LinearClamp samplers, and
    every index stored in them points at an entry. *)
Record hdr_clamp_only (s : RemapState.t) : Prop := {
  hdr_images : ∀ i image,
    RemapState.image_cache s !! i = Some image → EmittedImage.mode image = TextureMode.HDR;
  clamp_samplers : ∀ i sampler,
    RemapState.sampler_cache s !! i = Some sampler →
    sampler = sampler_table StockSampler.LinearClamp;
  image_hash_valid : ∀ h i,
    RemapState.image_hash s !! h = Some i → i < length (RemapState.image_cache s);
  sampler_hash_valid : ∀ h i,
    RemapState.sampler_hash s !! h = Some i → i < length (RemapState.sampler_cache s);
  texture_hash_valid : ∀ h i,
    RemapState.texture_hash s !! h = Some i → i < length (RemapState.texture_cache s);
  textures_valid : ∀ i texture,
    RemapState.texture_cache s !! i = Some texture →
    EmittedTexture.image texture < length (RemapState.image_cache s)
    ∧ EmittedTexture.sampler texture < length (RemapState.sampler_cache s);
}.

(** Texture slot [index] of an environment is filled, and the texture it
    names has an image in HDR mode and the LinearClamp sampler. *)
Definition hdr_clamp_texture (s : RemapState.t) (index : Z) : Prop :=
  (0 ≤ index)%Z
  ∧ ∃ texture image sampler,
      RemapState.texture_cache s !! Z.to_nat index = Some texture
      ∧ RemapState.image_cache s !! EmittedTexture.image texture = Some image
      ∧ EmittedImage.mode image = TextureMode.HDR
      ∧ RemapState.sampler_cache s !! EmittedTexture.sampler texture = Some sampler
      ∧ sampler = sampler_table StockSampler.LinearClamp.

(** An environment slot for [path]: -1 when the path is empty, a filled
    HDR/LinearClamp texture otherwise. *)
Definition environment_slot (s : RemapState.t) (path : string) (index : Z) : Prop :=
  if decide (path = "") then index = (-1)%Z else hdr_clamp_texture s index.

(** ** Walked meshes and their materials *)

(** The canonical material of canonical mesh [r], if it has one. *)
Definition canonical_material (s : RemapState.t) (r : nat) : option nat :=
  match Remap.info (RemapState.mesh s) !! r with
  | Some mesh =>
      if Mesh.has_material mesh
      then Remap.to_index (RemapState.material s) !! Mesh.material_index mesh
      else None
  | None => None
  end.

(** The canonical indices of a mesh list. *)
Definition canonical_meshes (s : RemapState.t) (meshes : list nat) : list nat :=
  omap (λ mesh, Remap.to_index (RemapState.mesh s) !! mesh) meshes.

(** The canonical meshes the node loop walks, in order. *)
Definition walked_meshes (s : RemapState.t) (nodes : list Node.t) : list nat :=
  nodes ≫= (λ node, canonical_meshes s (Node.meshes node)).

(** The canonical materials those meshes reference. *)
Definition walked_materials (s : RemapState.t) (nodes : list Node.t) : list nat :=
  omap (canonical_material s) (walked_meshes s nodes).

(** 1 + the largest index of the list, 0 for the empty list. *)
Definition material_count (materials : list nat) : nat :=
  foldr max 0 (S <$> materials).

(** The material cache after the canonical meshes [walked] have been
    walked. *)
Record materials_walked (s : RemapState.t) (walked : list nat) : Prop := {
  walked_mesh_hash : ∀ r, r ∈ RemapState.mesh_hash s ↔ r ∈ walked;
  walked_material_hash : ∀ i,
    i ∈ RemapState.material_hash s ↔ i ∈ omap (canonical_material s) walked;
  walked_material_count :
    length (RemapState.material_cache s)
    = material_count (omap (canonical_material s) walked);
  walked_default : ∀ i,
    i < length (RemapState.material_cache s) → i ∉ RemapState.material_hash s →
    RemapState.material_cache s !! i = Some EmittedMaterial.default;
}.

(** ** Position accessors *)

(** Every accessor record carries one of the four type names for which the
    document writes bounds. *)
Definition accessors_typed (s : RemapState.t) : Prop :=
  ∀ i accessor, RemapState.accessor_cache s !! i = Some accessor →
    accessor_components (EmittedAccessor.type accessor) ≠ 0.

(** The buffer view the positions of [mesh] resolve to in [s]: view 0 when
    the mesh has no positions, the view recorded for (data, stride)
    otherwise. *)
Definition position_view `{Collaborators} (s : RemapState.t) (mesh : Mesh.t) (view : nat) :
    Prop :=
  match Mesh.positions mesh with
  | [] => view = 0
  | positions =>
      RemapState.buffer_hash s !! digest [h_data positions; h_u32 (Mesh.position_stride mesh)]
      = Some view
  end.

(** The (view, format, offset, stride, count) tuple of the Position
    attribute of [mesh], its positions being in [view]. *)
Definition position_tuple (mesh : Mesh.t) (view : nat) : nat * VkFormat * Z * Z * Z :=
  let layout := Mesh.attribute_layout mesh Position in
  (view, MeshAttributeLayout.format layout, MeshAttributeLayout.offset layout,
   Mesh.position_stride mesh,
   u32 (Z.of_nat (length (Mesh.positions mesh)) / Mesh.position_stride mesh)).

(** The key of [emit_accessor] for a tuple. *)
Definition tuple_key `{Collaborators} (tuple : nat * VkFormat * Z * Z * Z) : list HashField :=
  let '(view, format, offset, stride, count) := tuple in
  accessor_key view format offset stride count.

(** The first [components] coordinates of a corner of a box, extended by
    1.0f, as the document writes them. *)
Definition bounds_json (components : nat) (corner : vec3) : Value :=
  JArray (JFloat <$> take components (vec4_list (vec4_of_vec3 corner f32_1_0))).

(** A format of the closed accessor table: both lookups succeed. *)
Definition in_accessor_table (format : VkFormat) : Prop :=
  returns (get_accessor_component format) ∧ returns (get_accessor_type format).


(** ** The data of the buffer views *)



(** An accessor record whose type name, component type and normalisation
    flag are those of one format of the table. *)
Definition accessor_from_table (accessor : EmittedAccessor.t) : Prop :=
  ∃ format,
    get_accessor_type format = Ok (EmittedAccessor.type accessor)
    ∧ get_accessor_component format = Ok (EmittedAccessor.component accessor)
    ∧ get_accessor_normalized format = EmittedAccessor.normalized accessor.

Definition accessors_from_table (s : RemapState.t) : Prop :=
  ∀ i accessor, RemapState.accessor_cache s !! i = Some accessor →
    accessor_from_table accessor.

(** ** Indices that refer to entries *)

(** Every index stored in a hash table or in a texture record refers to an
    entry of the list it indexes. *)
Record references_valid (s : RemapState.t) : Prop := {
  valid_buffer_hash : ∀ h i,
    RemapState.buffer_hash s !! h = Some i → i < length (RemapState.buffer_views s);
  valid_accessor_hash : ∀ h i,
    RemapState.accessor_hash s !! h = Some i → i < length (RemapState.accessor_cache s);
  valid_sampler_hash : ∀ h i,
    RemapState.sampler_hash s !! h = Some i → i < length (RemapState.sampler_cache s);
  valid_image_hash : ∀ h i,
    RemapState.image_hash s !! h = Some i → i < length (RemapState.image_cache s);
  valid_texture_hash : ∀ h i,
    RemapState.texture_hash s !! h = Some i → i < length (RemapState.texture_cache s);
  valid_textures : ∀ i texture,
    RemapState.texture_cache s !! i = Some texture →
    EmittedTexture.image texture < length (RemapState.image_cache s)
    ∧ EmittedTexture.sampler texture < length (RemapState.sampler_cache s);
}.

(** A texture slot of a material: -1 for none, or the index of a texture. *)
Definition slot_valid (s : RemapState.t) (slot : Z) : Prop :=
  slot = (-1)%Z ∨ (0 ≤ slot < Z.of_nat (length (RemapState.texture_cache s)))%Z.

Definition material_slots (material : EmittedMaterial.t) : list Z :=
  [ EmittedMaterial.base_color material; EmittedMaterial.normal material;
    EmittedMaterial.metallic_roughness material; EmittedMaterial.occlusion material;
    EmittedMaterial.emissive material ].

(** Every texture slot of every material record is valid. *)
Definition materials_valid (s : RemapState.t) : Prop :=
  ∀ i material, RemapState.material_cache s !! i = Some material →
    Forall (slot_valid s) (material_slots material).

(** ** Images *)

(** The test of [compress_image] for an up-to-date target: both files can
    be stat'ed and the source is strictly older than the target. *)
Definition already_compressed (fs : Filesystem.t) (src_path target_path : string) : Prop :=
  ∃ src_stat dst_stat,
    Filesystem.stat fs src_path = Some src_stat
    ∧ Filesystem.stat fs target_path = Some dst_stat
    ∧ (FileStat.last_modified src_stat < FileStat.last_modified dst_stat)%Z.

(** The colour space [load_image] asks the loader for. *)
Definition color_space_of (mode : TextureMode.t) : ColorSpace :=
  if bool_decide (mode = TextureMode.sRGBA) || bool_decide (mode = TextureMode.sRGB)
  then ColorSpace_sRGB else ColorSpace_Linear.

(** One of the four channel selectors. *)
Definition channel_selector (swiz : VkComponentSwizzle) : Prop :=
  swiz ∈ [VK_COMPONENT_SWIZZLE_R; VK_COMPONENT_SWIZZLE_G;
          VK_COMPONENT_SWIZZLE_B; VK_COMPONENT_SWIZZLE_A].

(** One of the two 8-bit RGBA formats. *)
Definition rgba8 (format : gli.format) : Prop :=
  format = gli.FORMAT_RGBA8_SRGB_PACK8 ∨ format = gli.FORMAT_RGBA8_UNORM_PACK8.

(** ** Formats outside the accessor table *)




(** The fingerprints of a remap table and its stored items correspond:
    every fingerprint leads to a stored item with that fingerprint, and
    every stored item is found under its fingerprint. *)
Definition remap_sound {T} (hash : T → outcome N) (remap : Remap.t T) : Prop :=
  (∀ h r, Remap.hashmap remap !! h = Some r →
     ∃ representative, Remap.info remap !! r = Some representative ∧ hash representative = Ok h)
  ∧ (∀ r representative, Remap.info remap !! r = Some representative →
       ∃ h, hash representative = Ok h ∧ Remap.hashmap remap !! h = Some r).

(** Input item [i] has a canonical representative with the same
    fingerprint, the one the table has for that fingerprint. *)
Definition represented {T} (hash : T → outcome N) (remap : Remap.t T) (i : nat) (item : T) :
    Prop :=
  ∃ r representative h,
    Remap.to_index remap !! i = Some r
    ∧ Remap.info remap !! r = Some representative
    ∧ hash item = Ok h ∧ hash representative = Ok h
    ∧ Remap.hashmap remap !! h = Some r.

(** The export returns [false]. *)
Definition returns_false `{Collaborators} (fs : Filesystem.t) (scene : SceneInformation.t)
    (path : string) (options : ExportOptions.t) : Prop :=
  ∃ exported, export_scene_to_glb fs scene path options = Ok exported
              ∧ Exported.result exported = false.

(** ** Concrete inputs *)

Module Fixture.

(** A filesystem in which every file exists with the same modification
    time, and every file can be opened and mapped. *)
Program Definition same_mtime_fs : Filesystem.t :=
  {| Filesystem.stat := λ _, Some {| FileStat.last_modified := 100 |};
     Filesystem.open_write_only := λ _, true;
     Filesystem.map_write := λ _ size,
       if decide (0 ≤ size)%Z then Some (replicate (Z.to_nat size) 0%Z) else None |}.
Next Obligation.
  intros path size mapped Hmap. simpl in Hmap. case_decide; [|done].
  injection Hmap as <-. rewrite length_replicate. lia.
Qed.

(** The target is one tick newer than every source. *)
Program Definition newer_target_fs (target : string) : Filesystem.t :=
  {| Filesystem.stat := λ path,
       Some {| FileStat.last_modified := if decide (path = target) then 101 else 100 |};
     Filesystem.open_write_only := λ _, true;
     Filesystem.map_write := λ _ size,
       if decide (0 ≤ size)%Z then Some (replicate (Z.to_nat size) 0%Z) else None |}.
Next Obligation.
  intros target path size mapped Hmap. simpl in Hmap. case_decide; [|done].
  injection Hmap as <-. rewrite length_replicate. lia.
Qed.

Definition idle_workers : ThreadGroup.t :=
  {| ThreadGroup.threads := 4; ThreadGroup.tasks := [] |}.

(** An analysis result for source "rock.png", planned as BC7. *)
Definition analysed : AnalysisResult.t :=
  {| AnalysisResult.src_path := "rock.png";
     AnalysisResult.image := Some (Demo.load "rock.png" ColorSpace_sRGB);
     AnalysisResult.compression := TextureCompression.BC7;
     AnalysisResult.mode := TextureMode.sRGB;
     AnalysisResult.type := Textures.BaseColor;
     AnalysisResult.swizzle := VkComponentMapping.rgba |}.

(** The JSON text "{}" and a blob of 2^32 zero bytes. *)
Definition small_json : list byte := [123; 125]%Z.
Definition blob_4GiB : list byte := replicate (Z.to_nat (2 ^ 32)) 0%Z.

(** A zeroed mapping of the size computed for these two payloads. *)
Definition mapping_4GiB : list byte :=
  replicate (Z.to_nat (glb_size_of (Z.of_nat (length small_json))
                                   (Z.of_nat (length blob_4GiB)))) 0%Z.

Definition no_environment : Environment.t :=
  {| Environment.cube := ""; Environment.reflection := ""; Environment.irradiance := "";
     Environment.intensity := f32_1_0; Environment.fog_color := vec3_splat f32_0_0;
     Environment.fog_falloff := f32_1_0;
     Environment.compression := TextureCompressionFamily.BC;
     Environment.texcomp_quality := 3 |}.

Definition options : ExportOptions.t :=
  {| ExportOptions.threads := 0;
     ExportOptions.compression := TextureCompressionFamily.BC;
     ExportOptions.texcomp_quality := 3;
     ExportOptions.environment := no_environment |}.

Definition rock : Texture.t :=
  {| Texture.path := "rock.png"; Texture.swizzle := VkComponentMapping.rgba |}.

(** The same file with another swizzle: the key of [emit_image] is the same. *)
Definition rock_swizzled : Texture.t :=
  {| Texture.path := "rock.png";
     Texture.swizzle :=
       {| VkComponentMapping.r := VK_COMPONENT_SWIZZLE_G;
          VkComponentMapping.g := VK_COMPONENT_SWIZZLE_G;
          VkComponentMapping.b := VK_COMPONENT_SWIZZLE_G;
          VkComponentMapping.a := VK_COMPONENT_SWIZZLE_A |} |}.

Definition no_texture : Texture.t :=
  {| Texture.path := ""; Texture.swizzle := VkComponentMapping.rgba |}.

(** A red, untextured material. *)
Definition red : MaterialInfo.t :=
  {| MaterialInfo.base_color := no_texture;
     MaterialInfo.normal := no_texture;
     MaterialInfo.occlusion := no_texture;
     MaterialInfo.metallic_roughness := no_texture;
     MaterialInfo.emissive := no_texture;
     MaterialInfo.sampler := StockSampler.TrilinearWrap;
     MaterialInfo.normal_scale := f32_1_0;
     MaterialInfo.uniform_metallic := f32_1_0;
     MaterialInfo.uniform_roughness := f32_1_0;
     MaterialInfo.uniform_base_color := (f32_1_0, f32_0_0, f32_0_0, f32_1_0);
     MaterialInfo.lod_bias := f32_0_0;
     MaterialInfo.uniform_emissive_color := vec3_splat f32_0_0;
     MaterialInfo.two_sided := false;
     MaterialInfo.pipeline := DrawPipeline.Opaque |}.

(** A material with a base colour texture, alpha tested and two sided. *)
Definition rocky : MaterialInfo.t :=
  {| MaterialInfo.base_color := rock;
     MaterialInfo.normal := no_texture;
     MaterialInfo.occlusion := no_texture;
     MaterialInfo.metallic_roughness := no_texture;
     MaterialInfo.emissive := no_texture;
     MaterialInfo.sampler := StockSampler.TrilinearWrap;
     MaterialInfo.normal_scale := f32_1_0;
     MaterialInfo.uniform_metallic := f32_0_0;
     MaterialInfo.uniform_roughness := f32_1_0;
     MaterialInfo.uniform_base_color := vec4_splat f32_1_0;
     MaterialInfo.lod_bias := f32_0_0;
     MaterialInfo.uniform_emissive_color := vec3_splat f32_0_0;
     MaterialInfo.two_sided := true;
     MaterialInfo.pipeline := DrawPipeline.AlphaTest |}.

(** Positions only: the Position slot holds [format], the others nothing. *)
Definition positions_only (format : VkFormat) (attr : MeshAttribute) : MeshAttributeLayout.t :=
  {| MeshAttributeLayout.format :=
       if decide (attr = Position) then format else VK_FORMAT_UNDEFINED;
     MeshAttributeLayout.offset := 0 |}.

Definition unit_box : AABB.t :=
  {| AABB.minimum := vec3_splat f32_0_0; AABB.maximum := vec3_splat f32_1_0 |}.

(** Another box: from 0 to 2.0f (0x40000000). *)
Definition double_box : AABB.t :=
  {| AABB.minimum := vec3_splat f32_0_0; AABB.maximum := vec3_splat 0x40000000%Z |}.

(** Three vertices of three floats each, 36 bytes. *)
Definition triangle_positions : list byte := replicate 36 0%Z.

(** A non-indexed triangle with positions in [format], bounds [aabb] and,
    if given, a material. *)
Definition triangle (format : VkFormat) (aabb : AABB.t) (material : option nat) : Mesh.t :=
  {| Mesh.topology := 3;
     Mesh.index_type := VK_INDEX_TYPE_UINT16;
     Mesh.attribute_stride := 0;
     Mesh.position_stride := 12;
     Mesh.has_material := bool_decide (is_Some material);
     Mesh.material_index := default 0 material;
     Mesh.attribute_layout := positions_only format;
     Mesh.static_aabb := aabb;
     Mesh.positions := triangle_positions;
     Mesh.indices := [];
     Mesh.attributes := [];
     Mesh.count := 3 |}.

Definition identity_transform : Transform.t :=
  {| Transform.rotation := (f32_0_0, f32_0_0, f32_0_0, f32_1_0);
     Transform.scale := vec3_splat f32_1_0;
     Transform.translation := vec3_splat f32_0_0 |}.

Definition node_with (meshes : list nat) : Node.t :=
  {| Node.children := []; Node.meshes := meshes; Node.transform := identity_transform |}.

(** One red triangle on one node. *)
Definition triangle_scene : SceneInformation.t :=
  {| SceneInformation.materials := [red];
     SceneInformation.meshes := [triangle VK_FORMAT_R32G32B32_SFLOAT unit_box (Some 0)];
     SceneInformation.nodes := [node_with [0]];
     SceneInformation.cameras := [];
     SceneInformation.lights := [] |}.

(** A blue, untextured, two sided material. *)
Definition blue : MaterialInfo.t :=
  {| MaterialInfo.base_color := no_texture;
     MaterialInfo.normal := no_texture;
     MaterialInfo.occlusion := no_texture;
     MaterialInfo.metallic_roughness := no_texture;
     MaterialInfo.emissive := no_texture;
     MaterialInfo.sampler := StockSampler.TrilinearWrap;
     MaterialInfo.normal_scale := f32_1_0;
     MaterialInfo.uniform_metallic := f32_1_0;
     MaterialInfo.uniform_roughness := f32_1_0;
     MaterialInfo.uniform_base_color := (f32_0_0, f32_0_0, f32_1_0, f32_1_0);
     MaterialInfo.lod_bias := f32_0_0;
     MaterialInfo.uniform_emissive_color := vec3_splat f32_0_0;
     MaterialInfo.two_sided := true;
     MaterialInfo.pipeline := DrawPipeline.Opaque |}.

(** Two materials, of which the one triangle uses the second only. *)
Definition two_material_scene : SceneInformation.t :=
  {| SceneInformation.materials := [red; blue];
     SceneInformation.meshes := [triangle VK_FORMAT_R32G32B32_SFLOAT unit_box (Some 1)];
     SceneInformation.nodes := [node_with [0]];
     SceneInformation.cameras := [];
     SceneInformation.lights := [] |}.

(** A sky with a cube map and an irradiance map but no reflection map. *)
Definition sky : Environment.t :=
  {| Environment.cube := "sky.ktx"; Environment.reflection := "";
     Environment.irradiance := "irradiance.ktx";
     Environment.intensity := f32_1_0; Environment.fog_color := vec3_splat f32_0_0;
     Environment.fog_falloff := f32_1_0;
     Environment.compression := TextureCompressionFamily.BC;
     Environment.texcomp_quality := 3 |}.

Definition sky_options : ExportOptions.t :=
  {| ExportOptions.threads := 0;
     ExportOptions.compression := TextureCompressionFamily.BC;
     ExportOptions.texcomp_quality := 3;
     ExportOptions.environment := sky |}.

(** Two triangles with the same positions and different bounds. *)
Definition two_box_scene : SceneInformation.t :=
  {| SceneInformation.materials := [];
     SceneInformation.meshes :=
       [triangle VK_FORMAT_R32G32B32_SFLOAT unit_box None;
        triangle VK_FORMAT_R32G32B32_SFLOAT double_box None];
     SceneInformation.nodes := [node_with [0; 1]];
     SceneInformation.cameras := [];
     SceneInformation.lights := [] |}.

(** A filesystem in which every file exists and none can be opened for
    writing. *)
Program Definition read_only_fs : Filesystem.t :=
  {| Filesystem.stat := λ _, Some {| FileStat.last_modified := 100 |};
     Filesystem.open_write_only := λ _, false;
     Filesystem.map_write := λ _ _, None |}.
Next Obligation. intros path size mapped Hmap. discriminate. Qed.

(** One triangle with the textured material. *)
Definition rocky_scene : SceneInformation.t :=
  {| SceneInformation.materials := [rocky];
     SceneInformation.meshes := [triangle VK_FORMAT_R32G32B32_SFLOAT unit_box (Some 0)];
     SceneInformation.nodes := [node_with [0]];
     SceneInformation.cameras := [];
     SceneInformation.lights := [] |}.

(** The record of an export that did nothing. *)
Definition nothing_exported : Exported.t :=
  {| Exported.result := false; Exported.document := JObject [];
     Exported.workers := idle_workers; Exported.file := None;
     Exported.state := RemapState.init options |}.

(** The value a run returns, [fallback] if it does not return. *)
Definition value_of {A} (fallback : A) (run : outcome A) : A :=
  match run with Ok a => a | _ => fallback end.

End Fixture.

(** ** Collaborators whose digest has no collisions

    The collaborators of [Demo], except that the digest also tells a named
    format from an unnamed one with the same code: different field
    sequences have different digests. *)

Module Exact.

Definition format_tag (format : VkFormat) : bool * Z :=
  (match format with VK_FORMAT_other _ => false | _ => true end, Demo.format_code format).

Definition layout_tag (layout : MeshAttributeLayout.t) : bool * Z * Z :=
  (format_tag (MeshAttributeLayout.format layout), MeshAttributeLayout.offset layout).

Definition field_tag (field : HashField) :
    Z + (Z + (Z + (string + (list Z + list (bool * Z * Z))))) :=
  match field with
  | h_u32 v => inl v
  | h_s32 v => inr (inl v)
  | h_f32 v => inr (inr (inl v))
  | h_string s => inr (inr (inr (inl s)))
  | h_data d => inr (inr (inr (inr (inl d))))
  | h_layout l => inr (inr (inr (inr (inr (layout_tag <$> l)))))
  end.

Definition fingerprint (fields : list HashField) : N :=
  Npos (encode (field_tag <$> fields)).

Definition collaborators : Collaborators := {|
  digest := fingerprint;
  ecast_VkFormat := Demo.format_code;
  ecast_VkIndexType := Demo.index_type_code;
  ecast_Textures := Demo.textures_code;
  ecast_TextureCompressionFamily := Demo.family_code;
  ecast_TextureMode := Demo.mode_code;
  ecast_StockSampler := Demo.sampler_code;
  ecast_DrawPipeline := Demo.pipeline_code;
  MeshAttribute_order := [Position; UV; Normal; Tangent; BoneIndex; BoneWeights; VertexColor];
  MeshAttribute_order_perm := reflexivity _;
  TextureCompression_zero := TextureCompression.Uncompressed;
  load_texture_from_file := Demo.load;
  relpath := λ base rel, rel;
  pretty_writer := λ doc, [123; 125]%Z;
  cone_to_angle := λ x, x;
  hardware_concurrency := 4%Z;
|}.


End Exact.

(** * Proofs *)

Section proofs.
Context `{Collaborators}.

(** ** Arithmetic of the alignment masks *)

Lemma land_lnot_ones (a n : Z) :
  (0 ≤ n)%Z → Z.land a (Z.lnot (Z.ones n)) = (2 ^ n * (a / 2 ^ n))%Z.
Proof.
  intros Hn.
  rewrite <- Z.ldiff_land, Z.ldiff_ones_r by done.
  rewrite Z.shiftr_div_pow2, Z.shiftl_mul_pow2 by done.
  lia.
Qed.

Lemma align_up_spec (x n : Z) :
  (0 ≤ n)%Z → (0 ≤ x)%Z →
  let y := Z.land (x + (2 ^ n - 1)) (Z.lnot (Z.ones n)) in
  (2 ^ n | y)%Z ∧ (x ≤ y < x + 2 ^ n)%Z.
Proof.
  intros Hn Hx y. subst y. rewrite land_lnot_ones by done.
  assert (0 < 2 ^ n)%Z by (apply Z.pow_pos_nonneg; lia).
  split; [by apply Z.divide_factor_l|].
  pose proof (Z.div_mod (x + (2 ^ n - 1)) (2 ^ n) ltac:(lia)).
  pose proof (Z.mod_pos_bound (x + (2 ^ n - 1)) (2 ^ n) ltac:(lia)).
  lia.
Qed.

Lemma align16_spec (x : Z) :
  (0 ≤ x)%Z →
  (16 | Z.land (x + 15) (Z.lnot 15))%Z ∧ (x ≤ Z.land (x + 15) (Z.lnot 15) < x + 16)%Z.
Proof. intros Hx. exact (align_up_spec x 4 ltac:(lia) Hx). Qed.

Lemma aligned_size_spec (size : Z) :
  (0 ≤ size)%Z → (4 | aligned_size size)%Z ∧ (size ≤ aligned_size size < size + 4)%Z.
Proof. intros Hx. exact (align_up_spec size 2 ltac:(lia) Hx). Qed.

(** ** memcpy *)

Lemma length_memcpy (dst : list byte) (off : nat) (src : list byte) :
  off + length src ≤ length dst → length (memcpy dst off src) = length dst.
Proof.
  intros Hle. unfold memcpy.
  rewrite !length_app, length_take, length_drop. lia.
Qed.

(** ** emit_buffer keeps every view inside the blob *)

Lemma view_in_blob_mono (blob blob' : list byte) (view : BufferView.t) :
  length blob ≤ length blob' → view_in_blob blob view → view_in_blob blob' view.
Proof. unfold view_in_blob. intros Hle (?&?&?&?). repeat split; try done. lia. Qed.

Lemma emit_buffer_views_in_blob (view : list byte) (stride : Z) (s : RemapState.t) :
  Forall (view_in_blob (RemapState.glb_buffer_data s)) (RemapState.buffer_views s) →
  Forall (view_in_blob (RemapState.glb_buffer_data (emit_buffer view stride s).2))
         (RemapState.buffer_views (emit_buffer view stride s).2).
Proof.
  intros Hs. unfold emit_buffer.
  destruct (RemapState.buffer_hash s !! _); [done|]. simpl.
  set (size := Z.of_nat (length (RemapState.glb_buffer_data s))).
  destruct (align16_spec size ltac:(lia)) as [Hdiv Hrange].
  set (offset := Z.land (size + 15) (Z.lnot 15)) in *.
  assert (Hlen : length (memcpy (resize (Z.to_nat (offset + Z.of_nat (length view))) 0%Z
                                         (RemapState.glb_buffer_data s))
                                 (Z.to_nat offset) view)
                 = Z.to_nat (offset + Z.of_nat (length view))).
  { rewrite length_memcpy; rewrite length_resize; lia. }
  apply Forall_app. split.
  - eapply Forall_impl; [exact Hs|]. intros v Hv.
    eapply view_in_blob_mono; [|exact Hv]. rewrite Hlen. lia.
  - apply Forall_singleton. unfold view_in_blob. simpl. rewrite Hlen.
    repeat split; try done; lia.
Qed.

(** C2.  After any sequence of [emit_buffer] calls on the fresh state,
    every recorded buffer view starts at a multiple of 16 and ends inside
    the blob: offset + length is at most the blob size. *)
Theorem buffer_views_within_blob (options : ExportOptions.t) (calls : list (list byte * Z)) :
  let s := emit_buffers calls (RemapState.init options) in
  Forall (view_in_blob (RemapState.glb_buffer_data s)) (RemapState.buffer_views s).
Proof.
  simpl. unfold emit_buffers.
  assert (Hinit : Forall (view_in_blob (RemapState.glb_buffer_data (RemapState.init options)))
                         (RemapState.buffer_views (RemapState.init options))) by constructor.
  revert Hinit. generalize (RemapState.init options) as s.
  induction calls as [|[view stride] calls IH]; intros s Hs; simpl; [done|].
  apply IH. by apply emit_buffer_views_in_blob.
Qed.

(** C3.  For each 8-bit SNORM or SINT format the component mapping used
    by [emit_accessor] yields GL_UNSIGNED_BYTE (0x1401), which is not the
    code GL_BYTE (0x1400) that the claim states. *)
Theorem get_accessor_component_signed_8bit :
  Forall (λ format, get_accessor_component format = Ok 0x1401%Z
                    ∧ get_accessor_component format ≠ Ok GL_BYTE)
         signed_8bit_formats
  ∧ GL_BYTE = 0x1400%Z.
Proof. split; [|done]. repeat constructor; done. Qed.

(** ** emit_image *)

Lemma string_length_app (s t : string) :
  String.length (s +:+ t) = String.length s + String.length t.
Proof.
  induction s as [|c s IH]; [done|].
  change (S (String.length (s +:+ t)) = S (String.length s) + String.length t).
  by rewrite IH.
Qed.

Lemma string_app_inv_tail (s1 s2 t : string) : s1 +:+ t = s2 +:+ t → s1 = s2.
Proof.
  revert s2. induction s1 as [|c1 s1 IH]; intros [|c2 s2] Heq.
  - done.
  - apply (f_equal String.length) in Heq.
    rewrite !string_length_app in Heq. simpl in Heq. lia.
  - apply (f_equal String.length) in Heq.
    rewrite !string_length_app in Heq. simpl in Heq. lia.
  - change (String c1 (s1 +:+ t) = String c2 (s2 +:+ t)) in Heq.
    injection Heq as -> Heq. f_equal. by apply IH.
Qed.

Lemma ktx_name_inj (h h' : N) : ktx_name h = ktx_name h' → h = h'.
Proof.
  unfold ktx_name, to_string. intros Heq%string_app_inv_tail.
  by apply (inj pretty).
Qed.

Lemma image_cache_consistent_init (options : ExportOptions.t) :
  image_cache_consistent (RemapState.init options).
Proof. split; intros ??; simpl; [by rewrite lookup_empty|by rewrite lookup_nil]. Qed.

Lemma emit_image_consistent texture type compression quality mode (s : RemapState.t) :
  image_cache_consistent s →
  image_cache_consistent (emit_image texture type compression quality mode s).2.
Proof.
  intros [Hhash Hcache]. unfold emit_image.
  set (h := digest _).
  destruct (RemapState.image_hash s !! h) as [found|] eqn:Hh; [done|].
  split; simpl.
  - intros h' i. rewrite lookup_insert. case_decide as Hhh'.
    + intros [= <-]. subst h'. eexists. split; [apply list_lookup_middle; done|done].
    + intros Hi. destruct (Hhash _ _ Hi) as (job & Hjob & Hname).
      exists job. split; [|done]. by apply lookup_app_l_Some.
  - intros j job Hj. apply lookup_app_Some in Hj as [Hj|[Hlen Hj]].
    + destruct (Hcache _ _ Hj) as (Hmime & h' & Hh' & Hname).
      split; [done|]. exists h'. split; [|done].
      rewrite lookup_insert_ne; [done|]. intros <-. congruence.
    + apply list_lookup_singleton_Some in Hj as [Hj <-]. simpl.
      split; [done|]. exists h. split; [|done].
      assert (j = length (RemapState.image_cache s)) as -> by lia.
      by rewrite lookup_insert_eq.
Qed.

Lemma emit_image_requests_consistent requests (s : RemapState.t) :
  image_cache_consistent s → image_cache_consistent (emit_image_requests requests s).
Proof.
  revert s. induction requests as [|request requests IH]; intros s Hs; [done|].
  apply IH. by apply emit_image_consistent.
Qed.

Lemma filter_none {A} (P : A → Prop) `{!∀ x, Decision (P x)} (l : list A) :
  (∀ x, x ∈ l → ¬ P x) → filter P l = [].
Proof.
  induction l as [|x l IH]; intros Hl; [done|].
  rewrite filter_cons_False by (apply Hl; left).
  apply IH. intros y Hy. apply Hl. by right.
Qed.

(** In a consistent cache exactly one job carries the name of a hash that
    is present. *)
Lemma jobs_named_unique (s : RemapState.t) (h : N) (i : nat) :
  image_cache_consistent s →
  RemapState.image_hash s !! h = Some i →
  length (jobs_named (ktx_name h) (RemapState.image_cache s)) = 1.
Proof.
  intros [Hhash Hcache] Hh.
  destruct (Hhash _ _ Hh) as (job & Hjob & Hname).
  assert (Hother : ∀ j job', RemapState.image_cache s !! j = Some job' →
            EmittedImage.target_relpath job' = ktx_name h → j = i).
  { intros j job' Hj Hn. destruct (Hcache _ _ Hj) as (_ & h' & Hh' & Hn').
    rewrite Hn in Hn'. apply ktx_name_inj in Hn' as <-. congruence. }
  unfold jobs_named. revert Hjob Hother.
  generalize (RemapState.image_cache s) as cache. clear -Hname.
  intros cache. revert i. induction cache as [|first cache IH]; intros i Hjob Hother.
  - by rewrite lookup_nil in Hjob.
  - destruct i as [|i]; simpl in Hjob.
    + injection Hjob as ->. rewrite filter_cons_True by done. simpl. f_equal.
      rewrite filter_none; [done|]. intros job' Hin Hn.
      apply list_elem_of_lookup in Hin as [j Hj].
      by specialize (Hother (S j) job' Hj Hn).
    + rewrite filter_cons_False.
      * apply (IH i Hjob). intros j job' Hj Hn.
        specialize (Hother (S j) job' Hj Hn). lia.
      * intros Hn. by specialize (Hother 0 first eq_refl Hn).
Qed.

(** C7.  Two calls of [emit_image] whose keys (path, role, compression
    family, quality, mode) are equal return the same index, the second call
    leaves the state unchanged, and the cache holds exactly one job for the
    key: its target is "<hash>.ktx" and its MIME type "image/ktx". *)
Theorem emit_image_idempotent (options : ExportOptions.t) (earlier : list ImageRequest.t)
    (texture texture' : Texture.t) (type : Textures.t)
    (compression : TextureCompressionFamily.t) (quality : Z) (mode : TextureMode.t) :
  Texture.path texture = Texture.path texture' →
  let s := emit_image_requests earlier (RemapState.init options) in
  let h := digest (image_key texture type compression quality mode) in
  let first := emit_image texture type compression quality mode s in
  let second := emit_image texture' type compression quality mode first.2 in
  second.1 = first.1
  ∧ second.2 = first.2
  ∧ (∃ job, RemapState.image_cache first.2 !! first.1 = Some job
            ∧ EmittedImage.target_relpath job = ktx_name h
            ∧ EmittedImage.target_mime job = "image/ktx")
  ∧ length (jobs_named (ktx_name h) (RemapState.image_cache second.2)) = 1.
Proof.
  intros Hpath s h first second.
  assert (Hs : image_cache_consistent s)
    by apply emit_image_requests_consistent, image_cache_consistent_init.
  assert (Hfirst : image_cache_consistent first.2) by by apply emit_image_consistent.
  assert (Hkey : image_key texture' type compression quality mode
                 = image_key texture type compression quality mode).
  { unfold image_key. by rewrite Hpath. }
  assert (Hin : RemapState.image_hash first.2 !! h = Some first.1).
  { subst first. unfold emit_image. fold h.
    destruct (RemapState.image_hash s !! h) eqn:Hh; simpl; [done|].
    by rewrite lookup_insert_eq. }
  assert (Hsecond : second = (first.1, first.2)).
  { subst second. unfold emit_image at 1. rewrite Hkey. fold h. by rewrite Hin. }
  rewrite Hsecond. simpl. split_and!; [done|done| |].
  - destruct Hfirst as [Hhash Hcache].
    destruct (Hhash _ _ Hin) as (job & Hjob & Hname).
    exists job. split_and!; [done|done|]. by destruct (Hcache _ _ Hjob).
  - by eapply jobs_named_unique.
Qed.

(** ** deduce_metallic_roughness_mode *)

Lemma mr_scan_loop_spec (rest scanned : list gli.u8vec4) (st : MRScan.t) :
  mr_scan_loop (scanned ++ rest) (length scanned) (length rest) st
  = Ok {| MRScan.metallic_zero_only := MRScan.metallic_zero_only st && g_all 0 rest;
          MRScan.metallic_one_only := MRScan.metallic_one_only st && g_all 255 rest;
          MRScan.roughness_zero_only := MRScan.roughness_zero_only st && b_all 0 rest;
          MRScan.roughness_one_only := MRScan.roughness_one_only st && b_all 255 rest;
          MRScan.visited := MRScan.visited st ++ seq (length scanned) (length rest) |}.
Proof.
  revert scanned st. induction rest as [|texel rest IH]; intros scanned st.
  - simpl. rewrite !andb_true_r, app_nil_r. by destruct st.
  - simpl. unfold at_index. rewrite list_lookup_middle by done. simpl.
    replace (scanned ++ texel :: rest) with ((scanned ++ [texel]) ++ rest)
      by by rewrite <- app_assoc.
    replace (S (length scanned)) with (length (scanned ++ [texel]))
      by (rewrite length_app; simpl; lia).
    rewrite IH. unfold mr_scan_step. simpl.
    rewrite length_app. simpl. rewrite Nat.add_1_r, <- app_assoc. simpl.
    f_equal. f_equal.
    all: repeat case_bool_decide; simpl; rewrite ?andb_false_r, ?andb_true_r; try done.
    all: congruence.
Qed.

Lemma mr_mode_of_scan_specified (st : MRScan.t) :
  mr_mode_of_scan st
  = specified_mr_mode (MRScan.metallic_zero_only st) (MRScan.metallic_one_only st)
                      (MRScan.roughness_zero_only st) (MRScan.roughness_one_only st).
Proof.
  unfold mr_mode_of_scan, specified_mr_mode.
  by destruct (MRScan.metallic_zero_only st), (MRScan.metallic_one_only st),
              (MRScan.roughness_zero_only st), (MRScan.roughness_one_only st).
Qed.

(** C6.  On an image with more than one layer or face the mode is Default
    and no texel is read.  Otherwise the loop reads the positions
    0, 1, ..., count-1 once each, its flags are g_all_0, g_all_255, b_all_0
    and b_all_255 of the texels, and the mode returned is the one the
    specification's table gives for these four booleans. *)
Theorem deduce_metallic_roughness_mode_spec (image : gli.texture) :
  ((gli.layers image > 1 ∨ gli.faces image > 1)%Z →
     deduce_metallic_roughness_mode_scan image = Ok (AnalysisResult.Default, MRScan.start)
     ∧ MRScan.visited MRScan.start = []
     ∧ deduce_metallic_roughness_mode image = Ok AnalysisResult.Default)
  ∧ (single_image image →
     let texels := gli.data_0_0_0 image in
     let mode := specified_mr_mode (g_all 0 texels) (g_all 255 texels)
                                   (b_all 0 texels) (b_all 255 texels) in
     ∃ st, deduce_metallic_roughness_mode_scan image = Ok (mode, st)
           ∧ MRScan.visited st = seq 0 (length texels)
           ∧ MRScan.metallic_zero_only st = g_all 0 texels
           ∧ MRScan.metallic_one_only st = g_all 255 texels
           ∧ MRScan.roughness_zero_only st = b_all 0 texels
           ∧ MRScan.roughness_one_only st = b_all 255 texels
           ∧ deduce_metallic_roughness_mode image = Ok mode).
Proof.
  split.
  - intros Hmulti. unfold deduce_metallic_roughness_mode, deduce_metallic_roughness_mode_scan.
    assert (bool_decide (gli.layers image > 1)%Z || bool_decide (gli.faces image > 1)%Z = true)
      as ->; [|done].
    apply orb_true_iff. destruct Hmulti; [left|right]; by apply bool_decide_eq_true.
  - intros (Hlayers & Hfaces & Hcount & Hmax) texels mode.
    unfold deduce_metallic_roughness_mode, deduce_metallic_roughness_mode_scan.
    rewrite (bool_decide_eq_false_2 (gli.layers image > 1)%Z) by lia.
    rewrite (bool_decide_eq_false_2 (gli.faces image > 1)%Z) by lia.
    simpl. unfold int_mul. rewrite Hcount.
    rewrite bool_decide_eq_true_2 by (unfold INT_MIN, INT_MAX in *; lia).
    simpl. rewrite Nat2Z.id.
    pose proof (mr_scan_loop_spec texels [] MRScan.start) as Hloop.
    simpl in Hloop. fold texels. rewrite Hloop. simpl.
    rewrite mr_mode_of_scan_specified. simpl.
    eexists. split_and!; reflexivity.
Qed.

(** ** compress_image *)

(** C4, amended.  When the source and the target can both be stat'ed and
    the target's mtime is strictly greater than the source's,
    [compress_image] returns at once: nothing is scheduled on the pool, so
    no mipmap or encode task exists that could touch the target. *)
Theorem compress_image_skips_newer_target (fs : Filesystem.t) (workers : ThreadGroup.t)
    (target_path : string) (result : AnalysisResult.t) (quality : Z)
    (src_stat dst_stat : FileStat.t) :
  Filesystem.stat fs (AnalysisResult.src_path result) = Some src_stat →
  Filesystem.stat fs target_path = Some dst_stat →
  (FileStat.last_modified src_stat < FileStat.last_modified dst_stat)%Z →
  compress_image fs workers target_path result quality = workers.
Proof.
  intros Hsrc Hdst Hlt. unfold compress_image. rewrite Hsrc, Hdst.
  by rewrite bool_decide_eq_true_2.
Qed.

(** ** The GLB container *)

Lemma memcpy_app (written rest : list byte) (off : nat) (src : list byte) :
  off = length written →
  memcpy (written ++ rest) off src = (written ++ src) ++ drop (length src) rest.
Proof.
  intros ->. unfold memcpy.
  rewrite take_app_length, drop_app_add.
  by rewrite <- app_assoc.
Qed.

Lemma read_u32_bytes (v : Z) (before after : list byte) :
  (0 ≤ v < 2 ^ 32)%Z → read_u32 (before ++ u32_bytes v ++ after) (length before) = v.
Proof.
  intros Hv. unfold read_u32. rewrite drop_app_length. simpl.
  change 0xff%Z with (Z.ones 8).
  rewrite !Z.land_ones, !Z.shiftr_div_pow2 by lia.
  pose proof (Z.div_mod v (2 ^ 8) ltac:(lia)).
  pose proof (Z.div_mod (v / 2 ^ 8) (2 ^ 8) ltac:(lia)).
  pose proof (Z.div_mod (v / 2 ^ 8 / 2 ^ 8) (2 ^ 8) ltac:(lia)).
  replace (v / 2 ^ 16)%Z with (v / 2 ^ 8 / 2 ^ 8)%Z by (rewrite Z.div_div by lia; done).
  replace (v / 2 ^ 24)%Z with (v / 2 ^ 8 / 2 ^ 8 / 2 ^ 8)%Z
    by (rewrite !Z.div_div by lia; done).
  assert (0 ≤ v / 2 ^ 8 / 2 ^ 8 / 2 ^ 8 < 2 ^ 8)%Z.
  { rewrite !Z.div_div by lia. split; [apply Z.div_pos; lia|].
    apply Z.div_lt_upper_bound; lia. }
  rewrite (Z.mod_small (v / 2 ^ 8 / 2 ^ 8 / 2 ^ 8)) by done.
  lia.
Qed.

Lemma u32_range (v : Z) : (0 ≤ u32 v < 2 ^ 32)%Z.
Proof. unfold u32. apply Z.mod_pos_bound. lia. Qed.

Lemma u32_small (v : Z) : (0 ≤ v < 2 ^ 32)%Z → u32 v = v.
Proof. unfold u32. apply Z.mod_small. Qed.

(** The writes of [write_glb] fill the whole mapping, whatever it held
    before, with the container of the two payloads. *)
Lemma write_glb_container (file buffer glb_buffer_data : list byte) :
  let glb_size := glb_size_of (Z.of_nat (length buffer))
                              (Z.of_nat (length glb_buffer_data)) in
  Z.of_nat (length file) = glb_size →
  write_glb file glb_size buffer glb_buffer_data = glb_container buffer glb_buffer_data.
Proof.
  intros glb_size Hfile. unfold write_glb, write_u32, memset.
  destruct (aligned_size_spec (Z.of_nat (length buffer)) ltac:(lia)) as [_ Hjson].
  destruct (aligned_size_spec (Z.of_nat (length glb_buffer_data)) ltac:(lia)) as [_ Hbin].
  assert (Hmagic : ∀ s, String.length s = 4 → length (string_bytes s) = 4).
  { intros s Hs. unfold string_bytes. rewrite length_fmap.
    clear -Hs. revert Hs. generalize 4. induction s; intros [|n] Hs; simpl in *; try done.
    f_equal. apply IHs. lia. }
  change file with ([] ++ file) at 1.
  repeat (rewrite memcpy_app;
    [|rewrite ?length_app, ?length_replicate, ?Hmagic by done; simpl; lia]).
  rewrite !drop_drop. rewrite drop_ge.
  2:{ rewrite ?length_app, ?length_replicate, ?Hmagic by done. simpl.
      unfold glb_size, glb_size_of in Hfile. lia. }
  rewrite app_nil_r. unfold glb_container.
  replace (12 + (8 + aligned_size (Z.of_nat (length buffer)))
             + (8 + aligned_size (Z.of_nat (length glb_buffer_data))))%Z
    with glb_size by (unfold glb_size, glb_size_of; lia).
  simpl. by rewrite <- !app_assoc.
Qed.

Lemma length_glb_container (json bin : list byte) :
  Z.of_nat (length (glb_container json bin))
  = glb_size_of (Z.of_nat (length json)) (Z.of_nat (length bin)).
Proof.
  destruct (aligned_size_spec (Z.of_nat (length json)) ltac:(lia)) as [_ Hjson].
  destruct (aligned_size_spec (Z.of_nat (length bin)) ltac:(lia)) as [_ Hbin].
  unfold glb_container, glb_size_of.
  rewrite !length_app, !length_replicate. simpl. lia.
Qed.

Lemma glb_container_stored_total (json bin : list byte) :
  read_u32 (glb_container json bin) 8
  = u32 (glb_size_of (Z.of_nat (length json)) (Z.of_nat (length bin))).
Proof.
  unfold glb_container.
  set (total := (12 + _ + _)%Z).
  replace (glb_size_of _ _) with total by (unfold total, glb_size_of; lia).
  rewrite (app_assoc (string_bytes "glTF")).
  change 8 with (length (string_bytes "glTF" ++ u32_bytes (u32 2))).
  apply read_u32_bytes, u32_range.
Qed.

(** ** export_scene_to_glb, taken apart *)

Lemma export_scene_to_glb_inv (fs : Filesystem.t) (scene : SceneInformation.t)
    (path : string) (options : ExportOptions.t) (exported : Exported.t) :
  export_scene_to_glb fs scene path options = Ok exported →
  ∃ nodes walked image_cache images meshes,
    walk_scene scene options = Ok (nodes, walked)
    ∧ analyze_images (RemapState.image_cache walked) = Ok image_cache
    ∧ Exported.state exported = RemapState.set_image_cache image_cache walked
    ∧ mapM (mesh_json (Exported.state exported)) (RemapState.mesh_group_cache walked)
      = Ok meshes
    ∧ Exported.document exported
      = JObject (document scene (Exported.state exported) nodes images meshes)
    ∧ let buffer := pretty_writer (Exported.document exported) in
      let glb_size := glb_size_of (Z.of_nat (length buffer))
                        (Z.of_nat (length (RemapState.glb_buffer_data walked))) in
      if Exported.result exported
      then Filesystem.open_write_only fs path = true
           ∧ ∃ mapped, Filesystem.map_write fs path glb_size = Some mapped
               ∧ Exported.file exported
                 = Some (write_glb mapped glb_size buffer (RemapState.glb_buffer_data walked))
      else Exported.file exported = None
           ∧ (Filesystem.open_write_only fs path = false
              ∨ Filesystem.map_write fs path glb_size = None).
Proof.
  unfold export_scene_to_glb. intros Hexport.
  destruct (walk_scene scene options) as [[nodes walked]| | |] eqn:Hwalk; try done.
  simpl in Hexport.
  destruct (analyze_images (RemapState.image_cache walked)) as [image_cache| | |] eqn:Himages;
    try done.
  simpl in Hexport.
  destruct (emit_images fs path image_cache _) as [[images workers]| | |] eqn:Hemit; try done.
  simpl in Hexport.
  destruct (mapM _ (RemapState.mesh_group_cache walked)) as [meshes| | |] eqn:Hmeshes;
    try done.
  simpl in Hexport.
  exists nodes, walked, image_cache, images, meshes.
  destruct (Filesystem.open_write_only fs path) eqn:Hopen.
  - destruct (Filesystem.map_write fs path _) as [mapped|] eqn:Hmap;
      injection Hexport as <-; simpl; split_and!; try done; eauto.
  - injection Hexport as <-; simpl; split_and!; try done; eauto.
Qed.

(** C1, amended.  A successful export writes exactly the GLB container of
    the JSON text and the binary blob: the 12-byte header (magic "glTF",
    version 2, total length), the JSON chunk padded to a multiple of 4 with
    0x20 and the BIN chunk padded to a multiple of 4 with 0x00.  The file is
    12 + (8 + align4(json_length)) + (8 + align4(bin_length)) bytes long;
    the header stores that total modulo 2^32, hence the total itself
    whenever it is below 2^32. *)
Theorem export_writes_glb_container (fs : Filesystem.t) (scene : SceneInformation.t)
    (path : string) (options : ExportOptions.t) (exported : Exported.t) :
  export_scene_to_glb fs scene path options = Ok exported →
  Exported.result exported = true →
  let json := pretty_writer (Exported.document exported) in
  let bin := RemapState.glb_buffer_data (Exported.state exported) in
  let json_length := Z.of_nat (length json) in
  let bin_length := Z.of_nat (length bin) in
  let total := (12 + (8 + aligned_size json_length) + (8 + aligned_size bin_length))%Z in
  Exported.file exported = Some (glb_container json bin)
  ∧ Z.of_nat (length (glb_container json bin)) = total
  ∧ ((4 | aligned_size json_length)%Z ∧ (json_length ≤ aligned_size json_length < json_length + 4)%Z)
  ∧ ((4 | aligned_size bin_length)%Z ∧ (bin_length ≤ aligned_size bin_length < bin_length + 4)%Z)
  ∧ read_u32 (glb_container json bin) 8 = u32 total
  ∧ ((total < 2 ^ 32)%Z → read_u32 (glb_container json bin) 8 = total).
Proof.
  intros Hexport Hresult json bin json_length bin_length total.
  destruct (export_scene_to_glb_inv _ _ _ _ _ Hexport)
    as (nodes & walked & image_cache & images & meshes & _ & _ & Hstate & _ & _ & Hfile).
  rewrite Hresult in Hfile. simpl in Hfile.
  destruct Hfile as (_ & mapped & Hmap & Hfile).
  assert (Hbin : bin = RemapState.glb_buffer_data walked) by (unfold bin; by rewrite Hstate).
  rewrite <- Hbin in *. fold json in Hmap, Hfile.
  apply Filesystem.map_write_length in Hmap.
  rewrite write_glb_container in Hfile by done.
  assert (Htotal : glb_size_of json_length bin_length = total)
    by (unfold glb_size_of, total; lia).
  refine (conj _ (conj _ (conj _ (conj _ (conj _ _))))).
  - done.
  - by rewrite length_glb_container.
  - apply aligned_size_spec. lia.
  - apply aligned_size_spec. lia.
  - rewrite glb_container_stored_total. fold json_length bin_length. by rewrite Htotal.
  - intros Hsmall. rewrite glb_container_stored_total.
    fold json_length bin_length. rewrite Htotal. apply u32_small.
    destruct (aligned_size_spec json_length ltac:(lia)).
    destruct (aligned_size_spec bin_length ltac:(lia)).
    unfold total in *. lia.
Qed.

(** ** Outcomes *)

Lemma bind_Ok {A B} (m : outcome A) (k : A → outcome B) (b : B) :
  m ≫= k = Ok b → ∃ a, m = Ok a ∧ k a = Ok b.
Proof. destruct m; simpl; [eauto|done..]. Qed.

Lemma at_index_Ok {A} (v : list A) (i : nat) (a : A) : at_index v i = Ok a ↔ v !! i = Some a.
Proof. unfold at_index. destruct (v !! i); naive_solver. Qed.

(** ** The leaf operations keep what is there *)

Lemma extends_refl (s : RemapState.t) : extends s s.
Proof. constructor; try done. intros i a Hi. exists a. by repeat split. Qed.

Lemma same_accessor_trans (a b c : EmittedAccessor.t) :
  same_accessor a b → same_accessor b c → same_accessor a c.
Proof. unfold same_accessor. intros (?&?&?&?&?&?) (?&?&?&?&?&?). repeat split; congruence. Qed.

Lemma extends_trans (s1 s2 s3 : RemapState.t) : extends s1 s2 → extends s2 s3 → extends s1 s3.
Proof.
  intros [] []. constructor; try congruence; try (etrans; eassumption).
  intros i a Hi.
  destruct (extends_accessor_cache0 _ _ Hi) as (a' & Hi' & Haa').
  destruct (extends_accessor_cache1 _ _ Hi') as (a'' & Hi'' & Haa'').
  exists a''. split; [done|]. by eapply same_accessor_trans.
Qed.

#[local] Instance extends_preorder : PreOrder extends.
Proof. split; [exact extends_refl|exact extends_trans]. Qed.

Lemma same_accessor_refl (a : EmittedAccessor.t) : same_accessor a a.
Proof. by repeat split. Qed.

Lemma emit_buffer_prefix (view : list byte) (stride : Z) (s : RemapState.t) :
  RemapState.glb_buffer_data s `prefix_of` RemapState.glb_buffer_data (emit_buffer view stride s).2.
Proof.
  unfold emit_buffer. destruct (RemapState.buffer_hash s !! _); [done|]. simpl.
  set (size := Z.of_nat (length (RemapState.glb_buffer_data s))).
  destruct (align16_spec size ltac:(lia)) as [_ Hrange].
  set (offset := Z.land (size + 15) (Z.lnot 15)) in *.
  unfold memcpy. rewrite take_resize_le by lia.
  rewrite resize_ge by lia. rewrite <- app_assoc. by apply prefix_app_r.
Qed.

Lemma step_extends (s s' : RemapState.t) : step s s' → extends s s'.
Proof.
  destruct 1 as [view stride s|view_index format offset stride count s index s' Hacc
                 |aabb index s|sampler s|texture type compression quality mode s
                 |h texture s Hh].
  - pose proof (emit_buffer_prefix view stride s) as Hprefix.
    revert Hprefix. unfold emit_buffer.
    destruct (RemapState.buffer_hash s !! _) eqn:Hh; [intros; apply extends_refl|].
    simpl. intros Hprefix.
    constructor; simpl; try done; try by apply prefix_app_r.
    + by apply insert_subseteq.
    + intros i a Hi. exists a. split; [done|apply same_accessor_refl].
  - unfold emit_accessor in Hacc.
    destruct (RemapState.accessor_hash s !! _) eqn:Hh.
    { injection Hacc as <- <-. apply extends_refl. }
    apply bind_Ok in Hacc as (acc & _ & Hacc). injection Hacc as <- <-.
    constructor; simpl; try done.
    + by apply insert_subseteq.
    + intros i a Hi. exists a. split; [by apply lookup_app_l_Some|apply same_accessor_refl].
  - constructor; simpl; try done.
    intros i a Hi. destruct (decide (index = i)) as [->|Hne].
    + exists (set_aabb aabb a). rewrite list_lookup_alter_eq, Hi. split; [done|].
      by repeat split.
    + exists a. rewrite list_lookup_alter_ne by done. split; [done|apply same_accessor_refl].
  - unfold emit_sampler.
    destruct (RemapState.sampler_hash s !! _) eqn:Hh; [apply extends_refl|].
    constructor; simpl; try done; try by apply prefix_app_r.
    + intros i a Hi. exists a. split; [done|apply same_accessor_refl].
    + by apply insert_subseteq.
  - unfold emit_image.
    destruct (RemapState.image_hash s !! _) eqn:Hh; [apply extends_refl|].
    constructor; simpl; try done; try by apply prefix_app_r.
    + intros i a Hi. exists a. split; [done|apply same_accessor_refl].
    + by apply insert_subseteq.
  - constructor; simpl; try done; try by apply prefix_app_r.
    + intros i a Hi. exists a. split; [done|apply same_accessor_refl].
    + by apply insert_subseteq.
Qed.

Lemma step_same_records (s s' : RemapState.t) : step s s' → same_records s s'.
Proof.
  destruct 1 as [view stride s|view_index format offset stride count s index s' Hacc
                 |aabb index s|sampler s|texture type compression quality mode s
                 |h texture s Hh].
  - unfold emit_buffer. by destruct (RemapState.buffer_hash s !! _).
  - unfold emit_accessor in Hacc.
    destruct (RemapState.accessor_hash s !! _).
    { by injection Hacc as <- <-. }
    apply bind_Ok in Hacc as (acc & _ & Hacc). by injection Hacc as <- <-.
  - done.
  - unfold emit_sampler. by destruct (RemapState.sampler_hash s !! _).
  - unfold emit_image. by destruct (RemapState.image_hash s !! _).
  - done.
Qed.

Lemma update_extends (s s' : RemapState.t) : update s s' → extends s s'.
Proof.
  destruct 1 as [s s' Hstep| | | | | |]; [by apply step_extends|..];
    (constructor; simpl; try done;
     intros i a Hi; exists a; split; [done|apply same_accessor_refl]).
Qed.

Lemma steps_extends (s s' : RemapState.t) : rtc step s s' → extends s s'.
Proof.
  induction 1 as [|s1 s2 s3 Hstep _ IH]; [apply extends_refl|].
  eapply extends_trans; [by apply step_extends|done].
Qed.

Lemma updates_extends (s s' : RemapState.t) : rtc update s s' → extends s s'.
Proof.
  induction 1 as [|s1 s2 s3 Hstep _ IH]; [apply extends_refl|].
  eapply extends_trans; [by apply update_extends|done].
Qed.

Lemma steps_same_records (s s' : RemapState.t) : rtc step s s' → same_records s s'.
Proof.
  induction 1 as [|s1 s2 s3 Hstep _ IH]; [done|].
  apply step_same_records in Hstep. destruct Hstep, IH. constructor; congruence.
Qed.

Lemma steps_updates (s s' : RemapState.t) : rtc step s s' → rtc update s s'.
Proof. apply rtc_subrel. intros ??. apply update_step. Qed.

(** ** The composite operations as sequences of steps *)

Lemma emit_texture_steps texture sampler type compression quality mode (s : RemapState.t) :
  rtc step s (emit_texture texture sampler type compression quality mode s).2.
Proof.
  unfold emit_texture.
  pose proof (step_image texture type compression quality mode s) as Himage.
  destruct (emit_image texture type compression quality mode s) as [image_index s1].
  pose proof (step_sampler sampler s1) as Hsampler.
  destruct (emit_sampler sampler s1) as [sampler_index s2]. simpl in *.
  destruct (RemapState.texture_hash s2 !! _) eqn:Hh; simpl.
  - eapply rtc_l; [done|]. by apply rtc_once.
  - eapply rtc_l; [done|]. eapply rtc_l; [done|]. apply rtc_once. by constructor.
Qed.

Lemma emit_texture_if_steps previous texture sampler type compression quality mode
    (s : RemapState.t) :
  rtc step s (emit_texture_if previous texture sampler type compression quality mode s).2.
Proof.
  unfold emit_texture_if. case_decide; [done|].
  pose proof (emit_texture_steps texture sampler type compression quality mode s) as Hsteps.
  by destruct (emit_texture texture sampler type compression quality mode s).
Qed.

Lemma emit_attributes_steps mesh position_buffer attribute_buffer attrs i emit
    (s : RemapState.t) emit' s' :
  emit_attributes mesh position_buffer attribute_buffer i attrs emit s = Ok (emit', s') →
  rtc step s s'.
Proof.
  revert i emit s. induction attrs as [|attr attrs IH]; intros i emit s Hemit; simpl in Hemit.
  { by injection Hemit as <- <-. }
  case_decide; [by eapply IH|].
  case_decide.
  - apply bind_Ok in Hemit as (count & _ & Hemit).
    apply bind_Ok in Hemit as ([accessor s1] & Haccessor & Hemit).
    apply bind_Ok in Hemit as (? & _ & Hemit).
    eapply rtc_l; [by eapply step_accessor|].
    eapply rtc_l; [apply step_aabb|]. by eapply IH.
  - apply bind_Ok in Hemit as (count & _ & Hemit).
    apply bind_Ok in Hemit as ([accessor s1] & Haccessor & Hemit).
    eapply rtc_l; [by eapply step_accessor|]. by eapply IH.
Qed.

(** ** emit_material and emit_mesh, taken apart *)

Lemma emit_material_inv (remapped_material : nat) (s s' : RemapState.t) :
  emit_material remapped_material s = Ok s' →
  ∃ material s1 output,
    Remap.info (RemapState.material s) !! remapped_material = Some material
    ∧ rtc step
        (RemapState.set_material_cache
           (resize (max (length (RemapState.material_cache s)) (remapped_material + 1))
                   EmittedMaterial.default (RemapState.material_cache s)) s) s1
    ∧ s' = RemapState.set_material_cache
             (<[remapped_material := output]> (RemapState.material_cache s1)) s1.
Proof.
  unfold emit_material. intros Hemit.
  apply bind_Ok in Hemit as (material & Hmaterial%at_index_Ok & Hemit).
  apply bind_Ok in Hemit as (output & _ & Hemit).
  set (s0 := RemapState.set_material_cache _ s) in *.
  cbv zeta in Hemit.
  repeat match type of Hemit with
  | context [emit_texture_if ?p ?t ?sm ?ty ?c ?q ?m ?st] =>
      let Hsteps := fresh "Hsteps" in
      pose proof (emit_texture_if_steps p t sm ty c q m st) as Hsteps;
      destruct (emit_texture_if p t sm ty c q m st) as [? ?]; simpl in Hsteps
  end.
  injection Hemit as <-.
  eexists material, _, _. split_and!; [done| |reflexivity].
  repeat (etrans; [eassumption|]). done.
Qed.

Lemma emit_mesh_unfold (remapped_index : nat) (s : RemapState.t) :
  emit_mesh remapped_index s
  = (mesh ← at_index (Remap.info (RemapState.mesh s)) remapped_index;
     let s :=
       RemapState.set_mesh_cache
         (resize (max (length (RemapState.mesh_cache s)) (remapped_index + 1))
                 EmittedMesh.default (RemapState.mesh_cache s)) s in
     emit ← at_index (RemapState.mesh_cache s) remapped_index;
     '(index_accessor, s) ← mesh_index_stage mesh s;
     s ← mesh_material_stage mesh s;
     let '(position_buffer, s) := mesh_position_stage mesh s in
     let '(attribute_buffer, s) := mesh_attribute_stage mesh s in
     '(emit, s) ← emit_attributes mesh position_buffer attribute_buffer 0 MeshAttribute_order
                    (mesh_record mesh index_accessor emit) s;
     mret (RemapState.set_mesh_cache (<[remapped_index := emit]> (RemapState.mesh_cache s)) s)).
Proof. reflexivity. Qed.

Lemma emit_mesh_inv (remapped_index : nat) (s s' : RemapState.t) :
  emit_mesh remapped_index s = Ok s' →
  ∃ mesh emit0 index_accessor s1 s2 position_buffer s3 attribute_buffer s4 emit s5,
    Remap.info (RemapState.mesh s) !! remapped_index = Some mesh
    ∧ mesh_index_stage mesh
        (RemapState.set_mesh_cache
           (resize (max (length (RemapState.mesh_cache s)) (remapped_index + 1))
                   EmittedMesh.default (RemapState.mesh_cache s)) s)
      = Ok (index_accessor, s1)
    ∧ mesh_material_stage mesh s1 = Ok s2
    ∧ mesh_position_stage mesh s2 = (position_buffer, s3)
    ∧ mesh_attribute_stage mesh s3 = (attribute_buffer, s4)
    ∧ emit_attributes mesh position_buffer attribute_buffer 0 MeshAttribute_order
        (mesh_record mesh index_accessor emit0) s4 = Ok (emit, s5)
    ∧ s' = RemapState.set_mesh_cache (<[remapped_index := emit]> (RemapState.mesh_cache s5)) s5.
Proof.
  rewrite emit_mesh_unfold. intros Hemit.
  apply bind_Ok in Hemit as (mesh & Hmesh%at_index_Ok & Hemit).
  apply bind_Ok in Hemit as (emit0 & _ & Hemit).
  apply bind_Ok in Hemit as ([index_accessor s1] & Hindex & Hemit).
  apply bind_Ok in Hemit as (s2 & Hmaterial & Hemit).
  destruct (mesh_position_stage mesh s2) as [position_buffer s3] eqn:Hposition.
  destruct (mesh_attribute_stage mesh s3) as [attribute_buffer s4] eqn:Hattribute.
  apply bind_Ok in Hemit as ([emit s5] & Hattributes & Hemit).
  injection Hemit as <-.
  by eexists mesh, emit0, index_accessor, s1, s2, position_buffer, s3, attribute_buffer, s4,
            emit, s5.
Qed.

Lemma mesh_index_stage_steps mesh (s : RemapState.t) index_accessor s' :
  mesh_index_stage mesh s = Ok (index_accessor, s') → rtc step s s'.
Proof.
  unfold mesh_index_stage. destruct (Mesh.indices mesh) as [|b indices].
  { by intros [= <- <-]. }
  pose proof (step_buffer (b :: indices)
    (if bool_decide (Mesh.index_type mesh = VK_INDEX_TYPE_UINT16) then 2 else 4)%Z s) as Hbuffer.
  destruct (emit_buffer (b :: indices) _ s) as [index s1]. simpl in Hbuffer.
  intros Hstage. apply bind_Ok in Hstage as ([accessor s2] & Haccessor & Hstage).
  injection Hstage as <- <-.
  eapply rtc_l; [done|]. apply rtc_once. by eapply step_accessor.
Qed.

Lemma mesh_position_stage_steps mesh (s : RemapState.t) :
  rtc step s (mesh_position_stage mesh s).2.
Proof.
  unfold mesh_position_stage. destruct (Mesh.positions mesh); [done|].
  apply rtc_once, step_buffer.
Qed.

Lemma mesh_attribute_stage_steps mesh (s : RemapState.t) :
  rtc step s (mesh_attribute_stage mesh s).2.
Proof.
  unfold mesh_attribute_stage. destruct (Mesh.attributes mesh); [done|].
  apply rtc_once, step_buffer.
Qed.

Lemma emit_material_updates (remapped_material : nat) (s s' : RemapState.t) :
  emit_material remapped_material s = Ok s' → rtc update s s'.
Proof.
  intros (material & s1 & output & _ & Hsteps & ->)%emit_material_inv.
  eapply rtc_l; [apply update_material_cache|].
  etrans; [by apply steps_updates|]. apply rtc_once, update_material_cache.
Qed.

Lemma mesh_material_stage_updates mesh (s s' : RemapState.t) :
  mesh_material_stage mesh s = Ok s' → rtc update s s'.
Proof.
  unfold mesh_material_stage. destruct (Mesh.has_material mesh); [|by intros [= <-]].
  intros Hstage. apply bind_Ok in Hstage as (remapped & _ & Hstage).
  case_decide; [by injection Hstage as <-|].
  apply bind_Ok in Hstage as (s1 & Hmaterial%emit_material_updates & Hstage).
  injection Hstage as <-.
  etrans; [done|]. apply rtc_once, update_material_hash.
Qed.

Lemma emit_mesh_updates (remapped_index : nat) (s s' : RemapState.t) :
  emit_mesh remapped_index s = Ok s' → rtc update s s'.
Proof.
  intros (mesh & emit0 & index_accessor & s1 & s2 & position_buffer & s3 & attribute_buffer
          & s4 & emit & s5 & _ & Hindex & Hmaterial & Hposition & Hattribute & Hattributes
          & ->)%emit_mesh_inv.
  eapply rtc_l; [apply update_mesh_cache|].
  etrans; [by eapply steps_updates, mesh_index_stage_steps|].
  etrans; [by eapply mesh_material_stage_updates|].
  pose proof (mesh_position_stage_steps mesh s2) as Hp. rewrite Hposition in Hp.
  pose proof (mesh_attribute_stage_steps mesh s3) as Ha. rewrite Hattribute in Ha.
  etrans; [by eapply steps_updates|].
  etrans; [by eapply steps_updates|].
  etrans; [by eapply steps_updates, emit_attributes_steps|].
  apply rtc_once, update_mesh_cache.
Qed.

Lemma emit_meshes_loop_updates meshes emit_hash mesh_group (s : RemapState.t)
    emit_hash' mesh_group' s' :
  emit_meshes_loop meshes emit_hash mesh_group s = Ok (emit_hash', mesh_group', s') →
  rtc update s s'.
Proof.
  revert emit_hash mesh_group s.
  induction meshes as [|mesh meshes IH]; intros emit_hash mesh_group s Hloop; simpl in Hloop.
  { by injection Hloop as <- <- <-. }
  apply bind_Ok in Hloop as (remapped_index & _ & Hloop).
  apply bind_Ok in Hloop as (s1 & Hmesh & Hloop).
  etrans; [|by eapply IH].
  case_decide; [by injection Hmesh as <-|].
  apply bind_Ok in Hmesh as (s0 & Hmesh%emit_mesh_updates & Hs1). injection Hs1 as <-.
  etrans; [done|]. apply rtc_once, update_mesh_hash.
Qed.

Lemma emit_meshes_updates meshes (s : RemapState.t) index s' :
  emit_meshes meshes s = Ok (index, s') → rtc update s s'.
Proof.
  unfold emit_meshes. intros Hemit.
  apply bind_Ok in Hemit as ([[emit_hash mesh_group] s1] & Hloop%emit_meshes_loop_updates & Hemit).
  destruct (RemapState.mesh_group_hash s1 !! _); injection Hemit as <- <-; [done|].
  etrans; [done|].
  eapply rtc_l; [apply update_mesh_group_cache|]. apply rtc_once, update_mesh_group_hash.
Qed.

Lemma emit_node_updates scene index node (s : RemapState.t) n s' :
  emit_node scene index node s = Ok (n, s') → rtc update s s'.
Proof.
  unfold emit_node. intros Hnode.
  apply bind_Ok in Hnode as ([members s1] & Hmeshes & Hnode). injection Hnode as <- <-.
  destruct (Node.meshes node); [by injection Hmeshes as <- <-|].
  apply bind_Ok in Hmeshes as ([group s2] & Hgroup%emit_meshes_updates & Hmeshes).
  by injection Hmeshes as <- <-.
Qed.

Lemma emit_nodes_updates scene nodes index (s : RemapState.t) ns s' :
  emit_nodes scene index nodes s = Ok (ns, s') → rtc update s s'.
Proof.
  revert index s ns s'. induction nodes as [|node nodes IH]; intros index s ns s' Hnodes;
    simpl in Hnodes.
  { by injection Hnodes as <- <-. }
  apply bind_Ok in Hnodes as ([n s1] & Hnode%emit_node_updates & Hnodes).
  apply bind_Ok in Hnodes as ([ns' s2] & Hrest%IH & Hnodes). injection Hnodes as <- <-.
  by etrans.
Qed.

(** ** The environment *)

Lemma hdr_clamp_only_init (options : ExportOptions.t) material mesh :
  hdr_clamp_only (RemapState.set_mesh mesh
                    (RemapState.set_material material (RemapState.init options))).
Proof. constructor; simpl; intros ??; by rewrite ?lookup_empty, ?lookup_nil. Qed.

Lemma lookup_snoc_Some {A} (l : list A) (x y : A) (i : nat) :
  (l ++ [x]) !! i = Some y → l !! i = Some y ∨ (i = length l ∧ y = x).
Proof.
  intros [Hi|[Hlen Hi]]%lookup_app_Some; [by left|right].
  apply list_lookup_singleton_Some in Hi as [Hi <-]. split; [lia|done].
Qed.

Lemma emit_texture_hdr_clamp texture type compression quality (s : RemapState.t) :
  hdr_clamp_only s →
  let emitted := emit_texture texture StockSampler.LinearClamp type compression quality
                              TextureMode.HDR s in
  hdr_clamp_only emitted.2 ∧ emitted.1 < length (RemapState.texture_cache emitted.2).
Proof.
  intros Hs. unfold emit_texture.
  (* the image *)
  assert (Himage : let emitted := emit_image texture type compression quality TextureMode.HDR s in
            hdr_clamp_only emitted.2 ∧ emitted.1 < length (RemapState.image_cache emitted.2)).
  { destruct Hs. unfold emit_image.
    destruct (RemapState.image_hash s !! _) eqn:Hh; simpl; [split; [done|eauto]|].
    split; [|rewrite length_app; simpl; lia].
    constructor; simpl; try done.
    - intros i image [Hi|[_ ->]]%lookup_snoc_Some; [eauto|done].
    - intros h i. rewrite lookup_insert, length_app. simpl.
      case_decide; [intros [= <-]; lia|]. intros Hi%image_hash_valid0. lia.
    - intros i t Hi. rewrite length_app. simpl.
      destruct (textures_valid0 _ _ Hi). lia. }
  destruct (emit_image texture type compression quality TextureMode.HDR s)
    as [image_index s1]. simpl in Himage. destruct Himage as [Hs1 Himage_index].
  (* the sampler *)
  assert (Hsampler : let emitted := emit_sampler StockSampler.LinearClamp s1 in
            hdr_clamp_only emitted.2
            ∧ emitted.1 < length (RemapState.sampler_cache emitted.2)
            ∧ RemapState.image_cache emitted.2 = RemapState.image_cache s1).
  { destruct Hs1. unfold emit_sampler.
    destruct (RemapState.sampler_hash s1 !! _) eqn:Hh; simpl; [split_and!; [done|eauto|done]|].
    split_and!; [|rewrite length_app; simpl; lia|done].
    constructor; simpl; try done.
    - intros i sampler [Hi|[_ ->]]%lookup_snoc_Some; [eauto|done].
    - intros h i. rewrite lookup_insert, length_app. simpl.
      case_decide; [intros [= <-]; lia|]. intros Hi%sampler_hash_valid0. lia.
    - intros i t Hi. rewrite length_app. simpl.
      destruct (textures_valid0 _ _ Hi). lia. }
  destruct (emit_sampler StockSampler.LinearClamp s1) as [sampler_index s2].
  simpl in Hsampler. destruct Hsampler as (Hs2 & Hsampler_index & Himages).
  rewrite <- Himages in Himage_index.
  (* the texture *)
  destruct Hs2.
  destruct (RemapState.texture_hash s2 !! _) eqn:Hh; simpl; [split; [done|eauto]|].
  split; [|rewrite length_app; simpl; lia].
  constructor; simpl; try done.
  - intros h i. rewrite lookup_insert, length_app. simpl.
    case_decide; [intros [= <-]; lia|]. intros Hi%texture_hash_valid0. lia.
  - intros i t [Hi|[_ ->]]%lookup_snoc_Some; [eauto|done].
Qed.

Lemma hdr_clamp_texture_of_index (s : RemapState.t) (index : nat) :
  hdr_clamp_only s → index < length (RemapState.texture_cache s) →
  hdr_clamp_texture s (Z.of_nat index).
Proof.
  intros [] Hindex. split; [lia|]. rewrite Nat2Z.id.
  destruct (lookup_lt_is_Some_2 _ _ Hindex) as [texture Htexture].
  destruct (textures_valid0 _ _ Htexture) as [Himage Hsampler].
  destruct (lookup_lt_is_Some_2 _ _ Himage) as [image Himage'].
  destruct (lookup_lt_is_Some_2 _ _ Hsampler) as [sampler Hsampler'].
  exists texture, image, sampler. split_and!; eauto.
Qed.

(** A filled slot stays filled while the caches only grow. *)
Lemma hdr_clamp_texture_extends (s s' : RemapState.t) (index : Z) :
  extends s s' → hdr_clamp_texture s index → hdr_clamp_texture s' index.
Proof.
  intros [] (Hindex & texture & image & sampler & Ht & Hi & Hmode & Hs & Hclamp).
  split; [done|]. exists texture, image, sampler.
  split_and!; try done; by eapply prefix_lookup_Some.
Qed.

Lemma environment_slot_extends (s s' : RemapState.t) (path : string) (index : Z) :
  extends s s' → environment_slot s path index → environment_slot s' path index.
Proof.
  unfold environment_slot. case_decide; [done|]. apply hdr_clamp_texture_extends.
Qed.

Lemma emit_texture_if_hdr_clamp path type compression quality (s : RemapState.t) :
  hdr_clamp_only s →
  let emitted :=
    emit_texture_if (-1) {| Texture.path := path; Texture.swizzle := VkComponentMapping.rgba |}
      StockSampler.LinearClamp type compression quality TextureMode.HDR s in
  hdr_clamp_only emitted.2 ∧ environment_slot emitted.2 path emitted.1.
Proof.
  intros Hs. unfold emit_texture_if, environment_slot. simpl.
  case_decide; [done|].
  pose proof (emit_texture_hdr_clamp
    {| Texture.path := path; Texture.swizzle := VkComponentMapping.rgba |}
    type compression quality s Hs) as Hemit.
  destruct (emit_texture _ _ _ _ _ _ s) as [index s']. simpl in *.
  destruct Hemit. split; [done|]. by apply hdr_clamp_texture_of_index.
Qed.

Lemma emit_environment_spec cube reflection irradiance intensity fog_color fog_falloff
    compression quality (s : RemapState.t) :
  hdr_clamp_only s →
  let s' := emit_environment cube reflection irradiance intensity fog_color fog_falloff
                             compression quality s in
  ∃ env s3,
    rtc step s s3
    ∧ s' = RemapState.set_environment_cache (RemapState.environment_cache s ++ [env]) s3
    ∧ environment_slot s' cube (EmittedEnvironment.cube env)
    ∧ environment_slot s' reflection (EmittedEnvironment.reflection env)
    ∧ environment_slot s' irradiance (EmittedEnvironment.irradiance env).
Proof.
  intros Hs. unfold emit_environment.
  pose proof (emit_texture_if_hdr_clamp cube Textures.Emissive compression quality s Hs) as H1.
  pose proof (emit_texture_if_steps (-1)
    {| Texture.path := cube; Texture.swizzle := VkComponentMapping.rgba |}
    StockSampler.LinearClamp Textures.Emissive compression quality TextureMode.HDR s) as S1.
  destruct (emit_texture_if _ _ _ _ _ _ _ s) as [env_cube s1]. simpl in H1, S1.
  destruct H1 as [Hs1 Hcube].
  pose proof (emit_texture_if_hdr_clamp reflection Textures.Emissive compression quality s1 Hs1)
    as H2.
  pose proof (emit_texture_if_steps (-1)
    {| Texture.path := reflection; Texture.swizzle := VkComponentMapping.rgba |}
    StockSampler.LinearClamp Textures.Emissive compression quality TextureMode.HDR s1) as S2.
  destruct (emit_texture_if _ _ _ _ _ _ _ s1) as [env_reflection s2]. simpl in H2, S2.
  destruct H2 as [Hs2 Hreflection].
  pose proof (emit_texture_if_hdr_clamp irradiance Textures.Emissive compression quality s2 Hs2)
    as H3.
  pose proof (emit_texture_if_steps (-1)
    {| Texture.path := irradiance; Texture.swizzle := VkComponentMapping.rgba |}
    StockSampler.LinearClamp Textures.Emissive compression quality TextureMode.HDR s2) as S3.
  destruct (emit_texture_if _ _ _ _ _ _ _ s2) as [env_irradiance s3]. simpl in H3, S3.
  destruct H3 as [Hs3 Hirradiance].
  assert (Hsteps : rtc step s s3) by (etrans; [done|]; etrans; done).
  pose proof (steps_extends _ _ Hsteps) as [].
  eexists _, s3. simpl. split_and!.
  - done.
  - by rewrite extends_environment_cache0.
  - refine (environment_slot_extends s1 s3 _ _ _ Hcube). apply steps_extends. by etrans.
  - refine (environment_slot_extends s2 s3 _ _ _ Hreflection). by apply steps_extends.
  - exact Hirradiance.
Qed.

Lemma prepare_state_inv (scene : SceneInformation.t) (options : ExportOptions.t)
    (prepared : RemapState.t) :
  prepare_state scene options = Ok prepared →
  ∃ material mesh,
    filter_input (λ mat, Ok (hash_MaterialInfo mat)) Remap.empty
                 (SceneInformation.materials scene) = Ok material
    ∧ filter_input (hash_Mesh material) Remap.empty (SceneInformation.meshes scene) = Ok mesh
    ∧ let base := RemapState.set_mesh mesh
                    (RemapState.set_material material (RemapState.init options)) in
      let environment := ExportOptions.environment options in
      if decide (Environment.cube environment = "")
      then prepared = base
      else prepared =
             emit_environment (Environment.cube environment)
               (Environment.reflection environment) (Environment.irradiance environment)
               (Environment.intensity environment)
               (Environment.fog_color environment) (Environment.fog_falloff environment)
               (Environment.compression environment)
               (Environment.texcomp_quality environment) base.
Proof.
  unfold prepare_state. intros Hprepare.
  apply bind_Ok in Hprepare as (material & Hmaterial & Hprepare).
  apply bind_Ok in Hprepare as (mesh & Hmesh & Hprepare).
  exists material, mesh. split_and!; [done|done|].
  simpl. case_decide; by injection Hprepare as <-.
Qed.

Lemma walk_scene_inv (scene : SceneInformation.t) (options : ExportOptions.t)
    (nodes : list Value) (walked : RemapState.t) :
  walk_scene scene options = Ok (nodes, walked) →
  ∃ prepared,
    prepare_state scene options = Ok prepared
    ∧ emit_nodes scene 0 (SceneInformation.nodes scene) prepared = Ok (nodes, walked)
    ∧ rtc update prepared walked.
Proof.
  unfold walk_scene. intros Hwalk.
  apply bind_Ok in Hwalk as (prepared & Hprepare & Hnodes).
  exists prepared. split_and!; [done|done|]. by eapply emit_nodes_updates.
Qed.

(** The analysis fills in [loaded_image] and nothing else. *)
Lemma analyze_images_lookup (images images' : list EmittedImage.t) :
  analyze_images images = Ok images' →
  length images' = length images
  ∧ ∀ i image, images !! i = Some image →
      ∃ image', images' !! i = Some image'
                ∧ EmittedImage.mode image' = EmittedImage.mode image
                ∧ EmittedImage.target_relpath image' = EmittedImage.target_relpath image
                ∧ EmittedImage.target_mime image' = EmittedImage.target_mime image.
Proof.
  revert images'. induction images as [|first images IH]; intros images' Hanalyze;
    simpl in Hanalyze.
  { injection Hanalyze as <-. split; [done|]. intros i image. by rewrite lookup_nil. }
  apply bind_Ok in Hanalyze as (loaded & _ & Hanalyze).
  apply bind_Ok in Hanalyze as (rest & [Hlen Hrest]%IH & Hanalyze).
  injection Hanalyze as <-. split; [simpl; by rewrite Hlen|].
  intros [|i] image Hi; simpl in *.
  - injection Hi as <-. eexists. by split_and!.
  - eauto.
Qed.

(** ** Members of the document *)

Lemma document_no_extras scene (state : RemapState.t) nodes images meshes :
  RemapState.environment_cache state = [] →
  has_member "extras" (document scene state nodes images meshes) = false.
Proof.
  intros Henvironment. unfold document. rewrite Henvironment.
  by destruct (SceneInformation.lights scene).
Qed.

Lemma document_extras scene (state : RemapState.t) nodes images meshes env environments :
  RemapState.environment_cache state = env :: environments →
  find_member "extras" (document scene state nodes images meshes)
  = Some (JObject [("environments", JArray (environment_json <$> env :: environments))]).
Proof.
  intros Henvironment. unfold document. rewrite Henvironment.
  by destruct (SceneInformation.lights scene).
Qed.

Lemma document_materials scene (state : RemapState.t) nodes images meshes :
  find_member "materials" (document scene state nodes images meshes)
  = Some (JArray (material_json <$> RemapState.material_cache state)).
Proof.
  unfold document.
  by destruct (SceneInformation.lights scene), (RemapState.environment_cache state).
Qed.

Lemma document_accessors scene (state : RemapState.t) nodes images meshes :
  find_member "accessors" (document scene state nodes images meshes)
  = Some (JArray (accessor_json <$> RemapState.accessor_cache state)).
Proof.
  unfold document.
  by destruct (SceneInformation.lights scene), (RemapState.environment_cache state).
Qed.

Lemma environment_slot_analyzed (walked : RemapState.t) image_cache path index :
  analyze_images (RemapState.image_cache walked) = Ok image_cache →
  environment_slot walked path index →
  environment_slot (RemapState.set_image_cache image_cache walked) path index.
Proof.
  intros [_ Hlookup]%analyze_images_lookup. unfold environment_slot.
  case_decide; [done|].
  intros (Hindex & texture & image & sampler & Ht & Hi & Hmode & Hs & Hclamp).
  destruct (Hlookup _ _ Hi) as (image' & Hi' & Hmode' & _).
  split; [done|]. exists texture, image', sampler. simpl.
  split_and!; try done. congruence.
Qed.

(** C10, X14.  An environment record is emitted exactly when
    [options.environment.cube] is a non-empty path.  With an empty cube path
    the environment cache stays empty and the document has no "extras"
    member, whatever the reflection and irradiance paths are.  With a
    non-empty cube path there is one environment record, it is the single
    element of extras.environments, its cube texture is emitted, and the
    reflection and irradiance textures are emitted just when their own path
    is non-empty; each emitted texture has an image in HDR mode and the
    LinearClamp sampler. *)
Theorem environment_emitted_iff_cube (fs : Filesystem.t) (scene : SceneInformation.t)
    (path : string) (options : ExportOptions.t) (exported : Exported.t) :
  export_scene_to_glb fs scene path options = Ok exported →
  let environment := ExportOptions.environment options in
  let s := Exported.state exported in
  ∃ doc,
    Exported.document exported = JObject doc
    ∧ (Environment.cube environment = "" →
         RemapState.environment_cache s = [] ∧ has_member "extras" doc = false)
    ∧ (Environment.cube environment ≠ "" →
         ∃ env,
           RemapState.environment_cache s = [env]
           ∧ find_member "extras" doc
             = Some (JObject [("environments", JArray [environment_json env])])
           ∧ hdr_clamp_texture s (EmittedEnvironment.cube env)
           ∧ environment_slot s (Environment.reflection environment)
                              (EmittedEnvironment.reflection env)
           ∧ environment_slot s (Environment.irradiance environment)
                              (EmittedEnvironment.irradiance env)).
Proof.
  intros Hexport environment s.
  destruct (export_scene_to_glb_inv _ _ _ _ _ Hexport)
    as (nodes & walked & image_cache & images & meshes & Hwalk & Hanalyze & Hstate & _
        & Hdoc & _).
  destruct (walk_scene_inv _ _ _ _ Hwalk) as (prepared & Hprepare & _ & Hupdates).
  apply updates_extends in Hupdates.
  destruct (prepare_state_inv _ _ _ Hprepare) as (material & mesh & _ & _ & Hprepared).
  simpl in Hprepared. fold environment in Hprepared.
  eexists. split; [exact Hdoc|]. subst s. rewrite Hstate.
  split.
  - intros Hcube. rewrite decide_True in Hprepared by done.
    assert (Hempty : RemapState.environment_cache
                       (RemapState.set_image_cache image_cache walked) = []).
    { simpl. rewrite (extends_environment_cache _ _ Hupdates). by subst prepared. }
    split; [done|]. by apply document_no_extras.
  - intros Hcube. rewrite decide_False in Hprepared by done.
    destruct (emit_environment_spec (Environment.cube environment)
                (Environment.reflection environment) (Environment.irradiance environment)
                (Environment.intensity environment) (Environment.fog_color environment)
                (Environment.fog_falloff environment) (Environment.compression environment)
                (Environment.texcomp_quality environment) _
                (hdr_clamp_only_init options material mesh))
      as (env & s3 & Hsteps & Hs' & Hslot_cube & Hslot_reflection & Hslot_irradiance).
    rewrite <- Hprepared in Hs', Hslot_cube, Hslot_reflection, Hslot_irradiance.
    assert (Hcache : RemapState.environment_cache
                       (RemapState.set_image_cache image_cache walked) = [env]).
    { simpl. rewrite (extends_environment_cache _ _ Hupdates). by rewrite Hs'. }
    exists env. split_and!.
    + done.
    + by rewrite (document_extras _ _ _ _ _ env [] Hcache).
    + pose proof (environment_slot_analyzed walked image_cache _ _ Hanalyze
                    (environment_slot_extends _ _ _ _ Hupdates Hslot_cube)) as Hslot.
      unfold environment_slot in Hslot. by rewrite decide_False in Hslot.
    + by eapply environment_slot_analyzed, environment_slot_extends.
    + by eapply environment_slot_analyzed, environment_slot_extends.
Qed.

(** ** The material cache along the walk *)

Lemma material_count_cons (x : nat) (l : list nat) :
  material_count (x :: l) = max (S x) (material_count l).
Proof. reflexivity. Qed.

Lemma material_count_app (l : list nat) (x : nat) :
  material_count (l ++ [x]) = max (material_count l) (S x).
Proof.
  induction l as [|y l IH].
  - rewrite app_nil_l, material_count_cons. unfold material_count. simpl. lia.
  - rewrite <- app_comm_cons, !material_count_cons, IH. lia.
Qed.

Lemma material_count_elem_of (l : list nat) (x : nat) : x ∈ l → S x ≤ material_count l.
Proof.
  induction 1 as [x l|x y l _ IH]; rewrite material_count_cons; lia.
Qed.

Lemma material_count_bound (l : list nat) (i : nat) :
  i < material_count l → ∃ x, x ∈ l ∧ i ≤ x.
Proof.
  induction l as [|y l IH]; [unfold material_count; simpl; lia|].
  rewrite material_count_cons.
  intros Hi. destruct (decide (i ≤ y)) as [Hle|Hgt].
  - exists y. split; [left|done].
  - destruct IH as (x & Hx & Hix); [lia|]. exists x. split; [by right|done].
Qed.

Lemma canonical_material_extends (s s' : RemapState.t) (r : nat) :
  extends s s' → canonical_material s' r = canonical_material s r.
Proof. intros []. unfold canonical_material. by rewrite extends_mesh0, extends_material0. Qed.

Lemma canonical_meshes_extends (s s' : RemapState.t) (meshes : list nat) :
  extends s s' → canonical_meshes s' meshes = canonical_meshes s meshes.
Proof. intros []. unfold canonical_meshes. by rewrite extends_mesh0. Qed.

Lemma omap_canonical_material_extends (s s' : RemapState.t) (walked : list nat) :
  extends s s' →
  omap (canonical_material s') walked = omap (canonical_material s) walked.
Proof.
  intros Hext. induction walked as [|r walked IH]; [done|].
  csimpl. by rewrite IH, (canonical_material_extends s s').
Qed.

(** What [emit_mesh] does to the material cache: nothing, unless the mesh
    has a material that was not emitted before. *)
Lemma emit_mesh_materials (r : nat) (s s' : RemapState.t) :
  emit_mesh r s = Ok s' →
  RemapState.mesh_hash s' = RemapState.mesh_hash s
  ∧ match canonical_material s r with
    | Some rm =>
        RemapState.material_hash s' = {[rm]} ∪ RemapState.material_hash s
        ∧ if decide (rm ∈ RemapState.material_hash s)
          then RemapState.material_cache s' = RemapState.material_cache s
          else ∃ output,
                 RemapState.material_cache s'
                 = <[rm := output]>
                     (resize (max (length (RemapState.material_cache s)) (rm + 1))
                             EmittedMaterial.default (RemapState.material_cache s))
    | None =>
        RemapState.material_hash s' = RemapState.material_hash s
        ∧ RemapState.material_cache s' = RemapState.material_cache s
    end.
Proof.
  intros (mesh & emit0 & index_accessor & s1 & s2 & position_buffer & s3 & attribute_buffer
          & s4 & emit & s5 & Hmesh & Hindex & Hmaterial & Hposition & Hattribute & Hattributes
          & ->)%emit_mesh_inv.
  (* before the material stage *)
  apply mesh_index_stage_steps in Hindex.
  pose proof (steps_same_records _ _ Hindex) as Hsame1.
  pose proof (steps_extends _ _ Hindex) as Hext1.
  destruct Hsame1, Hext1. simpl in *.
  (* after the material stage *)
  pose proof (mesh_position_stage_steps mesh s2) as Hp. rewrite Hposition in Hp.
  pose proof (mesh_attribute_stage_steps mesh s3) as Ha. rewrite Hattribute in Ha.
  apply emit_attributes_steps in Hattributes.
  assert (Hafter : rtc step s2 s5) by (etrans; [done|]; etrans; done).
  destruct (steps_same_records _ _ Hafter).
  rewrite same_mesh_hash1, same_material_hash1, same_material_cache1.
  (* the material stage *)
  unfold canonical_material. rewrite Hmesh.
  unfold mesh_material_stage in Hmaterial.
  destruct (Mesh.has_material mesh).
  2:{ injection Hmaterial as <-. by rewrite same_mesh_hash0, same_material_hash0. }
  apply bind_Ok in Hmaterial as (rm & Hrm%at_index_Ok & Hmaterial).
  rewrite extends_material0 in Hrm. rewrite Hrm.
  rewrite same_material_hash0 in Hmaterial.
  destruct (decide (rm ∈ RemapState.material_hash s)) as [Hin|Hin].
  { injection Hmaterial as <-.
    rewrite same_mesh_hash0, same_material_hash0, same_material_cache0.
    split_and!; [done| |done]. clear -Hin. set_solver. }
  apply bind_Ok in Hmaterial as (s1' & Hemit & Hmaterial). injection Hmaterial as <-.
  apply emit_material_inv in Hemit as (material & s1'' & output & _ & Hsteps & ->).
  destruct (steps_same_records _ _ Hsteps). simpl in *.
  rewrite same_mesh_hash2, same_mesh_hash0.
  split_and!; [done| |].
  - by rewrite same_material_hash2, same_material_hash0.
  - exists output. by rewrite same_material_cache2, same_material_cache0.
Qed.

Lemma materials_walked_again (s : RemapState.t) (walked : list nat) (r : nat) :
  materials_walked s walked → r ∈ walked → materials_walked s (walked ++ [r]).
Proof.
  intros [Hmesh Hmaterial Hcount Hdefault] Hr.
  assert (Hsub : ∀ i, i ∈ omap (canonical_material s) [r] →
                      i ∈ omap (canonical_material s) walked).
  { intros i (x & ->%list_elem_of_singleton & Hx)%list_elem_of_omap.
    apply list_elem_of_omap. eauto. }
  constructor.
  - intros r'. rewrite Hmesh, elem_of_app, list_elem_of_singleton. naive_solver.
  - intros i. rewrite Hmaterial, omap_app, elem_of_app. naive_solver.
  - rewrite Hcount, omap_app. csimpl.
    destruct (canonical_material s r) as [rm|] eqn:Hrm; [|by rewrite app_nil_r].
    rewrite material_count_app.
    assert (S rm ≤ material_count (omap (canonical_material s) walked)); [|lia].
    apply material_count_elem_of, Hsub. csimpl. rewrite Hrm. by left.
  - done.
Qed.

Lemma materials_walked_emit (s s' : RemapState.t) (walked : list nat) (r : nat) :
  materials_walked s walked → r ∉ RemapState.mesh_hash s →
  emit_mesh r s = Ok s' →
  materials_walked
    (RemapState.set_mesh_hash ({[r]} ∪ RemapState.mesh_hash s') s') (walked ++ [r]).
Proof.
  intros [Hmesh Hmaterial Hcount Hdefault] Hr Hemit.
  pose proof (updates_extends _ _ (emit_mesh_updates _ _ _ Hemit)) as Hext.
  destruct (emit_mesh_materials _ _ _ Hemit) as [Hmesh_hash Heffect].
  assert (Hcanonical : ∀ l : list nat, omap (canonical_material
            (RemapState.set_mesh_hash ({[r]} ∪ RemapState.mesh_hash s') s')) l
            = omap (canonical_material s) l).
  { intros l. by apply (omap_canonical_material_extends s s'). }
  constructor; rewrite ?Hcanonical; simpl.
  - intros r'. rewrite Hmesh_hash, elem_of_union, elem_of_singleton, Hmesh, elem_of_app,
      list_elem_of_singleton. naive_solver.
  - intros i. rewrite omap_app, elem_of_app. csimpl.
    destruct (canonical_material s r) as [rm|]; destruct Heffect as [-> Hcache].
    + rewrite elem_of_union, elem_of_singleton, Hmaterial, list_elem_of_singleton.
      naive_solver.
    + rewrite Hmaterial, elem_of_nil. naive_solver.
  - rewrite omap_app. csimpl.
    destruct (canonical_material s r) as [rm|]; destruct Heffect as [Hhash Hcache].
    + rewrite material_count_app, <- Hcount.
      destruct (decide (rm ∈ RemapState.material_hash s)) as [Hin|Hin].
      * rewrite Hcache.
        apply Hmaterial, material_count_elem_of in Hin. rewrite <- Hcount in Hin. lia.
      * destruct Hcache as [output ->]. rewrite length_insert, length_resize. lia.
    + by rewrite app_nil_r, Hcache.
  - intros i Hi Hnotin.
    destruct (canonical_material s r) as [rm|]; destruct Heffect as [Hhash Hcache].
    + rewrite Hhash in Hnotin.
      apply not_elem_of_union in Hnotin as [Hne%not_elem_of_singleton Hnotin].
      destruct (decide (rm ∈ RemapState.material_hash s)) as [Hin|Hin].
      * rewrite Hcache in Hi |- *. by apply Hdefault.
      * destruct Hcache as [output Hcache]. rewrite Hcache in Hi |- *.
        rewrite length_insert, length_resize in Hi.
        rewrite list_lookup_insert_ne by done.
        destruct (decide (i < length (RemapState.material_cache s))) as [Hold|Hnew].
        -- rewrite lookup_resize by lia. by apply Hdefault.
        -- rewrite lookup_resize_new by lia. done.
    + rewrite Hhash in Hnotin. rewrite Hcache in Hi |- *. by apply Hdefault.
Qed.

Lemma emit_meshes_loop_materials meshes emit_hash mesh_group (s : RemapState.t)
    emit_hash' mesh_group' s' (walked : list nat) :
  emit_meshes_loop meshes emit_hash mesh_group s = Ok (emit_hash', mesh_group', s') →
  materials_walked s walked →
  materials_walked s' (walked ++ canonical_meshes s meshes)
  ∧ length (canonical_meshes s meshes) = length meshes.
Proof.
  revert emit_hash mesh_group s walked.
  induction meshes as [|mesh meshes IH]; intros emit_hash mesh_group s walked Hloop Hwalked;
    simpl in Hloop.
  { injection Hloop as <- <- <-. by rewrite app_nil_r. }
  apply bind_Ok in Hloop as (r & Hr%at_index_Ok & Hloop).
  apply bind_Ok in Hloop as (s1 & Hmesh & Hloop).
  assert (Hs1 : materials_walked s1 (walked ++ [r]) ∧ extends s s1).
  { case_decide as Hin.
    - injection Hmesh as <-. split; [|apply extends_refl].
      apply materials_walked_again; [done|]. by apply Hwalked.
    - apply bind_Ok in Hmesh as (s0 & Hemit & Hmesh). injection Hmesh as <-.
      split; [by apply (materials_walked_emit s)|].
      eapply extends_trans; [by eapply updates_extends, emit_mesh_updates|].
      apply update_extends, update_mesh_hash. }
  destruct Hs1 as [Hs1 Hext].
  destruct (IH _ _ _ _ Hloop Hs1) as [Hs' Hlen].
  rewrite (canonical_meshes_extends s s1) in Hs', Hlen by done.
  assert (Hcons : canonical_meshes s (mesh :: meshes) = r :: canonical_meshes s meshes).
  { unfold canonical_meshes. csimpl. by rewrite Hr. }
  rewrite Hcons, <- app_assoc in *. simpl. split; [done|]. by rewrite Hlen.
Qed.

Lemma materials_walked_frame (s s' : RemapState.t) (walked : list nat) :
  RemapState.mesh s' = RemapState.mesh s →
  RemapState.material s' = RemapState.material s →
  RemapState.mesh_hash s' = RemapState.mesh_hash s →
  RemapState.material_hash s' = RemapState.material_hash s →
  RemapState.material_cache s' = RemapState.material_cache s →
  materials_walked s walked → materials_walked s' walked.
Proof.
  intros Hmesh Hmaterial Hmesh_hash Hmaterial_hash Hcache [H1 H2 H3 H4].
  assert (Hcanonical : ∀ r, canonical_material s' r = canonical_material s r).
  { intros r. unfold canonical_material. by rewrite Hmesh, Hmaterial. }
  assert (Homap : omap (canonical_material s') walked = omap (canonical_material s) walked).
  { clear -Hcanonical. induction walked as [|r walked IH]; [done|].
    csimpl. by rewrite IH, Hcanonical. }
  constructor; rewrite ?Homap, ?Hmesh_hash, ?Hmaterial_hash, ?Hcache; done.
Qed.

Lemma emit_nodes_materials scene nodes index (s : RemapState.t) ns s' (walked : list nat) :
  emit_nodes scene index nodes s = Ok (ns, s') →
  materials_walked s walked →
  materials_walked s' (walked ++ walked_meshes s nodes).
Proof.
  revert index s ns s' walked.
  induction nodes as [|node nodes IH]; intros index s ns s' walked Hnodes Hwalked;
    simpl in Hnodes.
  { injection Hnodes as <- <-. unfold walked_meshes. simpl. by rewrite app_nil_r. }
  apply bind_Ok in Hnodes as ([n s1] & Hnode & Hnodes).
  apply bind_Ok in Hnodes as ([ns' s2] & Hrest & Hnodes). injection Hnodes as <- <-.
  pose proof (updates_extends _ _ (emit_node_updates _ _ _ _ _ _ Hnode)) as Hext.
  assert (Hs1 : materials_walked s1 (walked ++ canonical_meshes s (Node.meshes node))).
  { unfold emit_node in Hnode.
    apply bind_Ok in Hnode as ([members s1'] & Hmeshes & Hnode). injection Hnode as _ <-.
    destruct (Node.meshes node) as [|m meshes] eqn:Hms.
    { injection Hmeshes as _ <-. unfold canonical_meshes. simpl. by rewrite app_nil_r. }
    apply bind_Ok in Hmeshes as ([group s1''] & Hgroup & Hmeshes).
    injection Hmeshes as _ <-.
    unfold emit_meshes in Hgroup.
    apply bind_Ok in Hgroup as ([[emit_hash mesh_group] s0] & Hloop & Hgroup).
    destruct (emit_meshes_loop_materials _ _ _ _ _ _ _ _ Hloop Hwalked) as [Hs0 _].
    destruct (RemapState.mesh_group_hash s0 !! _); injection Hgroup as _ <-; [done|].
    by eapply materials_walked_frame; [..|exact Hs0]. }
  specialize (IH _ _ _ _ _ Hrest Hs1).
  unfold walked_meshes in *. csimpl.
  rewrite <- app_assoc in IH.
  change (mbind (M := list) ?f ?l) with (l ≫= f) in *.
  replace (nodes ≫= λ node0, canonical_meshes s (Node.meshes node0))
    with (nodes ≫= λ node0, canonical_meshes s1 (Node.meshes node0)); [done|].
  clear -Hext. induction nodes as [|n nodes IH]; [done|].
  csimpl. by rewrite IH, (canonical_meshes_extends s s1).
Qed.

Lemma walked_meshes_extends (s s' : RemapState.t) (nodes : list Node.t) :
  extends s s' → walked_meshes s' nodes = walked_meshes s nodes.
Proof.
  intros Hext. unfold walked_meshes.
  induction nodes as [|n nodes IH]; [done|].
  csimpl. by rewrite IH, (canonical_meshes_extends s s').
Qed.

Lemma prepare_state_materials (scene : SceneInformation.t) (options : ExportOptions.t)
    (prepared : RemapState.t) :
  prepare_state scene options = Ok prepared → materials_walked prepared [].
Proof.
  intros (material & mesh & _ & _ & Hprepared)%prepare_state_inv. simpl in Hprepared.
  set (base := RemapState.set_mesh mesh
                 (RemapState.set_material material (RemapState.init options))) in *.
  assert (Hbase : materials_walked base []).
  { constructor; simpl; [set_solver|set_solver|done|]. intros i Hi. simpl in Hi. lia. }
  case_decide as Hcube; subst prepared; [done|].
  destruct (emit_environment_spec (Environment.cube (ExportOptions.environment options))
              (Environment.reflection (ExportOptions.environment options))
              (Environment.irradiance (ExportOptions.environment options))
              (Environment.intensity (ExportOptions.environment options))
              (Environment.fog_color (ExportOptions.environment options))
              (Environment.fog_falloff (ExportOptions.environment options))
              (Environment.compression (ExportOptions.environment options))
              (Environment.texcomp_quality (ExportOptions.environment options)) base
              (hdr_clamp_only_init options material mesh))
    as (env & s3 & Hsteps & -> & _).
  pose proof (steps_extends _ _ Hsteps) as Hext.
  apply steps_same_records in Hsteps.
  eapply materials_walked_frame; [..|exact Hbase]; simpl.
  - apply Hext.
  - apply Hext.
  - apply Hsteps.
  - apply Hsteps.
  - apply Hsteps.
Qed.

(** C9, X13.  After a successful export the "materials" array of the document
    has exactly M entries, M being 1 + the largest canonical material index
    referenced by a walked mesh and 0 when none is referenced: every
    referenced index is below M, and when M is positive M - 1 is referenced.
    An index below M that no walked mesh references holds the default
    material record (no texture slot, default uniforms, opaque, single
    sided), whose JSON entry is an object with an empty pbrMetallicRoughness
    member only, whatever the input material at that index contains; an
    index from M on has no entry. *)
Theorem materials_array_length (fs : Filesystem.t) (scene : SceneInformation.t)
    (path : string) (options : ExportOptions.t) (exported : Exported.t) :
  export_scene_to_glb fs scene path options = Ok exported →
  let s := Exported.state exported in
  let referenced := walked_materials s (SceneInformation.nodes scene) in
  let M := material_count referenced in
  ∃ doc materials,
    Exported.document exported = JObject doc
    ∧ find_member "materials" doc = Some (JArray materials)
    ∧ length materials = M
    ∧ (referenced = [] → M = 0)
    ∧ (∀ i, i ∈ referenced → i < M)
    ∧ (0 < M → M - 1 ∈ referenced)
    ∧ (∀ i, i < M → i ∉ referenced →
         RemapState.material_cache s !! i = Some EmittedMaterial.default
         ∧ materials !! i = Some (material_json EmittedMaterial.default))
    ∧ (∀ i, M ≤ i → materials !! i = None)
    ∧ material_json EmittedMaterial.default
      = JObject [("pbrMetallicRoughness", JObject [])]
    ∧ EmittedMaterial.default
      = {| EmittedMaterial.base_color := -1;
           EmittedMaterial.normal := -1;
           EmittedMaterial.metallic_roughness := -1;
           EmittedMaterial.occlusion := -1;
           EmittedMaterial.emissive := -1;
           EmittedMaterial.uniform_base_color := vec4_splat f32_1_0;
           EmittedMaterial.uniform_emissive_color := vec3_splat f32_0_0;
           EmittedMaterial.uniform_metallic := f32_1_0;
           EmittedMaterial.uniform_roughness := f32_1_0;
           EmittedMaterial.lod_bias := f32_0_0;
           EmittedMaterial.normal_scale := f32_1_0;
           EmittedMaterial.pipeline := DrawPipeline.Opaque;
           EmittedMaterial.two_sided := false |}.
Proof.
  intros Hexport s referenced M.
  destruct (export_scene_to_glb_inv _ _ _ _ _ Hexport)
    as (nodes & walked & image_cache & images & meshes & Hwalk & _ & Hstate & _ & Hdoc & _).
  destruct (walk_scene_inv _ _ _ _ Hwalk) as (prepared & Hprepare & Hnodes & Hupdates).
  apply updates_extends in Hupdates.
  pose proof (emit_nodes_materials _ _ _ _ _ _ _ Hnodes (prepare_state_materials _ _ _ Hprepare))
    as Hwalked.
  rewrite app_nil_l, <- (walked_meshes_extends _ _ _ Hupdates) in Hwalked.
  assert (Hreferenced : referenced = omap (canonical_material walked)
                                      (walked_meshes walked (SceneInformation.nodes scene))).
  { subst referenced s. by rewrite Hstate. }
  assert (Hcache : RemapState.material_cache s = RemapState.material_cache walked).
  { subst s. by rewrite Hstate. }
  destruct Hwalked as [_ Hhash Hcount Hdefault]. rewrite <- Hreferenced in Hhash, Hcount.
  fold M in Hcount.
  exists (document scene s nodes images meshes),
         (material_json <$> RemapState.material_cache s).
  split_and!.
  - done.
  - apply document_materials.
  - by rewrite length_fmap, Hcache.
  - subst M. by intros ->.
  - intros i Hi. by apply material_count_elem_of.
  - intros HM. destruct (material_count_bound referenced (M - 1)) as (x & Hx & Hle); [lia|].
    pose proof (material_count_elem_of _ _ Hx) as Hbound. fold M in Hbound.
    by replace (M - 1) with x by lia.
  - intros i Hi Hnotin.
    assert (Hentry : RemapState.material_cache s !! i = Some EmittedMaterial.default).
    { rewrite Hcache. apply Hdefault; [lia|]. by rewrite Hhash. }
    split; [done|]. by rewrite list_lookup_fmap, Hentry.
  - intros i Hi. apply lookup_ge_None. rewrite length_fmap, Hcache. lia.
  - reflexivity.
  - reflexivity.
Qed.

(** ** Position accessors and their bounds *)

Lemma set_accessor_type_typed (accessor accessor' : EmittedAccessor.t) (format : VkFormat) :
  set_accessor_type accessor format = Ok accessor' →
  accessor_components (EmittedAccessor.type accessor') ≠ 0.
Proof.
  unfold set_accessor_type. intros Hset.
  apply bind_Ok in Hset as (component & _ & Hset).
  apply bind_Ok in Hset as (type & Htype & Hset). injection Hset as <-. simpl.
  destruct format; simpl in Htype; try discriminate; by injection Htype as <-.
Qed.

Lemma emit_accessor_spec view_index format offset stride count (s : RemapState.t) index s' :
  emit_accessor view_index format offset stride count s = Ok (index, s') →
  RemapState.accessor_hash s' !! digest (accessor_key view_index format offset stride count)
  = Some index
  ∧ RemapState.accessor_hash s ⊆ RemapState.accessor_hash s'
  ∧ RemapState.accessor_cache s `prefix_of` RemapState.accessor_cache s'
  ∧ (accessors_typed s → accessors_typed s').
Proof.
  unfold emit_accessor. intros Hacc.
  destruct (RemapState.accessor_hash s !! _) eqn:Hh.
  { injection Hacc as <- <-. by split_and!. }
  apply bind_Ok in Hacc as (acc & Htyped%set_accessor_type_typed & Hacc).
  injection Hacc as <- <-. simpl. split_and!.
  - by rewrite lookup_insert_eq.
  - by apply insert_subseteq.
  - by apply prefix_app_r.
  - intros Hs i a [Hi|[_ Hi]]%lookup_app_Some; [by eapply Hs|].
    destruct (i - length (RemapState.accessor_cache s)) as [|k]; [|done].
    by injection Hi as <-.
Qed.

Lemma step_accessors_typed (s s' : RemapState.t) :
  step s s' → accessors_typed s → accessors_typed s'.
Proof.
  destruct 1 as [view stride s|view_index format offset stride count s index s' Hacc
                 |aabb index s|sampler s|texture type compression quality mode s
                 |h texture s Hh]; intros Hs.
  - unfold emit_buffer. by destruct (RemapState.buffer_hash s !! _).
  - by apply (emit_accessor_spec _ _ _ _ _ _ _ _ Hacc).
  - intros i a. simpl. destruct (decide (index = i)) as [->|Hne].
    + rewrite list_lookup_alter_eq.
      destruct (RemapState.accessor_cache s !! i) as [a0|] eqn:Hi; [|done].
      intros [= <-]. simpl. by eapply Hs.
    + rewrite list_lookup_alter_ne by done. apply Hs.
  - unfold emit_sampler. by destruct (RemapState.sampler_hash s !! _).
  - unfold emit_image. by destruct (RemapState.image_hash s !! _).
  - done.
Qed.

Lemma updates_accessors_typed (s s' : RemapState.t) :
  rtc update s s' → accessors_typed s → accessors_typed s'.
Proof.
  induction 1 as [|s1 s2 s3 Hupdate _ IH]; [done|].
  intros Hs. apply IH. destruct Hupdate as [s1 s2 Hstep| | | | | |]; try done.
  by eapply step_accessors_typed.
Qed.

Lemma emit_attributes_keeps mesh position_buffer attribute_buffer i attrs emit
    (s : RemapState.t) emit' s' :
  emit_attributes mesh position_buffer attribute_buffer i attrs emit s = Ok (emit', s') →
  Position ∉ attrs →
  EmittedMesh.attribute_accessor emit' Position = EmittedMesh.attribute_accessor emit Position
  ∧ RemapState.accessor_hash s ⊆ RemapState.accessor_hash s'
  ∧ RemapState.accessor_cache s `prefix_of` RemapState.accessor_cache s'.
Proof.
  revert i emit s. induction attrs as [|attr attrs IH]; intros i emit s Hloop Hnotin;
    simpl in Hloop.
  { by injection Hloop as <- <-. }
  apply not_elem_of_cons in Hnotin as [Hne Hnotin].
  case_decide as Hformat; [by eapply IH|].
  rewrite decide_False in Hloop by done.
  apply bind_Ok in Hloop as (count & _ & Hloop).
  apply bind_Ok in Hloop as ([accessor s1] & Hacc & Hloop).
  destruct (emit_accessor_spec _ _ _ _ _ _ _ _ Hacc) as (_ & Hhash & Hcache & _).
  destruct (IH _ _ _ Hloop Hnotin) as (Hemit & Hhash' & Hcache').
  split_and!.
  - rewrite Hemit. simpl. by rewrite decide_False.
  - by etrans.
  - by etrans.
Qed.

Lemma emit_attributes_position mesh position_buffer attribute_buffer i attrs emit
    (s : RemapState.t) emit' s' :
  emit_attributes mesh position_buffer attribute_buffer i attrs emit s = Ok (emit', s') →
  Position ∈ attrs → NoDup attrs →
  MeshAttributeLayout.format (Mesh.attribute_layout mesh Position) ≠ VK_FORMAT_UNDEFINED →
  ∃ index accessor,
    RemapState.accessor_hash s' !! digest (tuple_key (position_tuple mesh position_buffer))
    = Some index
    ∧ EmittedMesh.attribute_accessor emit' Position = Z.of_nat index
    ∧ RemapState.accessor_cache s' !! index = Some accessor
    ∧ EmittedAccessor.use_aabb accessor = true
    ∧ EmittedAccessor.aabb accessor = Mesh.static_aabb mesh.
Proof.
  revert i emit s. induction attrs as [|attr attrs IH]; intros i emit s Hloop Hin Hnodup Hdefined;
    simpl in Hloop.
  { by apply elem_of_nil in Hin. }
  apply NoDup_cons in Hnodup as [Hfirst Hnodup].
  destruct (decide (attr = Position)) as [->|Hne].
  - rewrite decide_False in Hloop by done.
    apply bind_Ok in Hloop as (count & Hcount & Hloop).
    apply bind_Ok in Hloop as ([index s1] & Hacc & Hloop).
    apply bind_Ok in Hloop as (accessor & Haccessor%at_index_Ok & Hloop).
    unfold divide in Hcount. case_decide; [done|]. injection Hcount as <-.
    destruct (emit_accessor_spec _ _ _ _ _ _ _ _ Hacc) as (Hkey & _ & _ & _).
    destruct (emit_attributes_keeps _ _ _ _ _ _ _ _ _ Hloop Hfirst)
      as (Hemit & Hhash & Hcache).
    simpl in Hhash, Hcache.
    exists index, (set_aabb (Mesh.static_aabb mesh) accessor). split_and!.
    + by eapply lookup_weaken.
    + rewrite Hemit. reflexivity.
    + eapply prefix_lookup_Some; [|done].
      by rewrite list_lookup_alter_eq, Haccessor.
    + done.
    + done.
  - apply elem_of_cons in Hin as [Heq|Hin]; [done|].
    case_decide as Hformat; [by eapply IH|].
    apply bind_Ok in Hloop as (count & _ & Hloop).
    apply bind_Ok in Hloop as ([accessor s1] & _ & Hloop).
    by eapply IH.
Qed.

Lemma MeshAttribute_order_Position : Position ∈ MeshAttribute_order ∧ NoDup MeshAttribute_order.
Proof.
  split.
  - rewrite MeshAttribute_order_perm. by left.
  - rewrite MeshAttribute_order_perm. compute_done.
Qed.

Lemma mesh_material_stage_mesh_cache mesh (s s' : RemapState.t) :
  mesh_material_stage mesh s = Ok s' → RemapState.mesh_cache s' = RemapState.mesh_cache s.
Proof.
  unfold mesh_material_stage. destruct (Mesh.has_material mesh); [|by intros [= <-]].
  intros Hstage. apply bind_Ok in Hstage as (rm & _ & Hstage).
  case_decide; [by injection Hstage as <-|].
  apply bind_Ok in Hstage as (s1 & Hemit & Hstage). injection Hstage as <-.
  apply emit_material_inv in Hemit as (material & s2 & output & _ & Hsteps & ->).
  apply steps_same_records in Hsteps. simpl. by rewrite (same_mesh_cache _ _ Hsteps).
Qed.

Lemma mesh_position_stage_view mesh (s : RemapState.t) :
  position_view (mesh_position_stage mesh s).2 mesh (mesh_position_stage mesh s).1.
Proof.
  unfold position_view, mesh_position_stage.
  destruct (Mesh.positions mesh) as [|b positions]; [done|].
  unfold emit_buffer.
  destruct (RemapState.buffer_hash s !! _) eqn:Hh; simpl; [done|].
  by rewrite lookup_insert_eq.
Qed.

Lemma position_view_extends (s s' : RemapState.t) mesh view :
  extends s s' → position_view s mesh view → position_view s' mesh view.
Proof.
  intros Hext. unfold position_view. destruct (Mesh.positions mesh); [done|].
  intros Hview. eapply lookup_weaken; [done|apply Hext].
Qed.

Lemma position_view_agree (s : RemapState.t) mesh mesh' view view' :
  Mesh.positions mesh' = Mesh.positions mesh →
  Mesh.position_stride mesh' = Mesh.position_stride mesh →
  position_view s mesh view → position_view s mesh' view' → view' = view.
Proof.
  unfold position_view. intros -> ->. destruct (Mesh.positions mesh); [congruence|].
  congruence.
Qed.

(** What [emit_mesh] leaves behind for a mesh with positions in a defined
    format: the record of the mesh names the accessor that the accessor
    hash has for the position tuple, and that accessor carries the bounds
    of this mesh.  No other mesh record changes. *)
Lemma emit_mesh_position (r : nat) (s s' : RemapState.t) (mesh : Mesh.t) :
  emit_mesh r s = Ok s' →
  Remap.info (RemapState.mesh s) !! r = Some mesh →
  MeshAttributeLayout.format (Mesh.attribute_layout mesh Position) ≠ VK_FORMAT_UNDEFINED →
  ∃ view index emit accessor,
    position_view s' mesh view
    ∧ RemapState.accessor_hash s' !! digest (tuple_key (position_tuple mesh view)) = Some index
    ∧ RemapState.mesh_cache s' !! r = Some emit
    ∧ EmittedMesh.attribute_accessor emit Position = Z.of_nat index
    ∧ RemapState.accessor_cache s' !! index = Some accessor
    ∧ EmittedAccessor.use_aabb accessor = true
    ∧ EmittedAccessor.aabb accessor = Mesh.static_aabb mesh
    ∧ ∀ r' emit', r' ≠ r → RemapState.mesh_cache s !! r' = Some emit' →
        RemapState.mesh_cache s' !! r' = Some emit'.
Proof.
  intros (mesh' & emit0 & index_accessor & s1 & s2 & position_buffer & s3 & attribute_buffer
          & s4 & emit & s5 & Hmesh & Hindex & Hmaterial & Hposition & Hattribute & Hattributes
          & ->)%emit_mesh_inv Hr Hdefined.
  assert (mesh' = mesh) as -> by congruence.
  destruct MeshAttribute_order_Position as [Hin Hnodup].
  destruct (emit_attributes_position _ _ _ _ _ _ _ _ _ Hattributes Hin Hnodup Hdefined)
    as (index & accessor & Hkey & Hemit & Haccessor & Huse & Haabb).
  (* the mesh cache *)
  apply mesh_index_stage_steps, steps_same_records in Hindex.
  apply mesh_material_stage_mesh_cache in Hmaterial.
  pose proof (mesh_position_stage_steps mesh s2) as Hp. rewrite Hposition in Hp.
  pose proof (mesh_attribute_stage_steps mesh s3) as Ha. rewrite Hattribute in Ha.
  simpl in Hp, Ha.
  pose proof (emit_attributes_steps _ _ _ _ _ _ _ _ _ Hattributes) as Hloop.
  assert (Hafter : rtc step s3 s5) by (etrans; done).
  assert (Hcache : RemapState.mesh_cache s5
                   = resize (max (length (RemapState.mesh_cache s)) (r + 1))
                            EmittedMesh.default (RemapState.mesh_cache s)).
  { rewrite (same_mesh_cache _ _ (steps_same_records _ _ Hafter)).
    rewrite (same_mesh_cache _ _ (steps_same_records _ _ Hp)).
    rewrite Hmaterial. by rewrite (same_mesh_cache _ _ Hindex). }
  (* the view *)
  pose proof (mesh_position_stage_view mesh s2) as Hview.
  rewrite Hposition in Hview. simpl in Hview.
  exists position_buffer, index, emit, accessor. simpl. split_and!; try done.
  - change (position_view s5 mesh position_buffer).
    by apply (position_view_extends s3); [apply steps_extends|].
  - apply list_lookup_insert_eq. rewrite Hcache, length_resize. lia.
  - intros r' emit' Hne Hr'.
    pose proof (lookup_lt_Some _ _ _ Hr') as Hlt.
    rewrite list_lookup_insert_ne by done. rewrite Hcache.
    by rewrite lookup_resize by lia.
Qed.

Lemma accessor_json_bounds (accessor : EmittedAccessor.t) :
  EmittedAccessor.use_aabb accessor = true →
  accessor_components (EmittedAccessor.type accessor) ≠ 0 →
  ∃ members,
    accessor_json accessor = JObject members
    ∧ find_member "min" members
      = Some (bounds_json (accessor_components (EmittedAccessor.type accessor))
                          (AABB.minimum (EmittedAccessor.aabb accessor)))
    ∧ find_member "max" members
      = Some (bounds_json (accessor_components (EmittedAccessor.type accessor))
                          (AABB.maximum (EmittedAccessor.aabb accessor))).
Proof.
  intros Huse Hcomponents. unfold accessor_json. rewrite Huse.
  destruct (accessor_components (EmittedAccessor.type accessor)) as [|n]; [done|].
  eexists. split; [reflexivity|]. split; reflexivity.
Qed.

(** C8, X12.  Two distinct canonical meshes with positions in a defined format
    are emitted one after the other (anything the exporter does to its
    caches may happen in between, as long as the first mesh record stays).
    If their Position attributes resolve to the same (view, format, offset,
    stride, count) tuple, then both mesh records name one and the same
    accessor, whatever the bounds of the two meshes are; that accessor
    carries the bounds of the mesh emitted last, and the min and max arrays
    of its JSON object are the corners of that last box. *)
Theorem shared_position_accessor_keeps_last_aabb (r1 r2 : nat) (m1 m2 : Mesh.t)
    (s s1 s1' s2 : RemapState.t) (v1 v2 : nat) :
  accessors_typed s →
  Remap.info (RemapState.mesh s) !! r1 = Some m1 →
  Remap.info (RemapState.mesh s) !! r2 = Some m2 →
  r1 ≠ r2 →
  MeshAttributeLayout.format (Mesh.attribute_layout m1 Position) ≠ VK_FORMAT_UNDEFINED →
  MeshAttributeLayout.format (Mesh.attribute_layout m2 Position) ≠ VK_FORMAT_UNDEFINED →
  emit_mesh r1 s = Ok s1 →
  rtc update s1 s1' →
  RemapState.mesh_cache s1' !! r1 = RemapState.mesh_cache s1 !! r1 →
  emit_mesh r2 s1' = Ok s2 →
  position_view s2 m1 v1 →
  position_view s2 m2 v2 →
  position_tuple m1 v1 = position_tuple m2 v2 →
  ∃ index emit1 emit2 accessor members,
    RemapState.mesh_cache s2 !! r1 = Some emit1
    ∧ RemapState.mesh_cache s2 !! r2 = Some emit2
    ∧ EmittedMesh.attribute_accessor emit1 Position = Z.of_nat index
    ∧ EmittedMesh.attribute_accessor emit2 Position = Z.of_nat index
    ∧ RemapState.accessor_cache s2 !! index = Some accessor
    ∧ EmittedAccessor.use_aabb accessor = true
    ∧ EmittedAccessor.aabb accessor = Mesh.static_aabb m2
    ∧ accessor_json accessor = JObject members
    ∧ accessor_components (EmittedAccessor.type accessor) ≠ 0
    ∧ find_member "min" members
      = Some (bounds_json (accessor_components (EmittedAccessor.type accessor))
                          (AABB.minimum (Mesh.static_aabb m2)))
    ∧ find_member "max" members
      = Some (bounds_json (accessor_components (EmittedAccessor.type accessor))
                          (AABB.maximum (Mesh.static_aabb m2))).
Proof.
  intros Htyped Hm1 Hm2 Hne Hdefined1 Hdefined2 Hemit1 Hbetween Hkept Hemit2 Hv1 Hv2 Htuple.
  pose proof (emit_mesh_updates _ _ _ Hemit1) as Hupdates1.
  pose proof (emit_mesh_updates _ _ _ Hemit2) as Hupdates2.
  pose proof (updates_extends _ _ Hupdates1) as Hext1.
  pose proof (updates_extends _ _ Hbetween) as Hext.
  pose proof (updates_extends _ _ Hupdates2) as Hext2.
  assert (Hlater : extends s1 s2) by (by eapply extends_trans).
  destruct (emit_mesh_position _ _ _ _ Hemit1 Hm1 Hdefined1)
    as (view1 & index1 & emit1 & accessor1 & Hview1 & Hkey1 & Hrecord1 & Hposition1 & _).
  assert (Hm2' : Remap.info (RemapState.mesh s1') !! r2 = Some m2).
  { by rewrite (extends_mesh _ _ Hext), (extends_mesh _ _ Hext1). }
  destruct (emit_mesh_position _ _ _ _ Hemit2 Hm2' Hdefined2)
    as (view2 & index2 & emit2 & accessor & Hview2 & Hkey2 & Hrecord2 & Hposition2
        & Haccessor & Huse & Haabb & Hothers).
  (* the views and the keys are those of the final state *)
  apply (position_view_extends _ _ _ _ Hlater) in Hview1.
  assert (view1 = v1) as ->.
  { by eapply (position_view_agree s2 m1 m1). }
  assert (view2 = v2) as ->.
  { by eapply (position_view_agree s2 m2 m2). }
  assert (index1 = index2) as ->.
  { eapply lookup_weaken in Hkey1; [|apply Hlater].
    rewrite Htuple in Hkey1. congruence. }
  assert (Htyped2 : accessors_typed s2).
  { apply (updates_accessors_typed s); [|done].
    etrans; [exact Hupdates1|]. by etrans. }
  specialize (Htyped2 _ _ Haccessor).
  destruct (accessor_json_bounds accessor Huse Htyped2) as (members & Hjson & Hmin & Hmax).
  rewrite Haabb in Hmin, Hmax.
  exists index2, emit1, emit2, accessor, members. split_and!; try done.
  apply Hothers; [done|]. by rewrite Hkept.
Qed.

(** ** Formats outside the accessor table *)

Lemma set_accessor_type_table (accessor accessor' : EmittedAccessor.t) (format : VkFormat) :
  set_accessor_type accessor format = Ok accessor' → in_accessor_table format.
Proof.
  unfold set_accessor_type. intros Hset.
  apply bind_Ok in Hset as (component & Hcomponent & Hset).
  apply bind_Ok in Hset as (type & Htype & _).
  split; by eexists.
Qed.









(** ** The remap tables *)

Lemma remap_sound_empty {T} (hash : T → outcome N) : remap_sound hash Remap.empty.
Proof.
  split.
  - intros h r. simpl. by rewrite lookup_empty.
  - intros r representative. simpl. by rewrite lookup_nil.
Qed.

Lemma filter_one_sound {T} (hash : T → outcome N) (h : N) (item : T) (output : Remap.t T) :
  hash item = Ok h → remap_sound hash output → remap_sound hash (filter_one h item output).
Proof.
  intros Hitem [Hfound Hstored]. unfold filter_one.
  destruct (Remap.hashmap output !! h) as [found|] eqn:Hh; [done|].
  split; simpl.
  - intros h' r [[<- <-]|[_ Hr]]%lookup_insert_Some.
    + exists item. split; [|done]. by rewrite lookup_app_r, Nat.sub_diag.
    + destruct (Hfound _ _ Hr) as (rep & Hrep & Hhash).
      exists rep. split; [by apply lookup_app_l_Some|done].
  - intros r rep [Hr|[Hlen Hr]]%lookup_app_Some.
    + destruct (Hstored _ _ Hr) as (h' & Hhash & Hh').
      exists h'. split; [done|]. rewrite lookup_insert_ne; [done|]. congruence.
    + destruct (r - length (Remap.info output)) as [|k] eqn:Hk; [|done].
      injection Hr as <-. exists h. split; [done|].
      replace r with (length (Remap.info output)) by lia. by rewrite lookup_insert_eq.
Qed.

Lemma filter_one_represented {T} (hash : T → outcome N) (h : N) (item : T)
    (output : Remap.t T) :
  hash item = Ok h → remap_sound hash output →
  represented hash (filter_one h item output) (length (Remap.to_index output)) item.
Proof.
  intros Hitem [Hfound _]. unfold represented, filter_one.
  destruct (Remap.hashmap output !! h) as [found|] eqn:Hh; simpl.
  - destruct (Hfound _ _ Hh) as (rep & Hrep & Hhash).
    exists found, rep, h. split_and!; try done. by rewrite lookup_app_r, Nat.sub_diag.
  - exists (length (Remap.info output)), item, h. split_and!; try done.
    + by rewrite lookup_app_r, Nat.sub_diag.
    + by rewrite lookup_app_r, Nat.sub_diag.
    + by rewrite lookup_insert_eq.
Qed.

Lemma filter_one_keeps {T} (hash : T → outcome N) (h : N) (item : T) (output : Remap.t T)
    (i : nat) (x : T) :
  represented hash output i x → represented hash (filter_one h item output) i x.
Proof.
  intros (r & rep & hx & Hi & Hrep & Hx & Hhash & Hmap). exists r, rep, hx.
  unfold filter_one. destruct (Remap.hashmap output !! h) eqn:Hh; simpl; split_and!; try done;
    try by apply lookup_app_l_Some.
  rewrite lookup_insert_ne; [done|]. congruence.
Qed.

Lemma filter_one_length {T} (h : N) (item : T) (output : Remap.t T) :
  length (Remap.to_index (filter_one h item output)) = S (length (Remap.to_index output)).
Proof.
  unfold filter_one. destruct (Remap.hashmap output !! h); simpl;
    rewrite length_app; simpl; lia.
Qed.

Lemma filter_input_represented {T} (hash : T → outcome N) (input : list T)
    (output remap : Remap.t T) :
  filter_input hash output input = Ok remap → remap_sound hash output →
  (∀ i item, input !! i = Some item →
     represented hash remap (length (Remap.to_index output) + i) item)
  ∧ (∀ i x, represented hash output i x → represented hash remap i x)
  ∧ remap_sound hash remap
  ∧ length (Remap.to_index remap) = length (Remap.to_index output) + length input.
Proof.
  revert output. induction input as [|first input IH]; intros output Hfilter Hsound;
    simpl in Hfilter.
  { injection Hfilter as <-. split_and!; [|done|done|simpl; lia].
    intros i item. by rewrite lookup_nil. }
  apply bind_Ok in Hfilter as (h & Hfirst & Hfilter).
  destruct (IH _ Hfilter (filter_one_sound hash h first output Hfirst Hsound))
    as (Hinput & Hkept & Hsound' & Hlength').
  pose proof (filter_one_length h first output) as Hlength.
  split_and!.
  - intros [|i] item Hi; simpl in Hi.
    + injection Hi as <-. rewrite Nat.add_0_r.
      by apply Hkept, filter_one_represented.
    + specialize (Hinput i item Hi). rewrite Hlength in Hinput.
      by replace (length (Remap.to_index output) + S i)
        with (S (length (Remap.to_index output)) + i) by lia.
  - intros i x Hx. by apply Hkept, filter_one_keeps.
  - done.
  - rewrite Hlength', Hlength. simpl. lia.
Qed.

(** X2.  [filter_input] on an empty table gives every input item a
    canonical index, in input order: the index list is as long as the
    input; the item stored at the canonical index of an input item has the
    fingerprint of that item; two input items with the same fingerprint
    have the same canonical index; and no two stored items have the same
    fingerprint. *)
Theorem filter_input_canonical {T} (hash : T → outcome N) (input : list T)
    (remap : Remap.t T) :
  filter_input hash Remap.empty input = Ok remap →
  length (Remap.to_index remap) = length input
  ∧ (∀ i item, input !! i = Some item →
       ∃ r representative h,
         Remap.to_index remap !! i = Some r
         ∧ Remap.info remap !! r = Some representative
         ∧ hash item = Ok h ∧ hash representative = Ok h)
  ∧ (∀ i j item item' h,
       input !! i = Some item → input !! j = Some item' →
       hash item = Ok h → hash item' = Ok h →
       Remap.to_index remap !! i = Remap.to_index remap !! j)
  ∧ (∀ r r' representative representative' h,
       Remap.info remap !! r = Some representative →
       Remap.info remap !! r' = Some representative' →
       hash representative = Ok h → hash representative' = Ok h →
       r = r').
Proof.
  intros Hfilter.
  destruct (filter_input_represented _ _ _ _ Hfilter (remap_sound_empty hash))
    as (Hinput & _ & [_ Hstored] & Hlength).
  simpl in Hinput, Hlength. split_and!.
  - done.
  - intros i item Hi.
    destruct (Hinput i item Hi) as (r & rep & h & Hr & Hrep & Hh & Hh' & _).
    by exists r, rep, h.
  - intros i j item item' h Hi Hj Hh Hh'.
    destruct (Hinput i item Hi) as (r & _ & h1 & -> & _ & Hh1 & _ & Hmap).
    destruct (Hinput j item' Hj) as (r' & _ & h2 & -> & _ & Hh2 & _ & Hmap').
    congruence.
  - intros r r' rep rep' h Hr Hr' Hh Hh'.
    destruct (Hstored _ _ Hr) as (h1 & Hh1 & Hmap).
    destruct (Hstored _ _ Hr') as (h2 & Hh2 & Hmap').
    congruence.
Qed.





(** ** The data of the buffer views *)




(** ** The states an export goes through *)

(** The exported state is reached from the fresh state with its two remap
    tables by cache updates, the assignment of the environment list in
    between, and the replacement of the image list by its analysed copy at
    the end. *)
Lemma export_scene_to_glb_path (fs : Filesystem.t) (scene : SceneInformation.t)
    (path : string) (options : ExportOptions.t) (exported : Exported.t) :
  export_scene_to_glb fs scene path options = Ok exported →
  ∃ material mesh s3 environments walked image_cache,
    rtc update (RemapState.set_mesh mesh
                  (RemapState.set_material material (RemapState.init options))) s3
    ∧ rtc update (RemapState.set_environment_cache environments s3) walked
    ∧ analyze_images (RemapState.image_cache walked) = Ok image_cache
    ∧ Exported.state exported = RemapState.set_image_cache image_cache walked.
Proof.
  intros Hexport.
  destruct (export_scene_to_glb_inv _ _ _ _ _ Hexport)
    as (nodes & walked & image_cache & images & meshes & Hwalk & Hanalyze & Hstate & _).
  destruct (walk_scene_inv _ _ _ _ Hwalk) as (prepared & Hprepare & _ & Hupdates).
  destruct (prepare_state_inv _ _ _ Hprepare) as (material & mesh & _ & _ & Hprepared).
  simpl in Hprepared.
  set (base := RemapState.set_mesh mesh
                 (RemapState.set_material material (RemapState.init options))) in *.
  case_decide as Hcube.
  - exists material, mesh, base, [], walked, image_cache.
    split_and!; [done| |done|done]. by rewrite Hprepared in Hupdates.
  - destruct (emit_environment_spec (Environment.cube (ExportOptions.environment options))
                (Environment.reflection (ExportOptions.environment options))
                (Environment.irradiance (ExportOptions.environment options))
                (Environment.intensity (ExportOptions.environment options))
                (Environment.fog_color (ExportOptions.environment options))
                (Environment.fog_falloff (ExportOptions.environment options))
                (Environment.compression (ExportOptions.environment options))
                (Environment.texcomp_quality (ExportOptions.environment options)) base
                (hdr_clamp_only_init options material mesh))
      as (env & s3 & Hsteps & Heq & _).
    rewrite <- Hprepared in Heq. rewrite Heq in Hupdates.
    exists material, mesh, s3, (RemapState.environment_cache base ++ [env]), walked,
           image_cache.
    split_and!; [by apply steps_updates|done|done|done].
Qed.


(** ** Deduplication *)

Lemma emit_buffer_hash (data : list byte) (stride : Z) (s : RemapState.t) :
  RemapState.buffer_hash (emit_buffer data stride s).2 !! digest [h_data data; h_u32 stride]
  = Some (emit_buffer data stride s).1.
Proof.
  unfold emit_buffer. destruct (RemapState.buffer_hash s !! _) eqn:Hh; simpl; [done|].
  by rewrite lookup_insert_eq.
Qed.

Lemma emit_sampler_hash (sampler : StockSampler.t) (s : RemapState.t) :
  RemapState.sampler_hash (emit_sampler sampler s).2
    !! digest [h_u32 (ecast_StockSampler sampler)]
  = Some (emit_sampler sampler s).1.
Proof.
  unfold emit_sampler. destruct (RemapState.sampler_hash s !! _) eqn:Hh; simpl; [done|].
  by rewrite lookup_insert_eq.
Qed.

Lemma emit_image_hash texture type compression quality mode (s : RemapState.t) :
  RemapState.image_hash (emit_image texture type compression quality mode s).2
    !! digest (image_key texture type compression quality mode)
  = Some (emit_image texture type compression quality mode s).1.
Proof.
  unfold emit_image. destruct (RemapState.image_hash s !! _) eqn:Hh; simpl; [done|].
  by rewrite lookup_insert_eq.
Qed.

Lemma emit_buffer_found (data : list byte) (stride : Z) (s : RemapState.t) (index : nat) :
  RemapState.buffer_hash s !! digest [h_data data; h_u32 stride] = Some index →
  emit_buffer data stride s = (index, s).
Proof. intros Hh. unfold emit_buffer. by rewrite Hh. Qed.

Lemma emit_sampler_found (sampler : StockSampler.t) (s : RemapState.t) (index : nat) :
  RemapState.sampler_hash s !! digest [h_u32 (ecast_StockSampler sampler)] = Some index →
  emit_sampler sampler s = (index, s).
Proof. intros Hh. unfold emit_sampler. by rewrite Hh. Qed.

Lemma emit_image_found texture type compression quality mode (s : RemapState.t) (index : nat) :
  RemapState.image_hash s !! digest (image_key texture type compression quality mode)
  = Some index →
  emit_image texture type compression quality mode s = (index, s).
Proof. intros Hh. unfold emit_image. by rewrite Hh. Qed.

(** The three lookups a repeated [emit_texture] makes all hit. *)
Lemma emit_texture_hash texture sampler type compression quality mode (s : RemapState.t) :
  let s' := (emit_texture texture sampler type compression quality mode s).2 in
  ∃ image_index sampler_index,
    RemapState.image_hash s' !! digest (image_key texture type compression quality mode)
    = Some image_index
    ∧ RemapState.sampler_hash s' !! digest [h_u32 (ecast_StockSampler sampler)]
      = Some sampler_index
    ∧ RemapState.texture_hash s'
        !! digest [h_u32 (Z.of_nat image_index); h_u32 (Z.of_nat sampler_index)]
      = Some (emit_texture texture sampler type compression quality mode s).1.
Proof.
  unfold emit_texture.
  pose proof (emit_image_hash texture type compression quality mode s) as Himage.
  destruct (emit_image texture type compression quality mode s) as [image_index s1].
  pose proof (emit_sampler_hash sampler s1) as Hsampler.
  pose proof (step_extends _ _ (step_sampler sampler s1)) as Hext.
  destruct (emit_sampler sampler s1) as [sampler_index s2]. simpl in *.
  eapply lookup_weaken in Himage; [|apply Hext].
  exists image_index, sampler_index.
  destruct (RemapState.texture_hash s2 !! _) eqn:Hh; simpl; [done|].
  by rewrite lookup_insert_eq.
Qed.

(** X4.  Deduplication is stable.  Once [emit_buffer], [emit_accessor],
    [emit_sampler], [emit_image] or [emit_texture] has returned an index
    for its arguments, a later call with the same arguments, after whatever
    further updates of the caches, returns the same index and leaves the
    state as it is. *)
Theorem deduplication_is_stable (s s' : RemapState.t) :
  (∀ data stride,
     rtc update (emit_buffer data stride s).2 s' →
     emit_buffer data stride s' = ((emit_buffer data stride s).1, s'))
  ∧ (∀ view_index format offset stride count index s1,
       emit_accessor view_index format offset stride count s = Ok (index, s1) →
       rtc update s1 s' →
       emit_accessor view_index format offset stride count s' = Ok (index, s'))
  ∧ (∀ sampler,
       rtc update (emit_sampler sampler s).2 s' →
       emit_sampler sampler s' = ((emit_sampler sampler s).1, s'))
  ∧ (∀ texture type compression quality mode,
       rtc update (emit_image texture type compression quality mode s).2 s' →
       emit_image texture type compression quality mode s'
       = ((emit_image texture type compression quality mode s).1, s'))
  ∧ (∀ texture sampler type compression quality mode,
       rtc update (emit_texture texture sampler type compression quality mode s).2 s' →
       emit_texture texture sampler type compression quality mode s'
       = ((emit_texture texture sampler type compression quality mode s).1, s')).
Proof.
  split_and!.
  - intros data stride Hext%updates_extends.
    apply emit_buffer_found. eapply lookup_weaken; [apply emit_buffer_hash|apply Hext].
  - intros view_index format offset stride count index s1 Hemit Hext%updates_extends.
    destruct (emit_accessor_spec _ _ _ _ _ _ _ _ Hemit) as (Hkey & _).
    eapply lookup_weaken in Hkey; [|apply Hext].
    unfold emit_accessor. by rewrite Hkey.
  - intros sampler Hext%updates_extends.
    apply emit_sampler_found. eapply lookup_weaken; [apply emit_sampler_hash|apply Hext].
  - intros texture type compression quality mode Hext%updates_extends.
    apply emit_image_found. eapply lookup_weaken; [apply emit_image_hash|apply Hext].
  - intros texture sampler type compression quality mode Hext%updates_extends.
    destruct (emit_texture_hash texture sampler type compression quality mode s)
      as (image_index & sampler_index & Himage & Hsampler & Htexture).
    eapply lookup_weaken in Himage; [|apply Hext].
    eapply lookup_weaken in Hsampler; [|apply Hext].
    eapply lookup_weaken in Htexture; [|apply Hext].
    unfold emit_texture at 1.
    rewrite (emit_image_found _ _ _ _ _ _ _ Himage), (emit_sampler_found _ _ _ Hsampler).
    by rewrite Htexture.
Qed.

(** ** The format tables *)

(** X5.  The format tables agree.  [get_accessor_type] and
    [get_accessor_component] accept exactly the same formats, so
    [set_accessor_type] succeeds exactly on them whatever the record is;
    and every format that [get_accessor_normalized] reports as normalised
    is one of them, with an 8-bit or 16-bit integer component type. *)
Theorem accessor_tables_agree (format : VkFormat) :
  (returns (get_accessor_type format) ↔ returns (get_accessor_component format))
  ∧ (∀ accessor, returns (set_accessor_type accessor format) ↔ in_accessor_table format)
  ∧ (get_accessor_normalized format = true →
       ∃ component,
         get_accessor_component format = Ok component
         ∧ component ∈ [GL_UNSIGNED_BYTE; GL_UNSIGNED_SHORT; GL_SHORT]).
Proof.
  split_and!.
  - split; intros [result Hresult]; destruct format; try discriminate; by eexists.
  - intros accessor. split.
    + intros [accessor' Hset]. by eapply set_accessor_type_table.
    + intros [[component Hcomponent] [type Htype]].
      unfold set_accessor_type. rewrite Hcomponent, Htype. by eexists.
  - intros Hnormalized.
    destruct format; try discriminate; eexists; (split; [reflexivity|]); set_solver.
Qed.

Lemma step_accessors_from_table (s s' : RemapState.t) :
  step s s' → accessors_from_table s → accessors_from_table s'.
Proof.
  destruct 1 as [view stride s|view_index format offset stride count s index s' Hacc
                 |aabb index s|sampler s|texture type compression quality mode s
                 |h texture s Hh]; intros Hs.
  - unfold emit_buffer. by destruct (RemapState.buffer_hash s !! _).
  - unfold emit_accessor in Hacc.
    destruct (RemapState.accessor_hash s !! _) eqn:Hh.
    { by injection Hacc as <- <-. }
    apply bind_Ok in Hacc as (acc & Hset & Hacc). injection Hacc as <- <-.
    intros i a. simpl. intros [Hi|[_ Hi]]%lookup_app_Some; [by eapply Hs|].
    destruct (i - length (RemapState.accessor_cache s)) as [|k]; [|done].
    injection Hi as <-. unfold set_accessor_type in Hset.
    apply bind_Ok in Hset as (component & Hcomponent & Hset).
    apply bind_Ok in Hset as (type & Htype & Hset). injection Hset as <-.
    by exists format.
  - intros i a. simpl. destruct (decide (index = i)) as [->|Hne].
    + rewrite list_lookup_alter_eq.
      destruct (RemapState.accessor_cache s !! i) as [a0|] eqn:Hi; [|done].
      intros [= <-]. destruct (Hs _ _ Hi) as (format & Htype & Hcomponent & Hnormalized).
      by exists format.
    + rewrite list_lookup_alter_ne by done. apply Hs.
  - unfold emit_sampler. by destruct (RemapState.sampler_hash s !! _).
  - unfold emit_image. by destruct (RemapState.image_hash s !! _).
  - done.
Qed.

Lemma updates_accessors_from_table (s s' : RemapState.t) :
  rtc update s s' → accessors_from_table s → accessors_from_table s'.
Proof.
  induction 1 as [|s1 s2 s3 Hupdate _ IH]; [done|].
  intros Hs. apply IH. destruct Hupdate as [s1 s2 Hstep| | | | | |]; try done.
  by eapply step_accessors_from_table.
Qed.

(** X6.  Every accessor of the exported state carries the type name, the
    component type and the normalisation flag of one and the same format
    of the table; its type name is SCALAR, VEC2, VEC3 or VEC4. *)
Theorem exported_accessors_from_table (fs : Filesystem.t) (scene : SceneInformation.t)
    (path : string) (options : ExportOptions.t) (exported : Exported.t) (i : nat)
    (accessor : EmittedAccessor.t) :
  export_scene_to_glb fs scene path options = Ok exported →
  RemapState.accessor_cache (Exported.state exported) !! i = Some accessor →
  accessor_from_table accessor
  ∧ EmittedAccessor.type accessor ∈ ["SCALAR"; "VEC2"; "VEC3"; "VEC4"].
Proof.
  intros Hexport Hi.
  destruct (export_scene_to_glb_path _ _ _ _ _ Hexport)
    as (material & mesh & s3 & environments & walked & image_cache & Hbefore & Hafter & _
        & Hstate).
  assert (Htable : accessors_from_table walked).
  { apply (updates_accessors_from_table _ _ Hafter).
    change (accessors_from_table s3).
    apply (updates_accessors_from_table _ _ Hbefore).
    intros k a. simpl. by rewrite lookup_nil. }
  rewrite Hstate in Hi. simpl in Hi.
  pose proof (Htable _ _ Hi) as Haccessor. split; [done|].
  destruct Haccessor as (format & Htype & _).
  destruct format; simpl in Htype; try discriminate; injection Htype as <-; set_solver.
Qed.

(** ** Indices that refer to entries *)

Lemma slot_valid_mono (s s' : RemapState.t) (slot : Z) :
  length (RemapState.texture_cache s) ≤ length (RemapState.texture_cache s') →
  slot_valid s slot → slot_valid s' slot.
Proof. unfold slot_valid. lia. Qed.

Lemma materials_valid_mono (s s' : RemapState.t) :
  RemapState.material_cache s' = RemapState.material_cache s →
  length (RemapState.texture_cache s) ≤ length (RemapState.texture_cache s') →
  materials_valid s → materials_valid s'.
Proof.
  intros Hcache Hlen Hs i material. rewrite Hcache. intros Hi.
  eapply Forall_impl; [by eapply Hs|]. intros slot. by apply slot_valid_mono.
Qed.

Lemma emit_buffer_valid (data : list byte) (stride : Z) (s : RemapState.t) :
  references_valid s → references_valid (emit_buffer data stride s).2.
Proof.
  unfold emit_buffer. destruct (RemapState.buffer_hash s !! _) eqn:Hh; [done|].
  intros [Hbuffer Haccessor Hsampler Himage Htexture Htextures].
  constructor; simpl; try done.
  intros h i [[<- <-]|[_ Hi%Hbuffer]]%lookup_insert_Some; rewrite length_app; simpl; lia.
Qed.

Lemma emit_accessor_valid view_index format offset stride count (s : RemapState.t) index s' :
  emit_accessor view_index format offset stride count s = Ok (index, s') →
  references_valid s → references_valid s' ∧ index < length (RemapState.accessor_cache s').
Proof.
  unfold emit_accessor. intros Hacc Hs.
  destruct (RemapState.accessor_hash s !! _) eqn:Hh.
  { injection Hacc as <- <-. split; [done|]. by eapply valid_accessor_hash. }
  apply bind_Ok in Hacc as (acc & _ & Hacc). injection Hacc as <- <-.
  destruct Hs as [Hbuffer Haccessor Hsampler Himage Htexture Htextures].
  split; [|simpl; rewrite length_app; simpl; lia].
  constructor; simpl; try done.
  intros h i [[<- <-]|[_ Hi%Haccessor]]%lookup_insert_Some; rewrite length_app; simpl; lia.
Qed.

Lemma set_aabb_valid (aabb : AABB.t) (index : nat) (s : RemapState.t) :
  references_valid s →
  references_valid (RemapState.set_accessor_cache
                      (alter (set_aabb aabb) index (RemapState.accessor_cache s)) s).
Proof.
  intros [Hbuffer Haccessor Hsampler Himage Htexture Htextures].
  constructor; simpl; try done.
  intros h i Hi%Haccessor. by rewrite length_alter.
Qed.

Lemma emit_sampler_valid (sampler : StockSampler.t) (s : RemapState.t) :
  references_valid s →
  references_valid (emit_sampler sampler s).2
  ∧ (emit_sampler sampler s).1 < length (RemapState.sampler_cache (emit_sampler sampler s).2).
Proof.
  unfold emit_sampler. intros Hs. destruct (RemapState.sampler_hash s !! _) eqn:Hh; simpl.
  { split; [done|]. by eapply valid_sampler_hash. }
  destruct Hs as [Hbuffer Haccessor Hsampler Himage Htexture Htextures].
  split; [|rewrite length_app; simpl; lia].
  constructor; simpl; try done.
  - intros h i [[<- <-]|[_ Hi%Hsampler]]%lookup_insert_Some; rewrite length_app; simpl; lia.
  - intros i texture [Hi Hs]%Htextures. rewrite length_app. simpl. lia.
Qed.

Lemma emit_image_valid texture type compression quality mode (s : RemapState.t) :
  let result := emit_image texture type compression quality mode s in
  references_valid s →
  references_valid result.2 ∧ result.1 < length (RemapState.image_cache result.2).
Proof.
  intros result Hs. subst result. unfold emit_image.
  destruct (RemapState.image_hash s !! _) eqn:Hh; simpl.
  { split; [done|]. by eapply valid_image_hash. }
  destruct Hs as [Hbuffer Haccessor Hsampler Himage Htexture Htextures].
  split; [|rewrite length_app; simpl; lia].
  constructor; simpl; try done.
  - intros h i [[<- <-]|[_ Hi%Himage]]%lookup_insert_Some; rewrite length_app; simpl; lia.
  - intros i t [Hi Hs]%Htextures. rewrite length_app. simpl. lia.
Qed.

Lemma emit_texture_valid texture sampler type compression quality mode (s : RemapState.t) :
  let result := emit_texture texture sampler type compression quality mode s in
  references_valid s →
  references_valid result.2
  ∧ result.1 < length (RemapState.texture_cache result.2)
  ∧ length (RemapState.texture_cache s) ≤ length (RemapState.texture_cache result.2)
  ∧ RemapState.material_cache result.2 = RemapState.material_cache s.
Proof.
  intros result Hs. subst result. unfold emit_texture.
  destruct (emit_image_valid texture type compression quality mode s Hs) as [Hs1 Himage].
  pose proof (step_same_records _ _ (step_image texture type compression quality mode s))
    as Hsame1.
  pose proof (step_extends _ _ (step_image texture type compression quality mode s)) as Hext1.
  destruct (emit_image texture type compression quality mode s) as [image_index s1].
  destruct (emit_sampler_valid sampler s1 Hs1) as [Hs2 Hsampler].
  pose proof (step_same_records _ _ (step_sampler sampler s1)) as Hsame2.
  pose proof (step_extends _ _ (step_sampler sampler s1)) as Hext2.
  destruct (emit_sampler sampler s1) as [sampler_index s2]. simpl in *.
  assert (Hlen : length (RemapState.texture_cache s) ≤ length (RemapState.texture_cache s2)).
  { etrans; apply prefix_length; [apply Hext1|apply Hext2]. }
  assert (Himage' : image_index < length (RemapState.image_cache s2)).
  { eapply Nat.lt_le_trans; [exact Himage|]. apply prefix_length, Hext2. }
  assert (Hmaterials : RemapState.material_cache s2 = RemapState.material_cache s).
  { by rewrite (same_material_cache _ _ Hsame2), (same_material_cache _ _ Hsame1). }
  destruct (RemapState.texture_hash s2 !! _) eqn:Hh; simpl.
  { split_and!; try done. by eapply valid_texture_hash. }
  destruct Hs2 as [Hbuffer Haccessor Hsamplers Himages Htexture Htextures].
  split_and!; [|rewrite length_app; simpl; lia..|done].
  constructor; simpl; try done.
  - intros h i [[<- <-]|[_ Hi%Htexture]]%lookup_insert_Some; rewrite length_app; simpl; lia.
  - intros i t [Hi|[_ Hi]]%lookup_app_Some; [by eapply Htextures|].
    destruct (i - length (RemapState.texture_cache s2)) as [|k]; [|done].
    by injection Hi as <-.
Qed.

Lemma emit_texture_if_valid previous texture sampler type compression quality mode
    (s : RemapState.t) :
  let result := emit_texture_if previous texture sampler type compression quality mode s in
  references_valid s → slot_valid s previous →
  references_valid result.2
  ∧ slot_valid result.2 result.1
  ∧ length (RemapState.texture_cache s) ≤ length (RemapState.texture_cache result.2)
  ∧ RemapState.material_cache result.2 = RemapState.material_cache s.
Proof.
  intros result Hs Hprevious. subst result. unfold emit_texture_if.
  case_decide; [by split_and!|].
  destruct (emit_texture_valid texture sampler type compression quality mode s Hs)
    as (Hs' & Hindex & Hlen & Hmaterials).
  destruct (emit_texture texture sampler type compression quality mode s) as [index s'].
  simpl in *. split_and!; try done. right. lia.
Qed.

Lemma references_valid_frame (s s' : RemapState.t) :
  RemapState.buffer_hash s' = RemapState.buffer_hash s →
  RemapState.buffer_views s' = RemapState.buffer_views s →
  RemapState.accessor_hash s' = RemapState.accessor_hash s →
  RemapState.accessor_cache s' = RemapState.accessor_cache s →
  RemapState.sampler_hash s' = RemapState.sampler_hash s →
  RemapState.sampler_cache s' = RemapState.sampler_cache s →
  RemapState.image_hash s' = RemapState.image_hash s →
  length (RemapState.image_cache s') = length (RemapState.image_cache s) →
  RemapState.texture_hash s' = RemapState.texture_hash s →
  RemapState.texture_cache s' = RemapState.texture_cache s →
  references_valid s → references_valid s'.
Proof.
  intros H1 H2 H3 H4 H5 H6 H7 H8 H9 H10 [Hbuffer Haccessor Hsampler Himage Htexture Htextures].
  constructor; rewrite ?H1, ?H2, ?H3, ?H4, ?H5, ?H6, ?H7, ?H8, ?H9, ?H10; done.
Qed.

Lemma steps_materials_valid (s s' : RemapState.t) :
  rtc step s s' → materials_valid s → materials_valid s'.
Proof.
  intros Hsteps. apply materials_valid_mono.
  - apply (same_material_cache _ _ (steps_same_records _ _ Hsteps)).
  - apply prefix_length, (extends_texture_cache _ _ (steps_extends _ _ Hsteps)).
Qed.

Lemma materials_valid_resize (n : nat) (s : RemapState.t) :
  materials_valid s →
  materials_valid (RemapState.set_material_cache
                     (resize n EmittedMaterial.default (RemapState.material_cache s)) s).
Proof.
  intros Hs i material. simpl. intros Hi.
  destruct (decide (i < length (RemapState.material_cache s))) as [Hold|Hnew].
  - assert (i < n) by (apply lookup_lt_Some in Hi; by rewrite length_resize in Hi).
    rewrite lookup_resize in Hi by lia. by apply (Hs i).
  - assert (i < n) by (apply lookup_lt_Some in Hi; by rewrite length_resize in Hi).
    rewrite lookup_resize_new in Hi by lia. injection Hi as <-.
    repeat constructor.
Qed.

Lemma emit_material_valid (remapped_material : nat) (s s' : RemapState.t) :
  emit_material remapped_material s = Ok s' →
  references_valid s → materials_valid s →
  references_valid s' ∧ materials_valid s'.
Proof.
  unfold emit_material. intros Hemit Hs Hmaterials.
  apply bind_Ok in Hemit as (material & _ & Hemit).
  apply bind_Ok in Hemit as (output & Houtput%at_index_Ok & Hemit).
  apply (materials_valid_resize
           (max (length (RemapState.material_cache s)) (remapped_material + 1))) in Hmaterials.
  set (s0 := RemapState.set_material_cache _ s) in *.
  assert (Hs0 : references_valid s0) by (by destruct Hs).
  pose proof (Hmaterials _ _ Houtput) as Hslots. unfold material_slots in Hslots.
  apply Forall_cons in Hslots as [Hbase Hslots].
  apply Forall_cons in Hslots as [Hnormal Hslots].
  apply Forall_cons in Hslots as [Hmetallic Hslots].
  apply Forall_cons in Hslots as [Hocclusion Hslots].
  apply Forall_cons in Hslots as [Hemissive _].
  cbv zeta in Hemit.
  destruct (emit_texture_if_valid (EmittedMaterial.normal output) (MaterialInfo.normal material)
              (MaterialInfo.sampler material) Textures.Normal
              (ExportOptions.compression (RemapState.options s0))
              (ExportOptions.texcomp_quality (RemapState.options s0)) TextureMode.RGB s0
              Hs0 Hnormal) as (Hs1 & Hslot1 & Hlen1 & Hcache1).
  destruct (emit_texture_if (EmittedMaterial.normal output) _ _ _ _ _ _ s0) as [normal s1].
  cbn [fst snd] in Hs1, Hslot1, Hlen1, Hcache1.
  destruct (emit_texture_if_valid (EmittedMaterial.occlusion output)
              (MaterialInfo.occlusion material)
              (MaterialInfo.sampler material) Textures.Occlusion
              (ExportOptions.compression (RemapState.options s0))
              (ExportOptions.texcomp_quality (RemapState.options s0)) TextureMode.RGB s1
              Hs1 (slot_valid_mono _ _ _ Hlen1 Hocclusion)) as (Hs2 & Hslot2 & Hlen2 & Hcache2).
  destruct (emit_texture_if (EmittedMaterial.occlusion output) _ _ _ _ _ _ s1)
    as [occlusion s2].
  cbn [fst snd] in Hs2, Hslot2, Hlen2, Hcache2.
  destruct (emit_texture_if_valid (EmittedMaterial.base_color output)
              (MaterialInfo.base_color material)
              (MaterialInfo.sampler material) Textures.BaseColor
              (ExportOptions.compression (RemapState.options s0))
              (ExportOptions.texcomp_quality (RemapState.options s0))
              (if decide (MaterialInfo.pipeline material = DrawPipeline.Opaque)
               then TextureMode.sRGB else TextureMode.sRGBA) s2
              Hs2 (slot_valid_mono _ _ _ (Nat.le_trans _ _ _ Hlen1 Hlen2) Hbase))
    as (Hs3 & Hslot3 & Hlen3 & Hcache3).
  destruct (emit_texture_if (EmittedMaterial.base_color output) _ _ _ _ _ _ s2)
    as [base_color s3].
  cbn [fst snd] in Hs3, Hslot3, Hlen3, Hcache3.
  assert (Hlen03 : length (RemapState.texture_cache s0) ≤ length (RemapState.texture_cache s3))
    by lia.
  destruct (emit_texture_if_valid (EmittedMaterial.metallic_roughness output)
              (MaterialInfo.metallic_roughness material)
              (MaterialInfo.sampler material) Textures.MetallicRoughness
              (ExportOptions.compression (RemapState.options s0))
              (ExportOptions.texcomp_quality (RemapState.options s0)) TextureMode.RGB s3
              Hs3 (slot_valid_mono _ _ _ Hlen03 Hmetallic))
    as (Hs4 & Hslot4 & Hlen4 & Hcache4).
  destruct (emit_texture_if (EmittedMaterial.metallic_roughness output) _ _ _ _ _ _ s3)
    as [metallic_roughness s4].
  cbn [fst snd] in Hs4, Hslot4, Hlen4, Hcache4.
  assert (Hlen04 : length (RemapState.texture_cache s0) ≤ length (RemapState.texture_cache s4))
    by lia.
  destruct (emit_texture_if_valid (EmittedMaterial.emissive output)
              (MaterialInfo.emissive material)
              (MaterialInfo.sampler material) Textures.Emissive
              (ExportOptions.compression (RemapState.options s0))
              (ExportOptions.texcomp_quality (RemapState.options s0)) TextureMode.sRGB s4
              Hs4 (slot_valid_mono _ _ _ Hlen04 Hemissive))
    as (Hs5 & Hslot5 & Hlen5 & Hcache5).
  destruct (emit_texture_if (EmittedMaterial.emissive output) _ _ _ _ _ _ s4)
    as [emissive s5].
  cbn [fst snd] in Hs5, Hslot5, Hlen5, Hcache5.
  injection Hemit as <-. split; [by destruct Hs5|].
  intros i record. simpl.
  intros [(_ & <- & _)|[_ Hi]]%list_lookup_insert_Some.
  - unfold material_slots. simpl. repeat apply Forall_cons_2; [..|apply Forall_nil_2].
    + apply (slot_valid_mono s3); [simpl; lia|done].
    + apply (slot_valid_mono s1); [simpl; lia|done].
    + apply (slot_valid_mono s4); [simpl; lia|done].
    + apply (slot_valid_mono s2); [simpl; lia|done].
    + done.
  - rewrite Hcache5, Hcache4, Hcache3, Hcache2, Hcache1 in Hi.
    eapply Forall_impl; [by eapply Hmaterials|].
    intros slot. apply slot_valid_mono.
    change (length (RemapState.texture_cache s0) ≤ length (RemapState.texture_cache s5)).
    lia.
Qed.

Lemma emit_environment_valid cube reflection irradiance intensity fog_color fog_falloff
    compression quality (s : RemapState.t) :
  references_valid s → materials_valid s →
  let s' := emit_environment cube reflection irradiance intensity fog_color fog_falloff
                             compression quality s in
  references_valid s' ∧ materials_valid s'.
Proof.
  intros Hs Hmaterials. unfold emit_environment.
  assert (Hnone : ∀ state, slot_valid state (-1)) by (by left).
  destruct (emit_texture_if_valid (-1) {| Texture.path := cube;
                                          Texture.swizzle := VkComponentMapping.rgba |}
              StockSampler.LinearClamp Textures.Emissive compression quality TextureMode.HDR
              s Hs (Hnone s)) as (Hs1 & _ & Hlen1 & Hcache1).
  destruct (emit_texture_if (-1) _ _ _ _ _ _ s) as [env_cube s1].
  cbn [fst snd] in Hs1, Hlen1, Hcache1.
  destruct (emit_texture_if_valid (-1) {| Texture.path := reflection;
                                          Texture.swizzle := VkComponentMapping.rgba |}
              StockSampler.LinearClamp Textures.Emissive compression quality TextureMode.HDR
              s1 Hs1 (Hnone s1)) as (Hs2 & _ & Hlen2 & Hcache2).
  destruct (emit_texture_if (-1) _ _ _ _ _ _ s1) as [env_reflection s2].
  cbn [fst snd] in Hs2, Hlen2, Hcache2.
  destruct (emit_texture_if_valid (-1) {| Texture.path := irradiance;
                                          Texture.swizzle := VkComponentMapping.rgba |}
              StockSampler.LinearClamp Textures.Emissive compression quality TextureMode.HDR
              s2 Hs2 (Hnone s2)) as (Hs3 & _ & Hlen3 & Hcache3).
  destruct (emit_texture_if (-1) _ _ _ _ _ _ s2) as [env_irradiance s3].
  cbn [fst snd] in Hs3, Hlen3, Hcache3.
  split; [by destruct Hs3|].
  apply (materials_valid_mono s); [|simpl; lia|done].
  simpl. by rewrite Hcache3, Hcache2, Hcache1.
Qed.

Lemma emit_attributes_valid mesh position_buffer attribute_buffer i attrs emit
    (s : RemapState.t) emit' s' :
  emit_attributes mesh position_buffer attribute_buffer i attrs emit s = Ok (emit', s') →
  references_valid s → references_valid s'.
Proof.
  revert i emit s. induction attrs as [|attr attrs IH]; intros i emit s Hloop Hs;
    simpl in Hloop.
  { by injection Hloop as <- <-. }
  case_decide; [by eapply IH|].
  case_decide.
  - apply bind_Ok in Hloop as (count & _ & Hloop).
    apply bind_Ok in Hloop as ([accessor s1] & Hacc & Hloop).
    apply bind_Ok in Hloop as (record & _ & Hloop).
    eapply IH; [exact Hloop|]. apply set_aabb_valid.
    by eapply emit_accessor_valid.
  - apply bind_Ok in Hloop as (count & _ & Hloop).
    apply bind_Ok in Hloop as ([accessor s1] & Hacc & Hloop).
    eapply IH; [exact Hloop|]. by eapply emit_accessor_valid.
Qed.

Lemma emit_mesh_valid (r : nat) (s s' : RemapState.t) :
  emit_mesh r s = Ok s' →
  references_valid s → materials_valid s →
  references_valid s' ∧ materials_valid s'.
Proof.
  intros (mesh & emit0 & index_accessor & s1 & s2 & position_buffer & s3 & attribute_buffer
          & s4 & emit & s5 & _ & Hindex & Hmaterial & Hposition & Hattribute & Hattributes
          & ->)%emit_mesh_inv Hs Hmaterials.
  set (s0 := RemapState.set_mesh_cache _ s) in *.
  assert (Hs0 : references_valid s0) by (by destruct Hs).
  (* the index stage *)
  assert (Hs1 : references_valid s1).
  { unfold mesh_index_stage in Hindex. destruct (Mesh.indices mesh) as [|b indices].
    { by injection Hindex as _ <-. }
    pose proof (emit_buffer_valid (b :: indices)
      (if bool_decide (Mesh.index_type mesh = VK_INDEX_TYPE_UINT16) then 2 else 4)%Z s0 Hs0)
      as Hbuffer.
    destruct (emit_buffer (b :: indices) _ s0) as [index sb]. simpl in Hbuffer.
    apply bind_Ok in Hindex as ([accessor sa] & Hacc & Hindex). injection Hindex as _ <-.
    by eapply emit_accessor_valid. }
  assert (Hmaterials1 : materials_valid s1).
  { eapply steps_materials_valid; [by eapply mesh_index_stage_steps|done]. }
  (* the material stage *)
  assert (Hs2 : references_valid s2 ∧ materials_valid s2).
  { unfold mesh_material_stage in Hmaterial.
    destruct (Mesh.has_material mesh); [|by injection Hmaterial as <-].
    apply bind_Ok in Hmaterial as (rm & _ & Hmaterial).
    case_decide; [by injection Hmaterial as <-|].
    apply bind_Ok in Hmaterial as (sm & Hemit & Hmaterial). injection Hmaterial as <-.
    destruct (emit_material_valid _ _ _ Hemit Hs1 Hmaterials1) as [Hsm Hmaterialsm].
    split; [by destruct Hsm|done]. }
  destruct Hs2 as [Hs2 Hmaterials2].
  (* the buffers and the attribute loop *)
  assert (Hs3 : references_valid s3).
  { unfold mesh_position_stage in Hposition. destruct (Mesh.positions mesh) as [|b positions].
    { by injection Hposition as _ <-. }
    pose proof (emit_buffer_valid (b :: positions) (Mesh.position_stride mesh) s2 Hs2)
      as Hbuffer.
    by rewrite Hposition in Hbuffer. }
  assert (Hs4 : references_valid s4).
  { unfold mesh_attribute_stage in Hattribute.
    destruct (Mesh.attributes mesh) as [|b attributes].
    { by injection Hattribute as _ <-. }
    pose proof (emit_buffer_valid (b :: attributes) (Mesh.attribute_stride mesh) s3 Hs3)
      as Hbuffer.
    by rewrite Hattribute in Hbuffer. }
  pose proof (emit_attributes_valid _ _ _ _ _ _ _ _ _ Hattributes Hs4) as Hs5.
  split; [by destruct Hs5|].
  pose proof (mesh_position_stage_steps mesh s2) as Hp. rewrite Hposition in Hp.
  pose proof (mesh_attribute_stage_steps mesh s3) as Ha. rewrite Hattribute in Ha.
  simpl in Hp, Ha.
  pose proof (emit_attributes_steps _ _ _ _ _ _ _ _ _ Hattributes) as Hloop.
  change (materials_valid s5).
  apply (steps_materials_valid s2); [|done]. etrans; [exact Hp|]. by etrans.
Qed.

Lemma emit_nodes_valid scene nodes index (s : RemapState.t) ns s' :
  emit_nodes scene index nodes s = Ok (ns, s') →
  references_valid s → materials_valid s →
  references_valid s' ∧ materials_valid s'.
Proof.
  revert index s ns s'.
  induction nodes as [|node nodes IH]; intros index s ns s' Hnodes Hs Hmaterials;
    simpl in Hnodes.
  { by injection Hnodes as <- <-. }
  apply bind_Ok in Hnodes as ([n s1] & Hnode & Hnodes).
  apply bind_Ok in Hnodes as ([ns' s2] & Hrest & Hnodes). injection Hnodes as <- <-.
  assert (Hs1 : references_valid s1 ∧ materials_valid s1).
  { unfold emit_node in Hnode.
    apply bind_Ok in Hnode as ([members s1'] & Hmeshes & Hnode). injection Hnode as _ <-.
    destruct (Node.meshes node) as [|m meshes].
    { by injection Hmeshes as _ <-. }
    apply bind_Ok in Hmeshes as ([group s1''] & Hgroup & Hmeshes).
    injection Hmeshes as _ <-.
    unfold emit_meshes in Hgroup.
    apply bind_Ok in Hgroup as ([[emit_hash mesh_group] s0] & Hloop & Hgroup).
    assert (Hs0 : references_valid s0 ∧ materials_valid s0).
    { clear Hgroup. revert Hloop Hs Hmaterials.
      generalize (@nil HashField) (@nil nat) s.
      induction (m :: meshes) as [|mesh rest IHrest];
        intros hash0 group0 state Hloop Hstate Hmaterials; simpl in Hloop.
      { by injection Hloop as _ _ <-. }
      apply bind_Ok in Hloop as (r & _ & Hloop).
      apply bind_Ok in Hloop as (state' & Hmesh & Hloop).
      eapply IHrest; [exact Hloop|..]; case_decide.
      - by injection Hmesh as <-.
      - apply bind_Ok in Hmesh as (se & Hemit & Hmesh). injection Hmesh as <-.
        destruct (emit_mesh_valid _ _ _ Hemit Hstate Hmaterials) as [Hse _].
        by destruct Hse.
      - by injection Hmesh as <-.
      - apply bind_Ok in Hmesh as (se & Hemit & Hmesh). injection Hmesh as <-.
        by destruct (emit_mesh_valid _ _ _ Hemit Hstate Hmaterials) as [_ Hse]. }
    destruct Hs0 as [Hs0 Hmaterials0].
    destruct (RemapState.mesh_group_hash s0 !! _); injection Hgroup as _ <-; [done|].
    split; [by destruct Hs0|done]. }
  destruct Hs1 as [Hs1 Hmaterials1]. by eapply IH.
Qed.

(** X7.  In the exported state every texture refers to an image and to a
    sampler that exist, and every texture slot of every material is -1 or
    the index of a texture that exists. *)
Theorem exported_references_valid (fs : Filesystem.t) (scene : SceneInformation.t)
    (path : string) (options : ExportOptions.t) (exported : Exported.t) :
  export_scene_to_glb fs scene path options = Ok exported →
  let s := Exported.state exported in
  (∀ i texture, RemapState.texture_cache s !! i = Some texture →
     EmittedTexture.image texture < length (RemapState.image_cache s)
     ∧ EmittedTexture.sampler texture < length (RemapState.sampler_cache s))
  ∧ (∀ i material slot, RemapState.material_cache s !! i = Some material →
       slot ∈ material_slots material →
       slot = (-1)%Z ∨ (0 ≤ slot < Z.of_nat (length (RemapState.texture_cache s)))%Z).
Proof.
  intros Hexport s.
  destruct (export_scene_to_glb_inv _ _ _ _ _ Hexport)
    as (nodes & walked & image_cache & images & meshes & Hwalk & Hanalyze & Hstate & _).
  destruct (walk_scene_inv _ _ _ _ Hwalk) as (prepared & Hprepare & Hnodes & _).
  destruct (prepare_state_inv _ _ _ Hprepare) as (material & mesh & _ & _ & Hprepared).
  simpl in Hprepared.
  set (base := RemapState.set_mesh mesh
                 (RemapState.set_material material (RemapState.init options))) in *.
  assert (Hbase : references_valid base ∧ materials_valid base).
  { split.
    - constructor; simpl; intros ??; by rewrite ?lookup_empty, ?lookup_nil.
    - intros i record. simpl. by rewrite lookup_nil. }
  destruct Hbase as [Hbase Hmaterials].
  assert (Hvalid : references_valid prepared ∧ materials_valid prepared).
  { case_decide; subst prepared; [done|]. by apply emit_environment_valid. }
  destruct Hvalid as [Hvalid Hvalid'].
  destruct (emit_nodes_valid _ _ _ _ _ _ Hnodes Hvalid Hvalid') as [Hwalked Hwalked'].
  destruct (analyze_images_lookup _ _ Hanalyze) as [Hlength _].
  subst s. rewrite Hstate. simpl. split.
  - intros i texture Hi. rewrite Hlength. by eapply valid_textures.
  - intros i record slot Hi Hslot.
    pose proof (Hwalked' _ _ Hi) as Hslots.
    by apply (proj1 (Forall_forall _ _) Hslots).
Qed.

(** ** The return value and the encode work *)

(** X8.  The value [export_scene_to_glb] returns reflects opening and
    mapping the output file and nothing else: it is true exactly when both
    succeed, and the file is written exactly then.  The encode work of the
    images has been scheduled by then in either case. *)
Theorem export_result_reflects_io (fs : Filesystem.t) (scene : SceneInformation.t)
    (path : string) (options : ExportOptions.t) (exported : Exported.t) :
  export_scene_to_glb fs scene path options = Ok exported →
  let s := Exported.state exported in
  let glb_size := glb_size_of (Z.of_nat (length (pretty_writer (Exported.document exported))))
                              (Z.of_nat (length (RemapState.glb_buffer_data s))) in
  (Exported.result exported = true
   ↔ Filesystem.open_write_only fs path = true
     ∧ is_Some (Filesystem.map_write fs path glb_size))
  ∧ (is_Some (Exported.file exported) ↔ Exported.result exported = true)
  ∧ ∃ images,
      emit_images fs path (RemapState.image_cache s)
        {| ThreadGroup.threads :=
             if decide (ExportOptions.threads options = 0%Z)
             then hardware_concurrency else ExportOptions.threads options;
           ThreadGroup.tasks := [] |}
      = Ok (images, Exported.workers exported).
Proof.
  unfold export_scene_to_glb. intros Hexport.
  destruct (walk_scene scene options) as [[nodes walked]| | |] eqn:Hwalk; try done.
  simpl in Hexport.
  destruct (analyze_images (RemapState.image_cache walked)) as [image_cache| | |] eqn:Himages;
    try done.
  simpl in Hexport.
  destruct (emit_images fs path image_cache _) as [[images workers]| | |] eqn:Hemit; try done.
  simpl in Hexport.
  destruct (mapM _ (RemapState.mesh_group_cache walked)) as [meshes| | |] eqn:Hmeshes;
    try done.
  simpl in Hexport.
  destruct (Filesystem.open_write_only fs path) eqn:Hopen.
  - destruct (Filesystem.map_write fs path _) as [mapped|] eqn:Hmap;
      injection Hexport as <-; simpl; rewrite ?Hmap.
    + split_and!; [split; [by eauto|done]|split; [done|by eauto]|by exists images].
    + split_and!; [split; [done|by intros [_ [? ?]]]|split; [by intros [? ?]|done]
                  |by exists images].
  - injection Hexport as <-; simpl.
    split_and!; [split; [done|by intros [? _]]|split; [by intros [? ?]|done]|by exists images].
Qed.

(** X9.  Unless the target is up to date (both files can be stat'ed and the
    source is strictly older), [compress_image] appends exactly two tasks
    to the pool and leaves the tasks before them as they are: first the
    mipmap generation for the source, then, depending on it, the encoder
    with the target path, the quality and the format of the planned
    compression, or, for an uncompressed plan, the plain save of the
    target. *)
Theorem compress_image_schedules (fs : Filesystem.t) (workers : ThreadGroup.t)
    (target_path : string) (result : AnalysisResult.t) (quality : Z) :
  ¬ already_compressed fs (AnalysisResult.src_path result) target_path →
  let mipgen_task := length (ThreadGroup.tasks workers) in
  let args :=
    {| CompressorArguments.output := target_path;
       CompressorArguments.format :=
         get_compression_format (AnalysisResult.compression result)
                                (AnalysisResult.mode result);
       CompressorArguments.quality := quality |} in
  compress_image fs workers target_path result quality
  = {| ThreadGroup.threads := ThreadGroup.threads workers;
       ThreadGroup.tasks :=
         ThreadGroup.tasks workers
         ++ [ ThreadGroup.generate_mipmaps (AnalysisResult.src_path result);
              if decide (AnalysisResult.compression result = TextureCompression.Uncompressed)
              then ThreadGroup.save_texture_to_file target_path mipgen_task
              else ThreadGroup.compress_texture args mipgen_task ] |}.
Proof.
  intros Hstale mipgen_task args. unfold compress_image.
  assert (Hguard : match Filesystem.stat fs (AnalysisResult.src_path result) with
                   | Some src_stat =>
                       match Filesystem.stat fs target_path with
                       | Some dst_stat =>
                           bool_decide (FileStat.last_modified src_stat
                                        < FileStat.last_modified dst_stat)%Z
                       | None => false
                       end
                   | None => false
                   end = false).
  { destruct (Filesystem.stat fs (AnalysisResult.src_path result)) as [src_stat|] eqn:Hsrc;
      [|done].
    destruct (Filesystem.stat fs target_path) as [dst_stat|] eqn:Hdst; [|done].
    apply bool_decide_eq_false. intros Hlt. apply Hstale. by exists src_stat, dst_stat. }
  rewrite Hguard. unfold ThreadGroup.create_task. simpl.
  case_decide as Hcompression.
  - rewrite bool_decide_eq_false_2 by (by intros ?). simpl. by rewrite <- app_assoc.
  - rewrite bool_decide_eq_true_2 by done. simpl. by rewrite <- app_assoc.
Qed.

(** ** Image analysis *)

(** X10.  An image whose file the loader cannot read is no error: the
    analysis returns a result that keeps the source path, the
    value-initialised swizzle and compression, and no more; its entry in
    the images array carries the swizzle hint [0, 1, 2, 3]. *)
Theorem failed_load_is_still_listed (src : string) (swizzle : VkComponentMapping.t)
    (type : Textures.t) (family : TextureCompressionFamily.t) (mode : TextureMode.t)
    (image : EmittedImage.t) :
  gli.empty (load_texture_from_file src (color_space_of mode)) = true →
  ∃ result,
    analyze_image src swizzle type family mode = Ok result
    ∧ AnalysisResult.src_path result = src
    ∧ AnalysisResult.image result = Some (load_texture_from_file src (color_space_of mode))
    ∧ AnalysisResult.swizzle result = VkComponentMapping.zero
    ∧ AnalysisResult.compression result = TextureCompression_zero
    ∧ image_json image (AnalysisResult.swizzle result)
      = JObject [ ("uri", JString (EmittedImage.target_relpath image));
                  ("mimeType", JString (EmittedImage.target_mime image));
                  ("extras", JObject [("swizzle", JArray [JNumber 0; JNumber 1;
                                                           JNumber 2; JNumber 3])]) ].
Proof.
  intros Hempty. unfold analyze_image, analyze_image_task, load_image. simpl.
  fold (color_space_of mode). rewrite Hempty. simpl.
  eexists. split_and!; reflexivity.
Qed.

Lemma conv_swizzle_cases (swiz : VkComponentSwizzle) :
  (channel_selector swiz ∧ ∃ c, conv_swizzle swiz = Ok c)
  ∨ (¬ channel_selector swiz ∧ conv_swizzle swiz = Throw "Unrecognized swizzle parameter.").
Proof.
  unfold channel_selector.
  destruct swiz; simpl;
    first [ by right; split; [set_solver|] | by left; split; [set_solver|eexists] ].
Qed.

(** X11.  What [swizzle_image] does.  With the identity mapping (R, G, B,
    A) the image is left alone, whatever its format.  With any other
    mapping an image that is not in one of the two 8-bit RGBA formats makes
    it throw, and so does a component that is not one of the four channel
    selectors (ZERO, ONE and IDENTITY are not accepted); otherwise every
    texel is rebuilt from the channels the mapping names and nothing else
    of the image changes. *)
Theorem swizzle_image_cases (swizzle : VkComponentMapping.t) (image : gli.texture) :
  (swizzle = VkComponentMapping.rgba → swizzle_image swizzle image = Ok image)
  ∧ (swizzle ≠ VkComponentMapping.rgba → ¬ rgba8 (gli.format_ image) →
       swizzle_image swizzle image = Throw "Can only swizzle RGBA textures.")
  ∧ (swizzle ≠ VkComponentMapping.rgba → rgba8 (gli.format_ image) →
       ¬ (channel_selector (VkComponentMapping.r swizzle)
          ∧ channel_selector (VkComponentMapping.g swizzle)
          ∧ channel_selector (VkComponentMapping.b swizzle)
          ∧ channel_selector (VkComponentMapping.a swizzle)) →
       swizzle_image swizzle image = Throw "Unrecognized swizzle parameter.")
  ∧ (swizzle ≠ VkComponentMapping.rgba → rgba8 (gli.format_ image) →
       channel_selector (VkComponentMapping.r swizzle) →
       channel_selector (VkComponentMapping.g swizzle) →
       channel_selector (VkComponentMapping.b swizzle) →
       channel_selector (VkComponentMapping.a swizzle) →
       ∃ r g b a,
         conv_swizzle (VkComponentMapping.r swizzle) = Ok r
         ∧ conv_swizzle (VkComponentMapping.g swizzle) = Ok g
         ∧ conv_swizzle (VkComponentMapping.b swizzle) = Ok b
         ∧ conv_swizzle (VkComponentMapping.a swizzle) = Ok a
         ∧ swizzle_image swizzle image
           = Ok {| gli.empty := gli.empty image;
                   gli.format_ := gli.format_ image;
                   gli.layers := gli.layers image;
                   gli.faces := gli.faces image;
                   gli.levels := gli.levels image;
                   gli.extent_x := gli.extent_x image;
                   gli.extent_y := gli.extent_y image;
                   gli.data_0_0_0 :=
                     (λ texel, {| gli.r := channel r texel; gli.g := channel g texel;
                                  gli.b := channel b texel; gli.a := channel a texel |})
                       <$> gli.data_0_0_0 image |}).
Proof.
  assert (Hguard : swizzle ≠ VkComponentMapping.rgba →
            bool_decide (VkComponentMapping.r swizzle ≠ VK_COMPONENT_SWIZZLE_R)
            || bool_decide (VkComponentMapping.g swizzle ≠ VK_COMPONENT_SWIZZLE_G)
            || bool_decide (VkComponentMapping.b swizzle ≠ VK_COMPONENT_SWIZZLE_B)
            || bool_decide (VkComponentMapping.a swizzle ≠ VK_COMPONENT_SWIZZLE_A) = true).
  { intros Hne. apply not_false_iff_true. intros Hnone.
    apply orb_false_iff in Hnone as [Hnone Ha]. apply orb_false_iff in Hnone as [Hnone Hb].
    apply orb_false_iff in Hnone as [Hr Hg].
    apply bool_decide_eq_false, dec_stable in Hr, Hg, Hb, Ha.
    apply Hne. destruct swizzle. simpl in *. by subst. }
  assert (Hrgba8 : rgba8 (gli.format_ image) →
            bool_decide (gli.format_ image ≠ gli.FORMAT_RGBA8_SRGB_PACK8)
            && bool_decide (gli.format_ image ≠ gli.FORMAT_RGBA8_UNORM_PACK8) = false).
  { intros [-> | ->]; reflexivity. }
  split_and!.
  - intros ->. reflexivity.
  - intros Hne Hother. unfold swizzle_image. rewrite (Hguard Hne).
    replace (bool_decide (gli.format_ image ≠ gli.FORMAT_RGBA8_SRGB_PACK8)
             && bool_decide (gli.format_ image ≠ gli.FORMAT_RGBA8_UNORM_PACK8)) with true;
      [done|].
    symmetry. apply andb_true_iff. split; apply bool_decide_eq_true; intros Heq;
      apply Hother; [by left|by right].
  - intros Hne Hin Hselectors. unfold swizzle_image. rewrite (Hguard Hne), (Hrgba8 Hin).
    destruct (conv_swizzle_cases (VkComponentMapping.r swizzle)) as [[Hr [r ->]]|[_ ->]];
      [|done].
    destruct (conv_swizzle_cases (VkComponentMapping.g swizzle)) as [[Hg [g ->]]|[_ ->]];
      [|done].
    destruct (conv_swizzle_cases (VkComponentMapping.b swizzle)) as [[Hb [b ->]]|[_ ->]];
      [|done].
    destruct (conv_swizzle_cases (VkComponentMapping.a swizzle)) as [[Ha [a ->]]|[_ ->]];
      [|done].
    by destruct Hselectors.
  - intros Hne Hin Hr Hg Hb Ha. unfold swizzle_image. rewrite (Hguard Hne), (Hrgba8 Hin).
    destruct (conv_swizzle_cases (VkComponentMapping.r swizzle)) as [[_ [r Hr']]|[? _]];
      [|done].
    destruct (conv_swizzle_cases (VkComponentMapping.g swizzle)) as [[_ [g Hg']]|[? _]];
      [|done].
    destruct (conv_swizzle_cases (VkComponentMapping.b swizzle)) as [[_ [b Hb']]|[? _]];
      [|done].
    destruct (conv_swizzle_cases (VkComponentMapping.a swizzle)) as [[_ [a Ha']]|[? _]];
      [|done].
    exists r, g, b, a. rewrite Hr', Hg', Hb', Ha'. by split_and!.
Qed.

End proofs.

(** * The model run on concrete inputs *)

#[local] Existing Instance Demo.collaborators.

Lemma emit_image_idempotent_witness :
  Texture.path Fixture.rock = Texture.path Fixture.rock_swizzled
  ∧ let s := emit_image_requests (H := Demo.collaborators) [] (RemapState.init Fixture.options) in
    let first := emit_image (H := Demo.collaborators) Fixture.rock Textures.BaseColor
                   TextureCompressionFamily.BC 3 TextureMode.sRGB s in
    let second := emit_image (H := Demo.collaborators) Fixture.rock_swizzled Textures.BaseColor
                    TextureCompressionFamily.BC 3 TextureMode.sRGB first.2 in
    second.1 = first.1 ∧ second.2 = first.2.
Proof.
  split; [reflexivity|].
  pose proof (emit_image_idempotent (H := Demo.collaborators) Fixture.options []
                Fixture.rock Fixture.rock_swizzled Textures.BaseColor
                TextureCompressionFamily.BC 3 TextureMode.sRGB eq_refl) as Hthm.
  simpl in Hthm. destruct Hthm as (H1 & H2 & _). split; [exact H1|exact H2].
Defined.

Lemma deduce_metallic_roughness_mode_witness :
  single_image (Demo.load "mr.png" ColorSpace_Linear)
  ∧ deduce_metallic_roughness_mode (Demo.load "mr.png" ColorSpace_Linear)
    = Ok AnalysisResult.MetallicRough.
Proof.
  assert (Hsingle : single_image (Demo.load "mr.png" ColorSpace_Linear)).
  { unfold single_image, INT_MAX. simpl. lia. }
  split; [exact Hsingle|].
  destruct (deduce_metallic_roughness_mode_spec (Demo.load "mr.png" ColorSpace_Linear))
    as [_ Hspec].
  destruct (Hspec Hsingle) as (st & _ & _ & _ & _ & _ & _ & Hmode).
  exact Hmode.
Defined.

Lemma compress_image_skips_newer_target_witness :
  Filesystem.stat (Fixture.newer_target_fs "rock.ktx") "rock.png"
    = Some {| FileStat.last_modified := 100 |}
  ∧ Filesystem.stat (Fixture.newer_target_fs "rock.ktx") "rock.ktx"
    = Some {| FileStat.last_modified := 101 |}
  ∧ (100 < 101)%Z
  ∧ compress_image (Fixture.newer_target_fs "rock.ktx") Fixture.idle_workers "rock.ktx"
      Fixture.analysed 3 = Fixture.idle_workers.
Proof.
  split_and!; [reflexivity|reflexivity|lia|].
  apply (compress_image_skips_newer_target (Fixture.newer_target_fs "rock.ktx")
           Fixture.idle_workers "rock.ktx" Fixture.analysed 3
           {| FileStat.last_modified := 100 |} {| FileStat.last_modified := 101 |});
    [reflexivity|reflexivity|simpl; lia].
Defined.

(** C4, as stated, fails when the two modification times are equal: the
    target is not newer, and the mipmap task and the encode task are
    scheduled. *)
Lemma compress_image_equal_mtime_counterexample :
  Filesystem.stat Fixture.same_mtime_fs "rock.png" = Some {| FileStat.last_modified := 100 |}
  ∧ Filesystem.stat Fixture.same_mtime_fs "rock.ktx" = Some {| FileStat.last_modified := 100 |}
  ∧ (100 >= 100)%Z
  ∧ ThreadGroup.tasks
      (compress_image Fixture.same_mtime_fs Fixture.idle_workers "rock.ktx" Fixture.analysed 3)
    = [ ThreadGroup.generate_mipmaps "rock.png";
        ThreadGroup.compress_texture
          {| CompressorArguments.output := "rock.ktx";
             CompressorArguments.format := gli.FORMAT_RGBA_BP_SRGB_BLOCK16;
             CompressorArguments.quality := 3 |} 0 ]
  ∧ compress_image Fixture.same_mtime_fs Fixture.idle_workers "rock.ktx" Fixture.analysed 3
    ≠ Fixture.idle_workers.
Proof. split_and!; [reflexivity|reflexivity|lia|reflexivity|discriminate]. Qed.

(** C1, as stated, fails for a container of 4 GiB or more: with the JSON
    text "{}" and a blob of 2^32 bytes the total is 2^32 + 32, and the
    32-bit header field holds 32. *)
Lemma glb_total_length_counterexample :
  let json_length := Z.of_nat (length Fixture.small_json) in
  let bin_length := Z.of_nat (length Fixture.blob_4GiB) in
  read_u32 (write_glb Fixture.mapping_4GiB (glb_size_of json_length bin_length)
                      Fixture.small_json Fixture.blob_4GiB) 8
  ≠ (12 + (8 + aligned_size json_length) + (8 + aligned_size bin_length))%Z.
Proof.
  intros json_length bin_length.
  assert (Hbin : Z.of_nat (length Fixture.blob_4GiB) = (2 ^ 32)%Z).
  { unfold Fixture.blob_4GiB. rewrite length_replicate. apply Z2Nat.id. lia. }
  assert (Hjson : Z.of_nat (length Fixture.small_json) = 2%Z) by reflexivity.
  subst json_length bin_length.
  rewrite write_glb_container.
  - rewrite glb_container_stored_total, Hbin, Hjson. vm_compute. discriminate.
  - unfold Fixture.mapping_4GiB. rewrite length_replicate, Hbin, Hjson.
    apply Z2Nat.id. vm_compute. discriminate.
Qed.

Lemma export_writes_glb_container_witness :
  ∃ exported,
    export_scene_to_glb (H := Demo.collaborators) Fixture.same_mtime_fs Fixture.triangle_scene
      "out.glb" Fixture.options = Ok exported
    ∧ Exported.result exported = true
    ∧ Exported.file exported
      = Some (glb_container (pretty_writer (Exported.document exported))
                            (RemapState.glb_buffer_data (Exported.state exported)))
    ∧ read_u32 (glb_container (pretty_writer (Exported.document exported))
                              (RemapState.glb_buffer_data (Exported.state exported))) 8
      = 68%Z.
Proof.
  assert (Hrun : ∃ exported,
            export_scene_to_glb (H := Demo.collaborators) Fixture.same_mtime_fs
              Fixture.triangle_scene "out.glb" Fixture.options = Ok exported
            ∧ Exported.result exported = true
            ∧ Z.of_nat (length (pretty_writer (Exported.document exported))) = 2%Z
            ∧ Z.of_nat (length (RemapState.glb_buffer_data (Exported.state exported))) = 36%Z).
  { vm_compute. eexists. split_and!; reflexivity. }
  destruct Hrun as (exported & Hexport & Hresult & Hjson & Hbin).
  exists exported.
  destruct (export_writes_glb_container (H := Demo.collaborators) _ _ _ _ _ Hexport Hresult)
    as (Hfile & _ & _ & _ & _ & Hstored).
  split_and!; [exact Hexport|exact Hresult|exact Hfile|].
  rewrite Hstored; rewrite Hjson, Hbin; [reflexivity|vm_compute; reflexivity].
Defined.

Lemma materials_array_length_witness :
  ∃ exported,
    export_scene_to_glb (H := Demo.collaborators) Fixture.same_mtime_fs
      Fixture.two_material_scene "out.glb" Fixture.options = Ok exported
    ∧ ∃ doc materials,
        Exported.document exported = JObject doc
        ∧ find_member "materials" doc = Some (JArray materials)
        ∧ length materials = 2
        ∧ materials !! 0 = Some (JObject [("pbrMetallicRoughness", JObject [])]).
Proof.
  assert (Hrun : ∃ exported,
            export_scene_to_glb (H := Demo.collaborators) Fixture.same_mtime_fs
              Fixture.two_material_scene "out.glb" Fixture.options = Ok exported
            ∧ walked_materials (Exported.state exported)
                (SceneInformation.nodes Fixture.two_material_scene) = [1]).
  { vm_compute. eexists. split; reflexivity. }
  destruct Hrun as (exported & Hexport & Hreferenced).
  exists exported. split; [exact Hexport|].
  destruct (materials_array_length (H := Demo.collaborators) _ _ _ _ _ Hexport)
    as (doc & materials & Hdoc & Hfind & Hlen & _ & _ & _ & Hdefault & _ & Hjson & _).
  rewrite Hreferenced in Hlen, Hdefault.
  exists doc, materials. split_and!; [exact Hdoc|exact Hfind|exact Hlen|].
  rewrite <- Hjson. apply (Hdefault 0).
  - vm_compute. lia.
  - intros Hin. apply list_elem_of_singleton in Hin. discriminate.
Defined.

Lemma environment_emitted_iff_cube_witness :
  ∃ exported,
    export_scene_to_glb (H := Demo.collaborators) Fixture.same_mtime_fs
      Fixture.triangle_scene "out.glb" Fixture.sky_options = Ok exported
    ∧ ∃ env,
        RemapState.environment_cache (Exported.state exported) = [env]
        ∧ hdr_clamp_texture (Exported.state exported) (EmittedEnvironment.cube env)
        ∧ EmittedEnvironment.reflection env = (-1)%Z
        ∧ hdr_clamp_texture (Exported.state exported) (EmittedEnvironment.irradiance env).
Proof.
  assert (Hrun : ∃ exported,
            export_scene_to_glb (H := Demo.collaborators) Fixture.same_mtime_fs
              Fixture.triangle_scene "out.glb" Fixture.sky_options = Ok exported).
  { vm_compute. eexists. reflexivity. }
  destruct Hrun as (exported & Hexport).
  exists exported. split; [exact Hexport|].
  destruct (environment_emitted_iff_cube (H := Demo.collaborators) _ _ _ _ _ Hexport)
    as (doc & _ & _ & Hsky).
  destruct Hsky as (env & Hcache & _ & Hcube & Hreflection & Hirradiance); [discriminate|].
  exists env. split_and!; [exact Hcache|exact Hcube|exact Hreflection|exact Hirradiance].
Defined.

Lemma shared_position_accessor_keeps_last_aabb_witness :
  ∃ s s1 s2,
    prepare_state (H := Demo.collaborators) Fixture.two_box_scene Fixture.options = Ok s
    ∧ emit_mesh (H := Demo.collaborators) 0 s = Ok s1
    ∧ emit_mesh (H := Demo.collaborators) 1
        (RemapState.set_mesh_hash ({[0]} ∪ RemapState.mesh_hash s1) s1) = Ok s2
    ∧ ∃ index emit1 emit2 accessor,
        RemapState.mesh_cache s2 !! 0 = Some emit1
        ∧ RemapState.mesh_cache s2 !! 1 = Some emit2
        ∧ EmittedMesh.attribute_accessor emit1 Position = Z.of_nat index
        ∧ EmittedMesh.attribute_accessor emit2 Position = Z.of_nat index
        ∧ RemapState.accessor_cache s2 !! index = Some accessor
        ∧ EmittedAccessor.aabb accessor = Fixture.double_box.
Proof.
  set (m1 := Fixture.triangle VK_FORMAT_R32G32B32_SFLOAT Fixture.unit_box None).
  set (m2 := Fixture.triangle VK_FORMAT_R32G32B32_SFLOAT Fixture.double_box None).
  set (s := Fixture.value_of (RemapState.init Fixture.options)
              (prepare_state (H := Demo.collaborators) Fixture.two_box_scene Fixture.options)).
  set (s1 := Fixture.value_of s (emit_mesh (H := Demo.collaborators) 0 s)).
  set (s2 := Fixture.value_of s1
               (emit_mesh (H := Demo.collaborators) 1
                  (RemapState.set_mesh_hash ({[0]} ∪ RemapState.mesh_hash s1) s1))).
  assert (Hs : prepare_state (H := Demo.collaborators) Fixture.two_box_scene Fixture.options
               = Ok s) by (vm_compute; reflexivity).
  assert (Hs1 : emit_mesh (H := Demo.collaborators) 0 s = Ok s1) by (vm_compute; reflexivity).
  assert (Hs2 : emit_mesh (H := Demo.collaborators) 1
                  (RemapState.set_mesh_hash ({[0]} ∪ RemapState.mesh_hash s1) s1) = Ok s2)
    by (vm_compute; reflexivity).
  assert (Hcache : RemapState.accessor_cache s = []) by (vm_compute; reflexivity).
  assert (Hm1 : Remap.info (RemapState.mesh s) !! 0 = Some m1) by (vm_compute; reflexivity).
  assert (Hm2 : Remap.info (RemapState.mesh s) !! 1 = Some m2) by (vm_compute; reflexivity).
  assert (Hv1 : position_view (H := Demo.collaborators) s2 m1 0) by (vm_compute; reflexivity).
  assert (Hv2 : position_view (H := Demo.collaborators) s2 m2 0) by (vm_compute; reflexivity).
  exists s, s1, s2. split_and!; [exact Hs|exact Hs1|exact Hs2|].
  destruct (shared_position_accessor_keeps_last_aabb (H := Demo.collaborators)
              0 1 m1 m2 s s1 (RemapState.set_mesh_hash ({[0]} ∪ RemapState.mesh_hash s1) s1)
              s2 0 0)
    as (index & emit1 & emit2 & accessor & members & He1 & He2 & Hp1 & Hp2 & Hacc & _ & Haabb
        & _).
  - intros i a. rewrite Hcache. discriminate.
  - exact Hm1.
  - exact Hm2.
  - lia.
  - simpl. discriminate.
  - simpl. discriminate.
  - exact Hs1.
  - apply rtc_once, update_mesh_hash.
  - reflexivity.
  - exact Hs2.
  - exact Hv1.
  - exact Hv2.
  - reflexivity.
  - exists index, emit1, emit2, accessor.
    split_and!; [exact He1|exact He2|exact Hp1|exact Hp2|exact Hacc|exact Haabb].
Defined.

(** ** The digest of [Exact] has no collisions *)







Lemma filter_input_canonical_witness :
  ∃ remap,
    filter_input (λ mat, Ok (hash_MaterialInfo (H := Demo.collaborators) mat)) Remap.empty
      [Fixture.red; Fixture.blue; Fixture.red] = Ok remap
    ∧ Remap.to_index remap = [0; 1; 0]
    ∧ Remap.info remap = [Fixture.red; Fixture.blue]
    ∧ Remap.to_index remap !! 0 = Remap.to_index remap !! 2.
Proof.
  set (run := filter_input (λ mat, Ok (hash_MaterialInfo (H := Demo.collaborators) mat))
                Remap.empty [Fixture.red; Fixture.blue; Fixture.red]).
  set (remap := Fixture.value_of Remap.empty run).
  assert (Hrun : run = Ok remap) by (vm_compute; reflexivity).
  exists remap. split_and!; [exact Hrun|vm_compute; reflexivity..|].
  destruct (filter_input_canonical _ _ _ Hrun) as (_ & _ & Hsame & _).
  apply (Hsame 0 2 Fixture.red Fixture.red (hash_MaterialInfo (H := Demo.collaborators)
                                              Fixture.red)); reflexivity.
Defined.


Lemma deduplication_is_stable_witness :
  let s := RemapState.init Fixture.options in
  let s1 := (emit_buffer (H := Demo.collaborators) Fixture.triangle_positions 12 s).2 in
  let s' := (emit_sampler (H := Demo.collaborators) StockSampler.LinearClamp s1).2 in
  emit_buffer (H := Demo.collaborators) Fixture.triangle_positions 12 s' = (0, s').
Proof.
  intros s s1 s'.
  destruct (deduplication_is_stable (H := Demo.collaborators) s s') as (Hbuffer & _).
  apply (Hbuffer Fixture.triangle_positions 12%Z).
  apply rtc_once, update_step, step_sampler.
Defined.

Lemma exported_accessors_from_table_witness :
  ∃ exported accessor,
    export_scene_to_glb (H := Demo.collaborators) Fixture.same_mtime_fs Fixture.triangle_scene
      "out.glb" Fixture.options = Ok exported
    ∧ RemapState.accessor_cache (Exported.state exported) !! 0 = Some accessor
    ∧ EmittedAccessor.type accessor = "VEC3"
    ∧ accessor_from_table accessor.
Proof.
  set (run := export_scene_to_glb (H := Demo.collaborators) Fixture.same_mtime_fs
                Fixture.triangle_scene "out.glb" Fixture.options).
  set (exported := Fixture.value_of Fixture.nothing_exported run).
  set (accessor := default (EmittedAccessor.Build_t 0 0 "" 0 0 AABB.zero false false)
                     (RemapState.accessor_cache (Exported.state exported) !! 0)).
  assert (Hrun : run = Ok exported) by (vm_compute; reflexivity).
  assert (Hi : RemapState.accessor_cache (Exported.state exported) !! 0 = Some accessor)
    by (vm_compute; reflexivity).
  exists exported, accessor. split_and!; [exact Hrun|exact Hi|vm_compute; reflexivity|].
  apply (exported_accessors_from_table (H := Demo.collaborators) Fixture.same_mtime_fs
           Fixture.triangle_scene "out.glb" Fixture.options exported 0 accessor Hrun Hi).
Defined.

Lemma exported_references_valid_witness :
  ∃ exported texture material,
    export_scene_to_glb (H := Demo.collaborators) Fixture.same_mtime_fs Fixture.rocky_scene
      "out.glb" Fixture.options = Ok exported
    ∧ RemapState.texture_cache (Exported.state exported) !! 0 = Some texture
    ∧ EmittedTexture.image texture < length (RemapState.image_cache (Exported.state exported))
    ∧ RemapState.material_cache (Exported.state exported) !! 0 = Some material
    ∧ EmittedMaterial.base_color material = 0%Z
    ∧ (0 ≤ EmittedMaterial.base_color material
         < Z.of_nat (length (RemapState.texture_cache (Exported.state exported))))%Z.
Proof.
  set (run := export_scene_to_glb (H := Demo.collaborators) Fixture.same_mtime_fs
                Fixture.rocky_scene "out.glb" Fixture.options).
  set (exported := Fixture.value_of Fixture.nothing_exported run).
  set (texture := default {| EmittedTexture.image := 0; EmittedTexture.sampler := 0 |}
                    (RemapState.texture_cache (Exported.state exported) !! 0)).
  set (material := default EmittedMaterial.default
                     (RemapState.material_cache (Exported.state exported) !! 0)).
  assert (Hrun : run = Ok exported) by (vm_compute; reflexivity).
  assert (Htexture : RemapState.texture_cache (Exported.state exported) !! 0 = Some texture)
    by (vm_compute; reflexivity).
  assert (Hmaterial : RemapState.material_cache (Exported.state exported) !! 0 = Some material)
    by (vm_compute; reflexivity).
  assert (Hbase : EmittedMaterial.base_color material = 0%Z) by (vm_compute; reflexivity).
  destruct (exported_references_valid (H := Demo.collaborators) Fixture.same_mtime_fs
              Fixture.rocky_scene "out.glb" Fixture.options exported Hrun)
    as [Htextures Hslots].
  exists exported, texture, material.
  split; [exact Hrun|]. split; [exact Htexture|].
  split; [exact (proj1 (Htextures 0 texture Htexture))|].
  split; [exact Hmaterial|]. split; [exact Hbase|].
  destruct (Hslots 0 material (EmittedMaterial.base_color material) Hmaterial) as [Hnone|Hin].
  - unfold material_slots. left.
  - rewrite Hbase in Hnone. discriminate.
  - exact Hin.
Defined.

Lemma export_result_reflects_io_witness :
  ∃ exported,
    export_scene_to_glb (H := Demo.collaborators) Fixture.read_only_fs Fixture.rocky_scene
      "out.glb" Fixture.options = Ok exported
    ∧ Exported.result exported = false
    ∧ ¬ is_Some (Exported.file exported)
    ∧ length (ThreadGroup.tasks (Exported.workers exported)) = 2.
Proof.
  set (run := export_scene_to_glb (H := Demo.collaborators) Fixture.read_only_fs
                Fixture.rocky_scene "out.glb" Fixture.options).
  set (exported := Fixture.value_of Fixture.nothing_exported run).
  assert (Hrun : run = Ok exported) by (vm_compute; reflexivity).
  assert (Hresult : Exported.result exported = false) by (vm_compute; reflexivity).
  destruct (export_result_reflects_io (H := Demo.collaborators) Fixture.read_only_fs
              Fixture.rocky_scene "out.glb" Fixture.options exported Hrun)
    as (_ & Hfile & _).
  exists exported. split; [exact Hrun|]. split; [exact Hresult|]. split.
  - intros Hsome. apply Hfile in Hsome. rewrite Hresult in Hsome. discriminate.
  - vm_compute. reflexivity.
Defined.

Lemma compress_image_schedules_witness :
  ThreadGroup.tasks (compress_image Fixture.same_mtime_fs Fixture.idle_workers "rock.ktx"
                       Fixture.analysed 3)
  = [ ThreadGroup.generate_mipmaps "rock.png";
      ThreadGroup.compress_texture
        {| CompressorArguments.output := "rock.ktx";
           CompressorArguments.format :=
             get_compression_format (AnalysisResult.compression Fixture.analysed)
                                    (AnalysisResult.mode Fixture.analysed);
           CompressorArguments.quality := 3 |} 0 ].
Proof.
  rewrite (compress_image_schedules Fixture.same_mtime_fs Fixture.idle_workers "rock.ktx"
             Fixture.analysed 3).
  - reflexivity.
  - intros (src_stat & dst_stat & Hsrc & Hdst & Hlt).
    simpl in Hsrc, Hdst. injection Hsrc as <-. injection Hdst as <-. simpl in Hlt. lia.
Defined.

Lemma failed_load_is_still_listed_witness :
  ∃ result,
    analyze_image (H := Demo.collaborators) "" VkComponentMapping.rgba Textures.BaseColor
      TextureCompressionFamily.BC TextureMode.sRGB = Ok result
    ∧ AnalysisResult.src_path result = ""
    ∧ AnalysisResult.swizzle result = VkComponentMapping.zero
    ∧ AnalysisResult.compression result = TextureCompression.Uncompressed.
Proof.
  destruct (failed_load_is_still_listed (H := Demo.collaborators) "" VkComponentMapping.rgba
              Textures.BaseColor TextureCompressionFamily.BC TextureMode.sRGB
              {| EmittedImage.source_path := ""; EmittedImage.target_relpath := "0.ktx";
                 EmittedImage.target_mime := "image/ktx";
                 EmittedImage.compression := TextureCompressionFamily.BC;
                 EmittedImage.compression_quality := 3;
                 EmittedImage.mode := TextureMode.sRGB;
                 EmittedImage.type := Textures.BaseColor;
                 EmittedImage.swizzle := VkComponentMapping.rgba;
                 EmittedImage.loaded_image := None |})
    as (result & Hrun & Hsrc & _ & Hswizzle & Hcompression & _).
  - reflexivity.
  - exists result. split; [exact Hrun|]. split; [exact Hsrc|]. split; [exact Hswizzle|].
    exact Hcompression.
Defined.

Lemma swizzle_image_cases_witness :
  ∃ image,
    swizzle_image (Texture.swizzle Fixture.rock_swizzled)
      (Demo.load "rock.png" ColorSpace_Linear) = Ok image
    ∧ gli.data_0_0_0 image
      = [ {| gli.r := 0; gli.g := 0; gli.b := 0; gli.a := 255 |};
          {| gli.r := 10; gli.g := 10; gli.b := 10; gli.a := 255 |};
          {| gli.r := 20; gli.g := 20; gli.b := 20; gli.a := 255 |};
          {| gli.r := 255; gli.g := 255; gli.b := 255; gli.a := 255 |} ]%Z.
Proof.
  destruct (swizzle_image_cases (Texture.swizzle Fixture.rock_swizzled)
              (Demo.load "rock.png" ColorSpace_Linear)) as (_ & _ & _ & Hswizzled).
  destruct Hswizzled as (r & g & b & a & Hr & Hg & Hb & Ha & Himage).
  - discriminate.
  - right. reflexivity.
  - unfold channel_selector. simpl. right. left.
  - unfold channel_selector. simpl. right. left.
  - unfold channel_selector. simpl. right. left.
  - unfold channel_selector. simpl. right. right. right. left.
  - simpl in Hr, Hg, Hb, Ha.
    injection Hr as <-. injection Hg as <-. injection Hb as <-. injection Ha as <-.
    eexists. split; [exact Himage|]. reflexivity.
Defined.
